(** * The completion client of ai-author-gui (src/apiService.ts)

    A shallow embedding of class [APIService]: the cache key of a request,
    the cache table with its 24 hour freshness rule, the atomic completion
    [chatCompletion], the streamed completion [chatCompletionStream] with
    its line decoder, and the loading of the persisted cache.

    Host facilities are modelled as far as the class uses them:
    - a JavaScript string is the list of its UTF-16 code units;
    - a JavaScript number is an integer, or a finite non-integer carried by
      the text [Number::toString] prints for it, or NaN, or an infinity
      (the class never computes with a non-integer: it only serializes the
      temperature);
    - a JSON value is a tree; [undefined] is [None] of an option;
    - [fetch], the response methods, the body reader and [Date.now] are
      answered by an oracle ([World]); [localStorage] is part of the state;
    - [JSON.parse] is the host's: the development is parametric in it;
    - the caller of a streamed completion iterates the generator to its
      end, and its callback returns or throws;
    - [console] output is left out. *)

From Stdlib Require Import String Ascii ZArith Bool Lia List.
Import ListNotations.
Set Warnings "-register-all".
Local Open Scope Z_scope.

(** ** JavaScript strings *)

Definition jsstring := list Z.

(** The code units of an ASCII literal. *)
Definition js (s : string) : jsstring :=
  map (fun a => Z.of_N (N_of_ascii a)) (list_ascii_of_string s).

Fixpoint jsstring_eqb (a b : jsstring) : bool :=
  match a, b with
  | [], [] => true
  | x :: a', y :: b' => (x =? y) && jsstring_eqb a' b'
  | _, _ => false
  end.

(** [s.startsWith(p)] *)
Fixpoint startsWith (p s : jsstring) : bool :=
  match p, s with
  | [], _ => true
  | x :: p', y :: s' => (x =? y) && startsWith p' s'
  | _ :: _, [] => false
  end.

(** [s.slice(n)] for [0 <= n] *)
Definition slice (n : nat) (s : jsstring) : jsstring := skipn n s.

(** [s.substring(0, n)] *)
Definition substring0 (n : nat) (s : jsstring) : jsstring := firstn n s.

(** [s.split('\n')]: never empty, [''.split('\n')] is [['']]. *)
Fixpoint split_nl (s : jsstring) : list jsstring :=
  match s with
  | [] => [[]]
  | c :: r =>
      if c =? 10 then [] :: split_nl r
      else match split_nl r with
           | l :: ls => (c :: l) :: ls
           | [] => [[c]]
           end
  end.

(** ** 32-bit integer operations *)

Definition ToInt32 (z : Z) : Z := (z + 2 ^ 31) mod 2 ^ 32 - 2 ^ 31.

(** [a << n] *)
Definition shl32 (a n : Z) : Z := ToInt32 (Z.shiftl (ToInt32 a) n).

(** [a & b] *)
Definition and32 (a b : Z) : Z := ToInt32 (Z.land (ToInt32 a) (ToInt32 b)).

(** ** Numbers and their text *)

Definition digitChar (d : Z) : Z := if d <? 10 then 48 + d else 87 + d.

(** Digits of a non-negative integer, most significant first. Every
    division by a radix of at least 2 removes a bit, so [fuel] above the
    bit length is enough. *)
Fixpoint toRadix (fuel : nat) (radix n : Z) : jsstring :=
  match fuel with
  | O => []
  | S f =>
      if n <? radix then [digitChar n]
      else toRadix f radix (n / radix) ++ [digitChar (n mod radix)]
  end.

(** [n.toString(radix)] for an integer [n]. *)
Definition Integer_toString (n radix : Z) : jsstring :=
  let digits := toRadix (S (Z.to_nat (Z.log2 (Z.abs n)))) radix (Z.abs n) in
  if n <? 0 then js "-" ++ digits else digits.

(** The value a text of digits denotes. *)
Definition digitValue (c : Z) : Z := if c <? 58 then c - 48 else c - 87.

Definition fromRadix (radix : Z) (s : jsstring) : Z :=
  fold_left (fun acc c => acc * radix + digitValue c) s 0.

(** [Int z]: an integer, of a magnitude that toString prints in full
    (below [10^21]; negative zero prints as zero and is not told apart).
    [Frac text]: a finite number that is not an integer, by the text
    Number::toString gives it, such as [0.7]. *)
Inductive JsNumber :=
| Int (z : Z)
| Frac (text : jsstring)
| NaN
| Infinity (negative : bool).

Definition isFinite (n : JsNumber) : bool :=
  match n with
  | Int _ | Frac _ => true
  | NaN | Infinity _ => false
  end.

Definition Number_toString (n : JsNumber) : jsstring :=
  match n with
  | Int z => Integer_toString z 10
  | Frac text => text
  | NaN => js "NaN"
  | Infinity false => js "Infinity"
  | Infinity true => js "-Infinity"
  end.

(** ** JSON values *)

Inductive JsValue :=
| JNull
| JBool (b : bool)
| JNum (n : JsNumber)
| JStr (s : jsstring)
| JArr (items : list JsValue)
| JObj (members : list (jsstring * JsValue)).

(** ToBoolean *)
Definition truthy (v : JsValue) : bool :=
  match v with
  | JNull => false
  | JBool b => b
  | JNum (Int z) => negb (z =? 0)
  | JNum NaN => false
  | JNum _ => true
  | JStr s => match s with [] => false | _ => true end
  | JArr _ | JObj _ => true
  end.

(** ToString, as [+=] on a string applies it. *)
Fixpoint ToString (v : JsValue) : jsstring :=
  match v with
  | JNull => js "null"
  | JBool true => js "true"
  | JBool false => js "false"
  | JNum n => Number_toString n
  | JStr s => s
  | JArr l =>
      (fix join (l : list JsValue) : jsstring :=
         match l with
         | [] => []
         | x :: r =>
             let t := match x with JNull => [] | _ => ToString x end in
             match r with
             | [] => t
             | _ => t ++ js "," ++ join r
             end
         end) l
  | JObj _ => js "[object Object]"
  end.

(** *** JSON.stringify *)

Definition hexDigit (d : Z) : Z := digitChar d.

Definition unicodeEscape (c : Z) : jsstring :=
  js "\u" ++ [hexDigit (c / 4096 mod 16); hexDigit (c / 256 mod 16);
               hexDigit (c / 16 mod 16); hexDigit (c mod 16)].

Definition isLeadSurrogate (c : Z) : bool := (55296 <=? c) && (c <=? 56319).
Definition isTrailSurrogate (c : Z) : bool := (56320 <=? c) && (c <=? 57343).

(** The body of QuoteJSONString: the two-character escapes, [\uXXXX] for
    the other control characters and for a surrogate without its partner. *)
Fixpoint quoteBody (s : jsstring) : jsstring :=
  match s with
  | [] => []
  | c :: r =>
      if c =? 8 then js "\b" ++ quoteBody r
      else if c =? 9 then js "\t" ++ quoteBody r
      else if c =? 10 then js "\n" ++ quoteBody r
      else if c =? 12 then js "\f" ++ quoteBody r
      else if c =? 13 then js "\r" ++ quoteBody r
      else if c =? 34 then [92; 34] ++ quoteBody r
      else if c =? 92 then [92; 92] ++ quoteBody r
      else if c <? 32 then unicodeEscape c ++ quoteBody r
      else if isLeadSurrogate c then
        match r with
        | d :: r' =>
            if isTrailSurrogate d then c :: d :: quoteBody r'
            else unicodeEscape c ++ quoteBody r
        | [] => unicodeEscape c
        end
      else if isTrailSurrogate c then unicodeEscape c ++ quoteBody r
      else c :: quoteBody r
  end.

Definition QuoteJSONString (s : jsstring) : jsstring :=
  [34] ++ quoteBody s ++ [34].

Fixpoint JSON_stringify (v : JsValue) : jsstring :=
  match v with
  | JNull => js "null"
  | JBool true => js "true"
  | JBool false => js "false"
  | JNum n => if isFinite n then Number_toString n else js "null"
  | JStr s => QuoteJSONString s
  | JArr l =>
      js "[" ++
      (fix items (l : list JsValue) : jsstring :=
         match l with
         | [] => []
         | x :: r =>
             match r with
             | [] => JSON_stringify x
             | _ => JSON_stringify x ++ js "," ++ items r
             end
         end) l ++ js "]"
  | JObj fs =>
      js "{" ++
      (fix members (fs : list (jsstring * JsValue)) : jsstring :=
         match fs with
         | [] => []
         | (k, x) :: r =>
             match r with
             | [] => QuoteJSONString k ++ js ":" ++ JSON_stringify x
             | _ => QuoteJSONString k ++ js ":" ++ JSON_stringify x
                    ++ js "," ++ members r
             end
         end) fs ++ js "}"
  end.

(** ** Messages and the cache key (types.ts, generateCacheKey) *)

Inductive Role := system | user | assistant.

Record Message := { role : Role; content : jsstring }.

Definition Role_text (r : Role) : jsstring :=
  match r with
  | system => js "system"
  | user => js "user"
  | assistant => js "assistant"
  end.

(** A message as the object literal [{ role, content }] the callers build. *)
Definition Message_value (m : Message) : JsValue :=
  JObj [(js "role", JStr (Role_text (role m))); (js "content", JStr (content m))].

Definition messages_value (messages : list Message) : JsValue :=
  JArr (map Message_value messages).

(** [temperature ?? null] *)
Definition temperature_or_null (temperature : option JsNumber) : JsValue :=
  match temperature with
  | Some t => JNum t
  | None => JNull
  end.

Definition cachePayload (messages : list Message) (temperature : option JsNumber)
  : JsValue :=
  JObj [(js "messages", messages_value messages);
        (js "temperature", temperature_or_null temperature)].

(** One turn of the loop: [hash = ((hash << 5) - hash) + char; hash = hash & hash]. *)
Definition hashStep (hash char : Z) : Z :=
  let hash1 := (shl32 hash 5 - hash) + char in
  and32 hash1 hash1.

Definition hashString (s : jsstring) : Z := fold_left hashStep s 0.

Definition generateCacheKey (messages : list Message)
  (temperature : option JsNumber) : jsstring :=
  let jsonString := JSON_stringify (cachePayload messages temperature) in
  let hash := hashString jsonString in
  substring0 32 (Integer_toString (Z.abs hash) 36).

(** ** Errors and results *)

Record JsError := { name : jsstring; message : jsstring }.

(** [new Error(msg)] *)
Definition Error (msg : jsstring) : JsError := {| name := js "Error"; message := msg |}.

Definition TypeError (msg : jsstring) : JsError :=
  {| name := js "TypeError"; message := msg |}.

(** [`${error}`]: Error.prototype.toString *)
Definition Error_toString (e : JsError) : jsstring :=
  match name e, message e with
  | [], msg => msg
  | nm, [] => nm
  | nm, msg => nm ++ js ": " ++ msg
  end.

(** A synchronous evaluation returns or throws. *)
Inductive Completion (A : Type) :=
| Normal (a : A)
| Throw (e : JsError).
Arguments Normal {A} a.
Arguments Throw {A} e.

(** A promise is fulfilled or rejected. *)
Inductive Settled (A : Type) :=
| Resolved (a : A)
| Rejected (e : JsError).
Arguments Resolved {A} a.
Arguments Rejected {A} e.

(** ** Property access on JSON data *)

Fixpoint lookup {A : Type} (k : jsstring) (l : list (jsstring * A)) : option A :=
  match l with
  | [] => None
  | (k', x) :: r => if jsstring_eqb k' k then Some x else lookup k r
  end.

(** ** Deep equality of values, and the key of any messages

    At run time [messages] is an array of objects, each with its
    properties in an order of its own, and JSON.stringify follows that
    order. *)

Definition JsNumber_eqb (x y : JsNumber) : bool :=
  match x, y with
  | Int a, Int b => a =? b
  | Frac s, Frac s' => jsstring_eqb s s'
  | NaN, NaN => true
  | Infinity a, Infinity b => Bool.eqb a b
  | _, _ => false
  end.

(** Equality by value: the same elements in the same positions of an
    array, the same properties with equal values in an object, whatever
    the order of the properties. *)
Fixpoint deepEqual (a b : JsValue) {struct a} : bool :=
  match a, b with
  | JNull, JNull => true
  | JBool x, JBool y => Bool.eqb x y
  | JNum x, JNum y => JsNumber_eqb x y
  | JStr s, JStr s' => jsstring_eqb s s'
  | JArr l, JArr l' =>
      (fix elements (l l' : list JsValue) : bool :=
         match l, l' with
         | [], [] => true
         | x :: r, y :: r' => deepEqual x y && elements r r'
         | _, _ => false
         end) l l'
  | JObj p, JObj q =>
      (length p =? length q)%nat
      && forallb (fun '(k, x) =>
                    match lookup k q with
                    | Some y => deepEqual x y
                    | None => false
                    end) p
  | _, _ => false
  end.

(** The objects of [a] and [b] list their properties in the same order. *)
Fixpoint sameOrder (a b : JsValue) {struct a} : bool :=
  match a, b with
  | JArr l, JArr l' =>
      (fix elements (l l' : list JsValue) : bool :=
         match l, l' with
         | x :: r, y :: r' => sameOrder x y && elements r r'
         | _, _ => true
         end) l l'
  | JObj p, JObj q =>
      (fix properties (p q : list (jsstring * JsValue)) : bool :=
         match p, q with
         | (k, x) :: r, (k', y) :: r' =>
             jsstring_eqb k k' && sameOrder x y && properties r r'
         | _, _ => true
         end) p q
  | _, _ => true
  end.

Fixpoint distinct (keys : list jsstring) : bool :=
  match keys with
  | [] => true
  | k :: r => negb (existsb (jsstring_eqb k) r) && distinct r
  end.

(** No object of [v] has a property twice, as it is in every value of the
    language. *)
Fixpoint distinctKeys (v : JsValue) : bool :=
  match v with
  | JArr l => forallb distinctKeys l
  | JObj p => distinct (map fst p) && forallb (fun '(_, x) => distinctKeys x) p
  | _ => true
  end.

Definition temperatureEqual (t1 t2 : option JsNumber) : bool :=
  match t1, t2 with
  | None, None => true
  | Some x, Some y => JsNumber_eqb x y
  | _, _ => false
  end.

(** generateCacheKey on the messages as they come, objects in their own
    property order; [generateCacheKey] above is this function on the
    literals [{ role, content }]. *)
Module Runtime.

Definition cachePayload (messages : JsValue) (temperature : option JsNumber)
  : JsValue :=
  JObj [(js "messages", messages);
        (js "temperature", temperature_or_null temperature)].

Definition generateCacheKey (messages : JsValue) (temperature : option JsNumber)
  : jsstring :=
  let jsonString := JSON_stringify (cachePayload messages temperature) in
  let hash := hashString jsonString in
  substring0 32 (Integer_toString (Z.abs hash) 36).

End Runtime.

(** Induction on values, with the elements and the property values as
    smaller. *)
Section ValueInduction.

Variable P : JsValue -> Prop.
Hypothesis PNull : P JNull.
Hypothesis PBool : forall b, P (JBool b).
Hypothesis PNum : forall n, P (JNum n).
Hypothesis PStr : forall s, P (JStr s).
Hypothesis PArr : forall l, Forall P l -> P (JArr l).
Hypothesis PObj : forall p, Forall (fun kx => P (snd kx)) p -> P (JObj p).

Fixpoint JsValue_induction (v : JsValue) : P v :=
  match v with
  | JNull => PNull
  | JBool b => PBool b
  | JNum n => PNum n
  | JStr s => PStr s
  | JArr l =>
      PArr l ((fix all (l : list JsValue) : Forall P l :=
                 match l with
                 | [] => Forall_nil P
                 | x :: r => Forall_cons x (JsValue_induction x) (all r)
                 end) l)
  | JObj p =>
      PObj p ((fix all (p : list (jsstring * JsValue))
                 : Forall (fun kx => P (snd kx)) p :=
                 match p with
                 | [] => Forall_nil _
                 | (k, x) :: r =>
                     Forall_cons (P := fun kx => P (snd kx)) (k, x)
                       (JsValue_induction x) (all r)
                 end) p)
  end.

End ValueInduction.

Definition isDigit (c : Z) : bool := (48 <=? c) && (c <=? 57).

(** The array index a property key denotes: a canonical decimal text below
    [2^32 - 1]. *)
Definition parseIndex (k : jsstring) : option Z :=
  match k with
  | [] => None
  | c :: r =>
      if forallb isDigit k && (negb (c =? 48) || match r with [] => true | _ => false end)
      then let n := fromRadix 10 k in
           if n <=? 2 ^ 32 - 2 then Some n else None
      else None
  end.

(** [v[k]] for a value [v] other than null: the own properties of JSON data.
    The members inherited from the built-in prototypes are functions; the
    class reads [choices], [0], [message], [delta] and [content] only, none
    of which names one. *)
Definition Get (v : JsValue) (k : jsstring) : option JsValue :=
  match v with
  | JObj fs => lookup k fs
  | JArr l =>
      match parseIndex k with
      | Some i => nth_error l (Z.to_nat i)
      | None => if jsstring_eqb k (js "length")
                then Some (JNum (Int (Z.of_nat (length l)))) else None
      end
  | JStr s =>
      match parseIndex k with
      | Some i => option_map (fun c => JStr [c]) (nth_error s (Z.to_nat i))
      | None => if jsstring_eqb k (js "length")
                then Some (JNum (Int (Z.of_nat (length s)))) else None
      end
  | JNull | JBool _ | JNum _ => None
  end.

Definition cannotRead (what k : jsstring) : JsError :=
  TypeError (js "Cannot read properties of " ++ what ++ js " (reading '" ++ k ++ js "')").

(** [base.k] and [base[k]]: throws on undefined and null. *)
Definition member (base : option JsValue) (k : jsstring) : Completion (option JsValue) :=
  match base with
  | None => Throw (cannotRead (js "undefined") k)
  | Some JNull => Throw (cannotRead (js "null") k)
  | Some v => Normal (Get v k)
  end.

(** [base?.k] and [base?.[k]]: undefined on undefined and null. *)
Definition optMember (base : option JsValue) (k : jsstring) : option JsValue :=
  match base with
  | None | Some JNull => None
  | Some v => Get v k
  end.

(** [x || ''] *)
Definition orEmpty (x : option JsValue) : JsValue :=
  match x with
  | Some v => if truthy v then v else JStr []
  | None => JStr []
  end.

(** The keys ["0"], ..., of an array or a string of [n] elements. *)
Definition indexKeys (n : nat) : list jsstring :=
  map (fun i => Integer_toString (Z.of_nat i) 10) (seq 0 n).

(** [Object.keys(v)] *)
Definition Object_keys (v : JsValue) : Completion (list jsstring) :=
  match v with
  | JNull => Throw (TypeError (js "Cannot convert undefined or null to object"))
  | JObj fs => Normal (map fst fs)
  | JArr l => Normal (indexKeys (length l))
  | JStr s => Normal (indexKeys (length s))
  | JBool _ | JNum _ => Normal []
  end.

(** ** The cache table (types.ts: CacheEntry, PromptCache) *)

Module CacheEntry.
(** [content] holds what the completion produced; the provider's JSON
    decides its type at run time, so it is a JSON value here. *)
Record t := { content : JsValue; timestamp : Z }.
End CacheEntry.

(** The own properties of the table, in the order JavaScript enumerates
    them: array indices ascending, then the other keys as created. *)
Definition PromptCache := list (jsstring * CacheEntry.t).

Definition hasProp {A : Type} (k : jsstring) (l : list (jsstring * A)) : bool :=
  match lookup k l with Some _ => true | None => false end.

Fixpoint replaceProp {A : Type} (k : jsstring) (v : A) (l : list (jsstring * A))
  : list (jsstring * A) :=
  match l with
  | [] => []
  | (k', x) :: r =>
      if jsstring_eqb k' k then (k', v) :: r else (k', x) :: replaceProp k v r
  end.

Fixpoint insertIndex {A : Type} (i : Z) (k : jsstring) (v : A) (l : list (jsstring * A))
  : list (jsstring * A) :=
  match l with
  | [] => [(k, v)]
  | (k', x) :: r =>
      match parseIndex k' with
      | Some j => if j <? i then (k', x) :: insertIndex i k v r else (k, v) :: l
      | None => (k, v) :: l
      end
  end.

(** [obj[k] = v] on an ordinary object. *)
Definition setProp {A : Type} (k : jsstring) (v : A) (l : list (jsstring * A))
  : list (jsstring * A) :=
  if hasProp k l then replaceProp k v l
  else match parseIndex k with
       | Some i => insertIndex i k v l
       | None => l ++ [(k, v)]
       end.

Definition CacheEntry_value (e : CacheEntry.t) : JsValue :=
  JObj [(js "content", CacheEntry.content e);
        (js "timestamp", JNum (Int (CacheEntry.timestamp e)))].

Definition PromptCache_value (c : PromptCache) : JsValue :=
  JObj (map (fun kv => (fst kv, CacheEntry_value (snd kv))) c).

(** ** localStorage *)

(** The stored items, and whether the browser refuses reads or writes
    (storage disabled, quota exceeded). *)
Record LocalStorage := {
  items : list (jsstring * jsstring);
  readFails : bool;
  writeFails : bool
}.

Definition getItem (ls : LocalStorage) (k : jsstring) : Completion (option jsstring) :=
  if readFails ls
  then Throw {| name := js "SecurityError"; message := js "The operation is insecure." |}
  else Normal (lookup k (items ls)).

Definition setItem (ls : LocalStorage) (k v : jsstring) : Completion LocalStorage :=
  if writeFails ls
  then Throw {| name := js "QuotaExceededError"; message := js "The quota has been exceeded." |}
  else Normal {| items := if hasProp k (items ls) then replaceProp k v (items ls)
                          else items ls ++ [(k, v)];
                 readFails := readFails ls;
                 writeFails := writeFails ls |}.

(** ** The client (class APIService) *)

(** One controller is made per request; only its presence is observed. *)
Inductive AbortController := newAbortController.

Record APIService := {
  cache : PromptCache;
  cacheKey : jsstring;
  currentController : option AbortController
}.

(** The instance together with the browser's storage. *)
Record Machine := { this : APIService; localStorage : LocalStorage }.

Definition with_cache (m : Machine) (c : PromptCache) : Machine :=
  {| this := {| cache := c; cacheKey := cacheKey (this m);
                currentController := currentController (this m) |};
     localStorage := localStorage m |}.

Definition with_controller (m : Machine) (c : option AbortController) : Machine :=
  {| this := {| cache := cache (this m); cacheKey := cacheKey (this m);
                currentController := c |};
     localStorage := localStorage m |}.

(** What a call does to the outside, in order. *)
Inductive Event :=
| EFetch (url authorization body : jsstring)
| EOnChunk (chunk : JsValue)
| EYield (chunk : JsValue)
| ESetItem (key value : jsstring)
| EReleaseLock.

(** The body of a response as the reader delivers it: the text of each
    read after TextDecoder, then the end of the stream or a failed read. *)
Inductive Ending := EndOfStream | ReadFails (e : JsError).

Record BodyStream := { chunks : list jsstring; ending : Ending }.

Record Response := {
  ok : bool;
  status : Z;
  text : Settled jsstring;          (* response.text() *)
  json : Settled JsValue;           (* response.json() *)
  body : option BodyStream          (* response.body *)
}.

(** The answers of the environment during one call. *)
Record World := {
  lookupTime : Z;                   (* Date.now() in getCachedResponse *)
  fetched : Settled Response;       (* fetch(...) *)
  writeTime : Z                     (* Date.now() in setCachedResponse *)
}.

Record Run (A : Type) := {
  outcome : Settled A;
  final : Machine;
  trace : list Event
}.
Arguments outcome {A} r.
Arguments final {A} r.
Arguments trace {A} r.

Definition DAY : Z := 24 * 60 * 60 * 1000.

Definition saveCache (m : Machine) : Machine * list Event :=
  let value := JSON_stringify (PromptCache_value (cache (this m))) in
  let key := cacheKey (this m) in
  match setItem (localStorage m) key value with
  | Normal ls => ({| this := this m; localStorage := ls |}, [ESetItem key value])
  | Throw _ => (m, [ESetItem key value])
  end.

Definition getCachedResponse (svc : APIService) (messages : list Message)
  (temperature : option JsNumber) (now : Z) : option JsValue :=
  let key := generateCacheKey messages temperature in
  match lookup key (cache svc) with
  | Some entry =>
      if now - CacheEntry.timestamp entry <? DAY
      then Some (CacheEntry.content entry)
      else None
  | None => None
  end.

Definition setCachedResponse (m : Machine) (messages : list Message)
  (temperature : option JsNumber) (content : JsValue) (now : Z)
  : Machine * list Event :=
  let key := generateCacheKey messages temperature in
  let entry := {| CacheEntry.content := content; CacheEntry.timestamp := now |} in
  saveCache (with_cache m (setProp key entry (cache (this m)))).

(** [Object.keys(this.cache).length], for whatever [this.cache] holds. *)
Definition getCacheSize (cache : JsValue) : Completion Z :=
  match Object_keys cache with
  | Normal keys => Normal (Z.of_nat (length keys))
  | Throw e => Throw e
  end.

(** The request body: temperature is a member only when defined. *)
Definition requestBody (model : jsstring) (messages : list Message) (stream : bool)
  (temperature : option JsNumber) : JsValue :=
  JObj ([(js "model", JStr model);
         (js "messages", messages_value messages);
         (js "stream", JBool stream)]
        ++ match temperature with
           | Some t => [(js "temperature", JNum t)]
           | None => []
           end).

Definition fetchCall (model : jsstring) (messages : list Message) (stream : bool)
  (temperature : option JsNumber) (apiKey baseUrl : jsstring) : Event :=
  EFetch (baseUrl ++ js "/chat/completions")
         (js "Bearer " ++ apiKey)
         (JSON_stringify (requestBody model messages stream temperature)).

Definition httpError (response : Response) (errorText : jsstring) : JsError :=
  Error (js "HTTP error! status: " ++ Integer_toString (status response) 10
         ++ js ", body: " ++ errorText).

Definition cancelled : JsError := Error (js "Request was cancelled").

(** The catch clause of both operations. *)
Definition rethrow (prefix : jsstring) (error : JsError) : JsError :=
  if jsstring_eqb (name error) (js "AbortError") then cancelled
  else Error (prefix ++ Error_toString error).

Definition streamPrefix : jsstring := js "Streaming API request failed: ".
Definition atomicPrefix : jsstring := js "API request failed: ".

(** [data.choices[0]?.message?.content || ''] *)
Definition firstChoiceContent (data : JsValue) : Completion JsValue :=
  match member (Some data) (js "choices") with
  | Throw e => Throw e
  | Normal choices =>
      match member choices (js "0") with
      | Throw e => Throw e
      | Normal first =>
          Normal (orEmpty (optMember (optMember first (js "message")) (js "content")))
      end
  end.

Definition chatCompletion (m : Machine) (messages : list Message) (model : jsstring)
  (temperature : option JsNumber) (apiKey baseUrl : jsstring) (w : World)
  : Run JsValue :=
  let miss :=
    let call := fetchCall model messages false temperature apiKey baseUrl in
    let failed (error : JsError) :=
      {| outcome := Rejected (rethrow atomicPrefix error);
         final := with_controller m None;
         trace := [call] |} in
    match fetched w with
    | Rejected e => failed e
    | Resolved response =>
        if negb (ok response) then
          match text response with
          | Resolved errorText => failed (httpError response errorText)
          | Rejected e => failed e
          end
        else
          match json response with
          | Rejected e => failed e
          | Resolved data =>
              match firstChoiceContent data with
              | Throw e => failed e
              | Normal content =>
                  let (m', saved) :=
                    setCachedResponse (with_controller m (Some newAbortController))
                      messages temperature content (writeTime w) in
                  {| outcome := Resolved content;
                     final := with_controller m' None;
                     trace := call :: saved |}
              end
          end
    end in
  match getCachedResponse (this m) messages temperature (lookupTime w) with
  | Some cached =>
      if truthy cached
      then {| outcome := Resolved cached; final := m; trace := [] |}
      else miss
  | None => miss
  end.

(** ** Streaming and loading: the parts that call JSON.parse *)

(** The optional [onChunk]: what the caller's function does when called,
    return or throw. *)
Definition Callback := option (JsValue -> Completion unit).

(** [if (onChunk) onChunk(content); yield content;], the end of the [try]
    block of a data line: a callback that throws leaves the block before
    the [yield], and the [catch] ignores what it threw. The consumer is
    taken to resume the generator after each yield, as [for await] does. *)
Definition deliver (onChunk : Callback) (content : JsValue) : list Event :=
  match onChunk with
  | None => [EYield content]
  | Some callback =>
      EOnChunk content ::
      match callback content with
      | Normal _ => [EYield content]
      | Throw _ => []
      end
  end.

(** What a line of the stream means to the loop. *)
Inductive Line :=
| Sentinel
| Delta (content : JsValue)
| Ignorable.

(** How the [while] loop over the reads is left. *)
Inductive LoopExit :=
| ReturnedInLoop (fullContent : jsstring)   (* [return] at the sentinel *)
| Broke (fullContent : jsstring)            (* [break] on [done] *)
| Raised (e : JsError).                     (* a read failed *)

(** What the constructor leaves in [this.cache]: the assignment of the
    parsed JSON is unchecked, so it may be something else than a table. *)
Inductive LoadedCache :=
| Table (t : PromptCache)
| NotATable (v : JsValue).

Section Parsing.

(** [JSON.parse]: [None] when it throws a SyntaxError. *)
Variable JSON_parse : jsstring -> option JsValue.

(** [parsed.choices?.[0]?.delta?.content] inside the [try] whose [catch]
    ignores every error: the content when it is truthy. *)
Definition deltaContent (data : jsstring) : option JsValue :=
  match JSON_parse data with
  | None => None
  | Some parsed =>
      match member (Some parsed) (js "choices") with
      | Throw _ => None
      | Normal choices =>
          match optMember (optMember (optMember choices (js "0")) (js "delta"))
                          (js "content") with
          | Some content => if truthy content then Some content else None
          | None => None
          end
      end
  end.

Definition decodeLine (line : jsstring) : Line :=
  if startsWith (js "data: ") line then
    let data := slice 6 line in
    if jsstring_eqb data (js "[DONE]") then Sentinel
    else match deltaContent data with
         | Some content => Delta content
         | None => Ignorable
         end
  else Ignorable.

(** The [for] loop over the complete lines of one read. The flag tells
    whether the sentinel was met. [fullContent += content] comes before
    the callback, so the text grows whatever the callback does. *)
Fixpoint forLines (onChunk : Callback) (lines : list jsstring) (fullContent : jsstring)
  : bool * jsstring * list Event :=
  match lines with
  | [] => (false, fullContent, [])
  | line :: rest =>
      match decodeLine line with
      | Sentinel => (true, fullContent, [])
      | Delta content =>
          let '(done, full, evs) :=
            forLines onChunk rest (fullContent ++ ToString content) in
          (done, full, deliver onChunk content ++ evs)
      | Ignorable => forLines onChunk rest fullContent
      end
  end.

(** The [while (true)] loop: one turn per read. *)
Fixpoint whileRead (onChunk : Callback) (reads : list jsstring) (ending : Ending)
  (buffer fullContent : jsstring) : LoopExit * list Event :=
  match reads with
  | [] =>
      match ending with
      | EndOfStream => (Broke fullContent, [])
      | ReadFails e => (Raised e, [])
      end
  | value :: rest =>
      let lines := split_nl (buffer ++ value) in
      let buffer' := last lines [] in                (* lines.pop() || '' *)
      match forLines onChunk (removelast lines) fullContent with
      | (true, full, evs) => (ReturnedInLoop full, evs)
      | (false, full, evs) =>
          let (exit, evs') := whileRead onChunk rest ending buffer' full in
          (exit, evs ++ evs')
      end
  end.

(** The generator driven to its end, as [for await] does. *)
Definition chatCompletionStream (m : Machine) (messages : list Message)
  (model : jsstring) (temperature : option JsNumber) (apiKey baseUrl : jsstring)
  (onChunk : Callback) (w : World) : Run jsstring :=
  let call := fetchCall model messages true temperature apiKey baseUrl in
  let failed (error : JsError) (evs : list Event) :=
    {| outcome := Rejected (rethrow streamPrefix error);
       final := with_controller m None;
       trace := call :: evs |} in
  match fetched w with
  | Rejected e => failed e []
  | Resolved response =>
      if negb (ok response) then
        match text response with
        | Resolved errorText => failed (httpError response errorText) []
        | Rejected e => failed e []
        end
      else
        match body response with
        | None => failed (Error (js "Response body is not readable")) []
        | Some stream =>
            let started := with_controller m (Some newAbortController) in
            match whileRead onChunk (chunks stream) (ending stream) [] [] with
            | (ReturnedInLoop fullContent, evs) =>
                let (m', saved) :=
                  setCachedResponse started messages temperature
                    (JStr fullContent) (writeTime w) in
                {| outcome := Resolved fullContent;
                   final := with_controller m' None;
                   trace := call :: evs ++ saved ++ [EReleaseLock] |}
            | (Broke fullContent, evs) =>
                let (m', saved) :=
                  setCachedResponse started messages temperature
                    (JStr fullContent) (writeTime w) in
                {| outcome := Resolved fullContent;
                   final := with_controller m' None;
                   trace := call :: evs ++ [EReleaseLock] ++ saved |}
            | (Raised e, evs) => failed e (evs ++ [EReleaseLock])
            end
        end
  end.

(** The table a parsed value is, when it has the shape the class writes:
    an object whose members are [{content, timestamp}] with an integer
    timestamp. *)
Definition asCacheEntry (v : JsValue) : option CacheEntry.t :=
  match v with
  | JObj [(k1, c); (k2, JNum (Int ts))] =>
      if jsstring_eqb k1 (js "content") && jsstring_eqb k2 (js "timestamp")
      then Some {| CacheEntry.content := c; CacheEntry.timestamp := ts |}
      else None
  | _ => None
  end.

Fixpoint asEntries (fs : list (jsstring * JsValue)) : option PromptCache :=
  match fs with
  | [] => Some []
  | (k, v) :: r =>
      match asCacheEntry v, asEntries r with
      | Some e, Some t => Some ((k, e) :: t)
      | _, _ => None
      end
  end.

Definition asPromptCache (v : JsValue) : LoadedCache :=
  match v with
  | JObj fs => match asEntries fs with Some t => Table t | None => NotATable v end
  | _ => NotATable v
  end.

(** [loadCache], run on the initial [this.cache = {}]. *)
Definition loadCache (ls : LocalStorage) (cacheKey : jsstring) : LoadedCache :=
  match getItem ls cacheKey with
  | Throw _ => Table []                       (* catch: this.cache = {} *)
  | Normal None => Table []                   (* null is falsy *)
  | Normal (Some []) => Table []              (* '' is falsy *)
  | Normal (Some stored) =>
      match JSON_parse stored with
      | None => Table []                      (* catch: this.cache = {} *)
      | Some v => asPromptCache v
      end
  end.

Definition LoadedCache_value (c : LoadedCache) : JsValue :=
  match c with
  | Table t => PromptCache_value t
  | NotATable v => v
  end.

(** The instance [new APIService(cacheKey)] is when the loaded cache is
    the table [t]. *)
Definition instance (t : PromptCache) (cacheKey : jsstring) : APIService :=
  {| cache := t; cacheKey := cacheKey; currentController := None |}.

(** *** The stream as a whole

    The deltas of a text, read off its complete lines without regard to
    how the reads cut it: what the statements about the loop refer to. *)

Definition completeLines (s : jsstring) : list jsstring := removelast (split_nl s).

Definition pending (s : jsstring) : jsstring := last (split_nl s) [].

Definition isSentinel (line : jsstring) : bool :=
  match decodeLine line with Sentinel => true | _ => false end.

Definition hasSentinel (lines : list jsstring) : bool := existsb isSentinel lines.

(** The contents of the data lines before the first sentinel line. *)
Fixpoint decodedDeltas (lines : list jsstring) : list JsValue :=
  match lines with
  | [] => []
  | line :: rest =>
      match decodeLine line with
      | Sentinel => []
      | Delta content => content :: decodedDeltas rest
      | Ignorable => decodedDeltas rest
      end
  end.

Definition streamDeltas (stream : BodyStream) : list JsValue :=
  decodedDeltas (completeLines (concat (chunks stream))).

Definition accumulated (deltas : list JsValue) : jsstring :=
  concat (map ToString deltas).

(** Callback, then yield, for each delta. *)
Definition chunkEvents (onChunk : Callback) (deltas : list JsValue) : list Event :=
  flat_map (deliver onChunk) deltas.

End Parsing.

(** ** Requests *)

(** The arguments of a completion and the flag by which the caller picks
    the operation (env.ts: [if (config.stream)]). *)
Record CompletionRequest := {
  messages : list Message;
  model : jsstring;
  temperature : option JsNumber;
  apiKey : jsstring;
  baseUrl : jsstring;
  stream : bool
}.


Definition perform (JSON_parse : jsstring -> option JsValue) (m : Machine)
  (r : CompletionRequest) (onChunk : Callback) (w : World) : Run JsValue :=
  if stream r then
    let s := chatCompletionStream JSON_parse m (messages r) (model r) (temperature r)
               (apiKey r) (baseUrl r) onChunk w in
    {| outcome := match outcome s with
                  | Resolved full => Resolved (JStr full)
                  | Rejected e => Rejected e
                  end;
       final := final s;
       trace := trace s |}
  else chatCompletion m (messages r) (model r) (temperature r) (apiKey r) (baseUrl r) w.

(** ** Notions the statements use *)

(** Whether the code units of a string sum to an odd number. *)
Definition oddSum (s : jsstring) : bool :=
  fold_left (fun b c => xorb b (Z.odd c)) s false.

(** The text before the temperature in the hashed payload. *)
Definition payloadPrefix (messages : list Message) : jsstring :=
  js "{" ++ QuoteJSONString (js "messages") ++ js ":"
  ++ JSON_stringify (messages_value messages) ++ js ","
  ++ QuoteJSONString (js "temperature") ++ js ":".

Definition numberChar (c : Z) : bool :=
  isDigit c || (c =? 45) || (c =? 43) || (c =? 46) || (c =? 101).

(** [Frac] carries the text of a number that is not an integer: it is
    made of the characters of a numeric literal and has a point or an
    exponent. *)
Definition wellFormed (n : JsNumber) : bool :=
  match n with
  | Frac t => forallb numberChar t && existsb (fun c => (c =? 46) || (c =? 101)) t
  | _ => true
  end.

(** How the loop is left, given whether a sentinel line was met. *)
Definition exitOf (sentinel : bool) (ending : Ending) (full : jsstring) : LoopExit :=
  if sentinel then ReturnedInLoop full
  else match ending with
       | EndOfStream => Broke full
       | ReadFails e => Raised e
       end.

(** The characters of a key: digits and lower-case letters. *)
Definition keyChar (c : Z) : bool := isDigit c || ((97 <=? c) && (c <=? 122)).

(** The callback, where there is one, returns whenever it is called. *)
Definition returnsNormally (onChunk : Callback) : Prop :=
  forall callback c, onChunk = Some callback -> callback c = Normal tt.

Definition isFetch (e : Event) : bool :=
  match e with EFetch _ _ _ => true | _ => false end.

Definition isSetItem (e : Event) : bool :=
  match e with ESetItem _ _ => true | _ => false end.

Definition isChunkEvent (e : Event) : bool :=
  match e with EOnChunk _ | EYield _ => true | _ => false end.

(** The entry a completion writes. *)
Definition entryOf (content : JsValue) (now : Z) : CacheEntry.t :=
  {| CacheEntry.content := content; CacheEntry.timestamp := now |}.


(** ** Sample data *)

(** A literal with ['] written for the double quote. *)
Definition jsq (s : string) : jsstring :=
  map (fun c => if c =? 39 then 34 else c) (js s).

Definition nl : jsstring := [10].

Definition jsonHi : jsstring := jsq "{'choices':[{'delta':{'content':'Hi'}}]}".
Definition jsonThere : jsstring := jsq "{'choices':[{'delta':{'content':' there'}}]}".

Definition deltaOf (s : string) : JsValue :=
  JObj [(js "choices", JArr [JObj [(js "delta", JObj [(js "content", JStr (js s))])]])].

(** JSON.parse on the texts the samples use. *)
Definition sampleParse (s : jsstring) : option JsValue :=
  lookup s [(jsonHi, deltaOf "Hi");
            (jsonThere, deltaOf " there");
            (jsq "{'a':1}", JObj [(js "a", JNum (Int 1))]);
            (js "null", JNull)].

(** Two deltas, without and with the sentinel line. *)
Definition twoDeltas : jsstring :=
  js "data: " ++ jsonHi ++ nl ++ nl ++ js "data: " ++ jsonThere ++ nl ++ nl.

Definition twoDeltasDone : jsstring := twoDeltas ++ js "data: [DONE]" ++ nl ++ nl.

(** The text cut in the middle of its third line. *)
Definition inTwoReads (s : jsstring) : list jsstring := [firstn 60 s; skipn 60 s].

(** A callback that takes note of the chunk and returns, as the one of
    env.ts, and one that throws. *)
Definition noting : Callback := Some (fun _ => Normal tt).

Definition throwing : Callback := Some (fun _ => Throw (Error (js "render failed"))).

Definition abortError : JsError :=
  {| name := js "AbortError"; message := js "The user aborted a request." |}.

Definition streamEnded : BodyStream :=
  {| chunks := inTwoReads twoDeltas; ending := EndOfStream |}.

Definition streamDone : BodyStream :=
  {| chunks := inTwoReads twoDeltasDone; ending := EndOfStream |}.

Definition streamAborted : BodyStream :=
  {| chunks := inTwoReads twoDeltas; ending := ReadFails abortError |}.

Definition streaming (s : BodyStream) : Response :=
  {| ok := true; status := 200;
     text := Resolved (concat (chunks s));
     json := Rejected {| name := js "SyntaxError"; message := js "Unexpected token" |};
     body := Some s |}.

Definition answering (data : JsValue) : Response :=
  {| ok := true; status := 200;
     text := Resolved (JSON_stringify data);
     json := Resolved data;
     body := None |}.

Definition worldAt (now : Z) (r : Response) : World :=
  {| lookupTime := now; fetched := Resolved r; writeTime := now |}.

Definition emptyStorage : LocalStorage :=
  {| items := []; readFails := false; writeFails := false |}.

Definition newClient : Machine :=
  {| this := instance [] (js "ai-author-cache"); localStorage := emptyStorage |}.

Definition hello : list Message := [ {| role := user; content := js "Hi" |} ].

Definition colliding : list Message := [ {| role := user; content := js "pqhrcjd" |} ].

Definition gpt4 : jsstring := js "gpt-4".
Definition secret : jsstring := js "sk-1".
Definition openai : jsstring := js "https://api.openai.com/v1".

(** A 2xx body with no choices, one with an answer, one without [choices]. *)
Definition noChoices : JsValue := JObj [(js "choices", JArr [])].

Definition answerOf (s : string) : JsValue :=
  JObj [(js "choices",
         JArr [JObj [(js "message",
                      JObj [(js "role", JStr (js "assistant"));
                            (js "content", JStr (js s))])]])].

Definition errorBody : JsValue :=
  JObj [(js "error", JObj [(js "message", JStr (js "overloaded"))])].

(** The client after a completion that the provider answered with no
    choices, at time 1000. *)
Definition emptyCached : Machine :=
  final (chatCompletion newClient hello gpt4 None secret openai
           (worldAt 1000 (answering noChoices))).

(** Storage that holds valid JSON of another shape under the cache key. *)
Definition foreignStorage : LocalStorage :=
  {| items := [(js "ai-author-cache", jsq "{'a':1}")];
     readFails := false; writeFails := false |}.

Definition nullStorage : LocalStorage :=
  {| items := [(js "ai-author-cache", js "null")];
     readFails := false; writeFails := false |}.

Definition brokenStorage : LocalStorage :=
  {| items := []; readFails := true; writeFails := true |}.

Definition viaGpt4 : CompletionRequest :=
  {| messages := hello; model := gpt4; temperature := Some (Frac (js "0.7"));
     apiKey := secret; baseUrl := openai; stream := true |}.

Definition viaOther : CompletionRequest :=
  {| messages := hello; model := js "llama-3"; temperature := Some (Frac (js "0.7"));
     apiKey := js "or-2"; baseUrl := js "https://openrouter.ai/api/v1"; stream := false |}.

(** The message of [hello] as the object it is at run time: with its
    properties in the order of the callers' literal, and with content
    before role. *)
Definition roleFirst : JsValue :=
  JArr [JObj [(js "role", JStr (js "user")); (js "content", JStr (js "Hi"))]].

Definition contentFirst : JsValue :=
  JArr [JObj [(js "content", JStr (js "Hi")); (js "role", JStr (js "user"))]].

(** A data line whose delta has the empty content, as the first chunk of
    a provider has it, and JSON.parse knowing its text. *)
Definition jsonEmpty : jsstring := jsq "{'choices':[{'delta':{'content':''}}]}".

Definition emptyDelta : JsValue :=
  JObj [(js "choices", JArr [JObj [(js "delta", JObj [(js "content", JStr [])])]])].

Definition parseWithEmpty (s : jsstring) : option JsValue :=
  if jsstring_eqb s jsonEmpty then Some emptyDelta else sampleParse s.

Definition emptyThenHi : jsstring :=
  js "data: " ++ jsonEmpty ++ nl ++ nl ++ js "data: " ++ jsonHi ++ nl ++ nl
  ++ js "data: [DONE]" ++ nl ++ nl.

Definition streamEmptyFirst : BodyStream :=
  {| chunks := [emptyThenHi]; ending := EndOfStream |}.

(** * The rest of the class and its callers *)

(** ** clearCache, cancelCurrentRequest, isRequestInProgress *)

Fixpoint removeProp {A : Type} (k : jsstring) (l : list (jsstring * A))
  : list (jsstring * A) :=
  match l with
  | [] => []
  | (k', x) :: r =>
      if jsstring_eqb k' k then removeProp k r else (k', x) :: removeProp k r
  end.

(** [localStorage.removeItem(k)]: it fails where the storage is out of
    reach, as [getItem] does; a full storage does not hinder it. *)
Definition removeItem (ls : LocalStorage) (k : jsstring) : Completion LocalStorage :=
  if readFails ls
  then Throw {| name := js "SecurityError"; message := js "The operation is insecure." |}
  else Normal {| items := removeProp k (items ls);
                 readFails := readFails ls;
                 writeFails := writeFails ls |}.

(** [clearCache]: the table is emptied first; what [removeItem] throws is
    not caught and reaches the caller, with the table already empty. *)
Definition clearCache (m : Machine) : Machine * Completion unit :=
  let emptied := with_cache m [] in
  match removeItem (localStorage m) (cacheKey (this m)) with
  | Normal ls => ({| this := this emptied; localStorage := ls |}, Normal tt)
  | Throw e => (emptied, Throw e)
  end.

Definition isRequestInProgress (svc : APIService) : bool :=
  match currentController svc with
  | Some _ => true
  | None => false
  end.

(** [cancelCurrentRequest]: the controllers whose [abort()] is called, and
    the client without a controller. *)
Definition cancelCurrentRequest (m : Machine) : Machine * list AbortController :=
  match currentController (this m) with
  | Some controller => (with_controller m None, [controller])
  | None => (m, [])
  end.

(** ** fetchAvailableModels *)

(** [hay.includes(needle)] *)
Fixpoint includes (needle hay : jsstring) : bool :=
  startsWith needle hay
  || match hay with
     | [] => false
     | _ :: rest => includes needle rest
     end.

(** The request of the model list: a GET with the bearer token. *)
Inductive GetCall := EGet (url authorization : jsstring).

(** [data.data?.map((model: any) => model.id) || []]: an element that has
    no [id] gives undefined; [map] on an array is always truthy, so the
    empty list stands for an absent [data.data] alone. *)
Fixpoint idsOf (l : list JsValue) : Completion (list (option JsValue)) :=
  match l with
  | [] => Normal []
  | model :: rest =>
      match member (Some model) (js "id") with
      | Throw e => Throw e
      | Normal id =>
          match idsOf rest with
          | Throw e => Throw e
          | Normal ids => Normal (id :: ids)
          end
      end
  end.

Definition modelIds (data : JsValue) : Completion (list (option JsValue)) :=
  match member (Some data) (js "data") with
  | Throw e => Throw e
  | Normal None | Normal (Some JNull) => Normal []
  | Normal (Some (JArr l)) => idsOf l
  | Normal (Some _) => Throw (TypeError (js "data.data?.map is not a function"))
  end.

(** One branch of fetchAvailableModels: both branches are this code. *)
Definition modelsFrom (answer : Settled Response)
  : Completion (list (option JsValue)) :=
  match answer with
  | Rejected e => Throw e
  | Resolved response =>
      if negb (ok response) then
        match text response with
        | Resolved errorText => Throw (httpError response errorText)
        | Rejected e => Throw e
        end
      else
        match json response with
        | Rejected e => Throw e
        | Resolved data => modelIds data
        end
  end.

Definition modelsPrefix : jsstring := js "Failed to fetch available models: ".

Record ModelsRun := {
  models : Settled (list (option JsValue));
  requests : list GetCall
}.

Definition fetchAvailableModels (apiKey baseUrl : jsstring) (answer : Settled Response)
  : ModelsRun :=
  let call := EGet (baseUrl ++ js "/models") (js "Bearer " ++ apiKey) in
  let attempt :=
    if includes (js "openrouter.ai") baseUrl
    then modelsFrom answer       (* the OpenRouter branch *)
    else modelsFrom answer in    (* the standard branch *)
  {| models := match attempt with
               | Normal ids => Resolved ids
               | Throw error => Rejected (Error (modelsPrefix ++ Error_toString error))
               end;
     requests := [call] |}.

(** ** Streams given by their lines *)

(** The text of a stream whose complete lines are [lines], followed by
    [rest] without a line feed at its end. *)
Definition streamText (lines : list jsstring) (rest : jsstring) : jsstring :=
  concat (map (fun line => line ++ [10]) lines) ++ rest.

Definition noLineFeed (s : jsstring) : bool := forallb (fun c => negb (c =? 10)) s.

(** The events of a run that are network calls, and those that are writes
    of the storage. *)
Definition fetches (evs : list Event) : list Event := filter isFetch evs.
Definition writes (evs : list Event) : list Event := filter isSetItem evs.

(** ** The shapes of a run *)

(** The lookup of an atomic call does not serve: nothing fresh, or
    something falsy. *)
Definition notServed (m : Machine) (ms : list Message) (t : option JsNumber)
  (w : World) : Prop :=
  getCachedResponse (this m) ms t (lookupTime w) = None
  \/ exists cached, getCachedResponse (this m) ms t (lookupTime w) = Some cached
                    /\ truthy cached = false.

(** An atomic call that failed after its fetch with the error [e]. *)
Definition atomicFailure (m : Machine) (ms : list Message) (model : jsstring)
  (t : option JsNumber) (apiKey baseUrl : jsstring) (e : JsError) : Run JsValue :=
  {| outcome := Rejected (rethrow atomicPrefix e);
     final := with_controller m None;
     trace := [fetchCall model ms false t apiKey baseUrl] |}.

(** An atomic call that got [content] from the network. *)
Definition atomicSuccess (m : Machine) (ms : list Message) (model : jsstring)
  (t : option JsNumber) (apiKey baseUrl : jsstring) (w : World)
  (content : JsValue) : Run JsValue :=
  let stored := setCachedResponse (with_controller m (Some newAbortController))
                  ms t content (writeTime w) in
  {| outcome := Resolved content;
     final := with_controller (fst stored) None;
     trace := fetchCall model ms false t apiKey baseUrl :: snd stored |}.

(** A streamed call that failed with the error [e] after the chunk events
    [evs]. *)
Definition streamFailure (m : Machine) (ms : list Message) (model : jsstring)
  (t : option JsNumber) (apiKey baseUrl : jsstring) (e : JsError)
  (evs : list Event) : Run jsstring :=
  {| outcome := Rejected (rethrow streamPrefix e);
     final := with_controller m None;
     trace := fetchCall model ms true t apiKey baseUrl :: evs |}.

(** Whether a call was fulfilled. *)
Definition fulfilled {A : Type} (s : Settled A) : bool :=
  match s with
  | Resolved _ => true
  | Rejected _ => false
  end.

(** ** More sample data *)

Definition modelList : JsValue :=
  JObj [(js "data", JArr [JObj [(js "id", JStr (js "gpt-4"))];
                          JObj [(js "id", JStr (js "gpt-3.5-turbo"))]])].

Definition serverError : Response :=
  {| ok := false; status := 503;
     text := Resolved (js "overloaded");
     json := Rejected {| name := js "SyntaxError"; message := js "Unexpected token" |};
     body := None |}.

Definition offline : World :=
  {| lookupTime := 1000;
     fetched := Rejected (TypeError (js "Failed to fetch"));
     writeTime := 1000 |}.

(** The table a completion for [hello] with the answer "Hello" leaves, and
    JSON.parse knowing the text it is saved as. *)
Definition helloTable : PromptCache :=
  cache (this (fst (setCachedResponse newClient hello None (JStr (js "Hello")) 1000))).

Definition savedParse (s : jsstring) : option JsValue :=
  if jsstring_eqb s (JSON_stringify (PromptCache_value helloTable))
  then Some (PromptCache_value helloTable)
  else sampleParse s.

Definition fullStorage : LocalStorage :=
  {| items := []; readFails := false; writeFails := true |}.

Definition quotaClient : Machine :=
  {| this := instance [] (js "ai-author-cache"); localStorage := fullStorage |}.

(** A line that is neither a data line nor the sentinel for the loop: it
    lacks the prefix, or what follows the prefix is not the sentinel and
    JSON.parse throws on it. *)
Definition malformed (JSON_parse : jsstring -> option JsValue) (line : jsstring)
  : Prop :=
  startsWith (js "data: ") line = false
  \/ (jsstring_eqb (slice 6 line) (js "[DONE]") = false
      /\ JSON_parse (slice 6 line) = None).

Definition doneLine : jsstring := js "data: [DONE]".

Definition streamInOneRead : BodyStream :=
  {| chunks := [twoDeltasDone]; ending := EndOfStream |}.

(** The sample lines, a comment line of the event protocol, and a data
    line cut short. *)
Definition hiLine : jsstring := js "data: " ++ jsonHi.
Definition thereLine : jsstring := js "data: " ++ jsonThere.
Definition commentLine : jsstring := js ": keep-alive".
Definition brokenLine : jsstring := js "data: {".

Definition streamOfLines (lines : list jsstring) (rest : jsstring) (e : Ending)
  : BodyStream :=
  {| chunks := [streamText lines rest]; ending := e |}.

(** ** The callers in env.ts *)

(** What the callback of processStep and processChapter has gathered in
    its [fullContent] after the events [evs]: [fullContent += chunk] at
    each call. *)
Fixpoint noted (evs : list Event) : jsstring :=
  match evs with
  | [] => []
  | EOnChunk chunk :: rest => ToString chunk ++ noted rest
  | _ :: rest => noted rest
  end.

(** The streaming branch of processStep and of processChapter, for the
    mapped model and the current key: the generator is drained with the
    gathering callback; when it throws, the atomic call is made with the
    same arguments and its content taken instead. [ws] is the world of the
    streamed call, [wa] that of the atomic one. *)
Definition streamWithFallback (JSON_parse : jsstring -> option JsValue)
  (m : Machine) (ms : list Message) (model : jsstring) (t : option JsNumber)
  (apiKey baseUrl : jsstring) (ws wa : World) : Run JsValue :=
  let s := chatCompletionStream JSON_parse m ms model t apiKey baseUrl noting ws in
  match outcome s with
  | Resolved _ =>
      {| outcome := Resolved (JStr (noted (trace s)));
         final := final s;
         trace := trace s |}
  | Rejected _ =>
      let a := chatCompletion (final s) ms model t apiKey baseUrl wa in
      {| outcome := outcome a; final := final a; trace := trace s ++ trace a |}
  end.

(** ** Counting words *)

(** The code units of WhiteSpace and LineTerminator: what [\s] matches and
    what [trim] strips. *)
Definition isWhiteSpace (c : Z) : bool :=
  ((9 <=? c) && (c <=? 13)) || (c =? 32) || (c =? 160) || (c =? 5760)
  || ((8192 <=? c) && (c <=? 8202)) || (c =? 8232) || (c =? 8233)
  || (c =? 8239) || (c =? 8287) || (c =? 12288) || (c =? 65279).

Fixpoint trimStart (s : jsstring) : jsstring :=
  match s with
  | [] => []
  | c :: r => if isWhiteSpace c then trimStart r else s
  end.

Definition trimEnd (s : jsstring) : jsstring := rev (trimStart (rev s)).

(** [s.trim()] *)
Definition trim (s : jsstring) : jsstring := trimEnd (trimStart s).

(** Whether [s] starts with white space. *)
Definition startsBlank (s : jsstring) : bool :=
  match s with
  | [] => false
  | c :: _ => isWhiteSpace c
  end.

(** [s.split(/\s+/)]: the text is cut at each maximal run of white space;
    a run at the start or at the end leaves an empty field there, and
    [''.split(/\s+/)] is [['']]. *)
Fixpoint split_spaces (s : jsstring) : list jsstring :=
  match s with
  | [] => [[]]
  | c :: r =>
      if isWhiteSpace c
      then if startsBlank r then split_spaces r else [] :: split_spaces r
      else match split_spaces r with
           | field :: fields => (c :: field) :: fields
           | [] => [[c]]
           end
  end.

Definition nonEmpty (word : jsstring) : bool := (0 <? length word)%nat.

(** workflowUtils.ts, countWords. *)
Definition countWords (text : jsstring) : Z :=
  match text with
  | [] => 0
  | _ => Z.of_nat (length (split_spaces (trim text)))
  end.

(** env.ts, processChapter:
    [fullContent.split(/\s+/).filter(word => word.length > 0).length]. *)
Definition wordCount (fullContent : jsstring) : Z :=
  Z.of_nat (length (filter nonEmpty (split_spaces fullContent))).

Definition blank (s : jsstring) : bool := forallb isWhiteSpace s.

(** Whether the first field of the split is empty, and whether [s] ends
    with white space. *)
Definition headEmpty (s : jsstring) : bool :=
  match s with
  | [] => true
  | c :: _ => isWhiteSpace c
  end.

Fixpoint endsBlank (s : jsstring) : bool :=
  match s with
  | [] => false
  | c :: r => match r with
              | [] => isWhiteSpace c
              | _ :: _ => endsBlank r
              end
  end.

(** ** The environment (env.ts) *)

(** [process.env], where [process] is defined: the variables and their
    texts. *)
Definition Env := option (list (jsstring * jsstring)).

Module Provider.
Record t := { apiKey : jsstring; baseUrl : jsstring }.
End Provider.

Module Defaults.
Record t := {
  model : jsstring;
  baseUrl : jsstring;
  stream : bool;
  chapterWordTarget : JsNumber
}.
End Defaults.

Module EnvConfig.
Record t := {
  openai : Provider.t;
  deepseek : Provider.t;
  openrouter : Provider.t;
  defaults : Defaults.t;
  title : jsstring
}.
End EnvConfig.

Module StoryConfig.
Record t := {
  model : jsstring;
  temperature : option JsNumber;
  apiKey : jsstring;
  baseUrl : jsstring;
  stream : bool;
  chapterWordTarget : JsNumber
}.
End StoryConfig.

(** [process.env[key]] where it is truthy. *)
Definition envValue (env : Env) (key : jsstring) : option jsstring :=
  match env with
  | Some vars =>
      match lookup key vars with
      | Some (c :: v) => Some (c :: v)
      | _ => None
      end
  | None => None
  end.

Definition getEnvVar (env : Env) (key fallback : jsstring) : jsstring :=
  match envValue env key with
  | Some value => value
  | None => fallback
  end.

Definition getEnvBool (env : Env) (key : jsstring) (fallback : bool) : bool :=
  match envValue env key with
  | Some value => jsstring_eqb value (js "true") || jsstring_eqb value (js "1")
  | None => fallback
  end.

Section Environment.

(** [parseInt(value, 10)] *)
Variable parseInt10 : jsstring -> JsNumber.

Definition getEnvNumber (env : Env) (key : jsstring) (fallback : JsNumber)
  : JsNumber :=
  match envValue env key with
  | Some value =>
      match parseInt10 value with
      | NaN => fallback
      | parsed => parsed
      end
  | None => fallback
  end.

Definition loadEnvConfig (env : Env) : EnvConfig.t :=
  {| EnvConfig.openai :=
       {| Provider.apiKey := getEnvVar env (js "VITE_OPENAI_API_KEY") [];
          Provider.baseUrl :=
            getEnvVar env (js "VITE_OPENAI_BASE_URL") (js "https://api.openai.com/v1") |};
     EnvConfig.deepseek :=
       {| Provider.apiKey := getEnvVar env (js "VITE_DEEPSEEK_API_KEY") [];
          Provider.baseUrl :=
            getEnvVar env (js "VITE_DEEPSEEK_BASE_URL") (js "https://api.deepseek.com") |};
     EnvConfig.openrouter :=
       {| Provider.apiKey := getEnvVar env (js "VITE_OPENROUTER_API_KEY") [];
          Provider.baseUrl :=
            getEnvVar env (js "VITE_OPENROUTER_BASE_URL")
              (js "https://openrouter.ai/api/v1") |};
     EnvConfig.defaults :=
       {| Defaults.model :=
            getEnvVar env (js "VITE_DEFAULT_MODEL")
              (js "meta-llama/llama-3.3-70b-instruct:free");
          Defaults.baseUrl :=
            getEnvVar env (js "VITE_DEFAULT_BASE_URL") (js "https://openrouter.ai/api/v1");
          Defaults.stream := getEnvBool env (js "VITE_DEFAULT_STREAM") true;
          Defaults.chapterWordTarget :=
            getEnvNumber env (js "VITE_DEFAULT_CHAPTER_WORD_TARGET") (Int 3000) |};
     EnvConfig.title := getEnvVar env (js "VITE_APP_TITLE") (js "AI Author") |}.

(** The [switch]: the first provider whose URL is [baseUrl]. *)
Definition getApiKeyFromEnv (env : Env) (baseUrl : jsstring) : jsstring :=
  let config := loadEnvConfig env in
  if jsstring_eqb baseUrl (Provider.baseUrl (EnvConfig.openai config))
  then Provider.apiKey (EnvConfig.openai config)
  else if jsstring_eqb baseUrl (Provider.baseUrl (EnvConfig.deepseek config))
  then Provider.apiKey (EnvConfig.deepseek config)
  else if jsstring_eqb baseUrl (Provider.baseUrl (EnvConfig.openrouter config))
  then Provider.apiKey (EnvConfig.openrouter config)
  else [].

Definition nonEmptyText (s : jsstring) : bool :=
  match s with
  | [] => false
  | _ :: _ => true
  end.

Definition hasEnvApiKeys (env : Env) : bool :=
  let config := loadEnvConfig env in
  nonEmptyText (Provider.apiKey (EnvConfig.openai config))
  || nonEmptyText (Provider.apiKey (EnvConfig.deepseek config))
  || nonEmptyText (Provider.apiKey (EnvConfig.openrouter config)).

Definition getDefaultConfigFromEnv (env : Env) : StoryConfig.t :=
  let config := loadEnvConfig env in
  {| StoryConfig.model := Defaults.model (EnvConfig.defaults config);
     StoryConfig.temperature := None;
     StoryConfig.apiKey :=
       getApiKeyFromEnv env (Defaults.baseUrl (EnvConfig.defaults config));
     StoryConfig.baseUrl := Defaults.baseUrl (EnvConfig.defaults config);
     StoryConfig.stream := Defaults.stream (EnvConfig.defaults config);
     StoryConfig.chapterWordTarget :=
       Defaults.chapterWordTarget (EnvConfig.defaults config) |}.

End Environment.

(** The variables that name a URL. *)
Definition urlVariables : list jsstring :=
  [js "VITE_OPENAI_BASE_URL"; js "VITE_DEEPSEEK_BASE_URL";
   js "VITE_OPENROUTER_BASE_URL"; js "VITE_DEFAULT_BASE_URL"].

Definition keysOnly : Env :=
  Some [(js "VITE_OPENAI_API_KEY", js "sk-openai");
        (js "VITE_OPENROUTER_API_KEY", js "sk-or");
        (js "VITE_OPENAI_BASE_URL", [])].

(** DeepSeek reached through the URL of OpenAI: its key is shadowed. *)
Definition shadowed : Env :=
  Some [(js "VITE_DEEPSEEK_API_KEY", js "sk-deepseek");
        (js "VITE_DEEPSEEK_BASE_URL", js "https://api.openai.com/v1")].

(** parseInt on the texts the samples use. *)
Definition sampleParseInt (s : jsstring) : JsNumber :=
  if jsstring_eqb s (js "2500") then Int 2500 else NaN.

(** ** Facts about the key *)

Section KeyFacts.

Lemma ToInt32_eq (z : Z) : ToInt32 z = z - 2 ^ 32 * ((z + 2 ^ 31) / 2 ^ 32).
Proof. unfold ToInt32. rewrite Z.mod_eq by lia. lia. Qed.

Lemma ToInt32_range (z : Z) : - 2 ^ 31 <= ToInt32 z < 2 ^ 31.
Proof.
  unfold ToInt32.
  pose proof (Z.mod_pos_bound (z + 2 ^ 31) (2 ^ 32) ltac:(lia)). lia.
Qed.

Lemma ToInt32_odd (z : Z) : Z.odd (ToInt32 z) = Z.odd z.
Proof.
  rewrite ToInt32_eq, Z.odd_sub, Z.odd_mul.
  change (Z.odd (2 ^ 32)) with false. simpl. now rewrite xorb_false_r.
Qed.

Lemma odd_abs (z : Z) : Z.odd (Z.abs z) = Z.odd z.
Proof. destruct z as [|p|p]; try reflexivity; destruct p; reflexivity. Qed.

Lemma and32_diag (x : Z) : and32 x x = ToInt32 (ToInt32 x).
Proof. unfold and32. now rewrite Z.land_diag. Qed.

Lemma shl32_5_even (h : Z) : Z.odd (shl32 h 5) = false.
Proof.
  unfold shl32. rewrite ToInt32_odd, Z.shiftl_mul_pow2 by lia.
  rewrite Z.odd_mul. change (Z.odd (2 ^ 5)) with false. apply andb_false_r.
Qed.

Lemma hashStep_odd (h c : Z) : Z.odd (hashStep h c) = xorb (Z.odd h) (Z.odd c).
Proof.
  unfold hashStep. cbv zeta.
  rewrite and32_diag, !ToInt32_odd, Z.odd_add, Z.odd_sub, shl32_5_even.
  now destruct (Z.odd h), (Z.odd c).
Qed.

Lemma hashStep_range (h c : Z) : - 2 ^ 31 <= hashStep h c < 2 ^ 31.
Proof. unfold hashStep. cbv zeta. rewrite and32_diag. apply ToInt32_range. Qed.

(** Folding a step that keeps a property of the hash. *)
Section Folding.

Variable step : Z -> Z -> Z.

Lemma fold_odd (s : jsstring) :
  (forall h c, Z.odd (step h c) = xorb (Z.odd h) (Z.odd c)) ->
  forall (h : Z) (b : bool),
    Z.odd h = b ->
    Z.odd (fold_left step s h) = fold_left (fun b c => xorb b (Z.odd c)) s b.
Proof.
  intros Hstep. induction s as [|c s' IH]; intros h b Hb; cbn [fold_left].
  - exact Hb.
  - apply IH. now rewrite Hstep, Hb.
Qed.

Lemma fold_range (lo hi : Z) (s : jsstring) :
  (forall h c, lo <= step h c < hi) ->
  forall h : Z, lo <= h < hi -> lo <= fold_left step s h < hi.
Proof.
  intros Hstep. induction s as [|c s' IH]; intros h Hh; cbn [fold_left].
  - exact Hh.
  - apply IH, Hstep.
Qed.

End Folding.

Lemma fold_hashStep_odd (s : jsstring) (h : Z) (b : bool) :
  Z.odd h = b ->
  Z.odd (fold_left hashStep s h) = fold_left (fun b c => xorb b (Z.odd c)) s b.
Proof. apply fold_odd, hashStep_odd. Qed.

Lemma fold_hashStep_range (s : jsstring) (h : Z) :
  - 2 ^ 31 <= h < 2 ^ 31 -> - 2 ^ 31 <= fold_left hashStep s h < 2 ^ 31.
Proof. apply fold_range, hashStep_range. Qed.

Lemma hashString_range (s : jsstring) : - 2 ^ 31 <= hashString s < 2 ^ 31.
Proof. apply fold_hashStep_range. lia. Qed.

Lemma hashString_app (p t : jsstring) :
  hashString (p ++ t) = fold_left hashStep t (hashString p).
Proof. unfold hashString. apply fold_left_app. Qed.

Lemma fold_xor_odd (t : jsstring) (b : bool) :
  fold_left (fun b c => xorb b (Z.odd c)) t b = xorb b (oddSum t).
Proof.
  unfold oddSum. revert b. induction t as [|c t IH]; intros b; simpl.
  - now rewrite xorb_false_r.
  - rewrite IH, (IH (Z.odd c)). now rewrite xorb_assoc.
Qed.

(** The hash of [p ++ t] is odd exactly when the hash of [p] and the sum of
    [t] differ in parity: every turn multiplies by 31. *)
Lemma hashString_app_odd (p t : jsstring) :
  Z.odd (hashString (p ++ t)) = xorb (Z.odd (hashString p)) (oddSum t).
Proof.
  rewrite hashString_app, (fold_hashStep_odd t _ _ eq_refl).
  apply fold_xor_odd.
Qed.

(** *** Digits *)

Lemma digitValue_digitChar (d : Z) : 0 <= d < 36 -> digitValue (digitChar d) = d.
Proof.
  intros Hd. unfold digitValue, digitChar.
  destruct (d <? 10) eqn:E; [apply Z.ltb_lt in E | apply Z.ltb_ge in E].
  - destruct (48 + d <? 58) eqn:F; [lia | apply Z.ltb_ge in F; lia].
  - destruct (87 + d <? 58) eqn:F; [apply Z.ltb_lt in F; lia | lia].
Qed.

Lemma fromRadix_snoc (radix : Z) (s : jsstring) (c : Z) :
  fromRadix radix (s ++ [c]) = fromRadix radix s * radix + digitValue c.
Proof. unfold fromRadix. now rewrite fold_left_app. Qed.

Lemma fromRadix_toRadix (radix : Z) (fuel : nat) (n : Z) :
  2 <= radix <= 36 -> 0 <= n < 2 ^ Z.of_nat fuel ->
  fromRadix radix (toRadix fuel radix n) = n.
Proof.
  intros Hr. revert n. induction fuel as [|f IH]; intros n Hn.
  - simpl in Hn. assert (n = 0) as -> by lia. reflexivity.
  - cbn [toRadix]. destruct (n <? radix) eqn:E.
    + apply Z.ltb_lt in E. unfold fromRadix. simpl.
      rewrite digitValue_digitChar; lia.
    + apply Z.ltb_ge in E. rewrite fromRadix_snoc, IH.
      * rewrite digitValue_digitChar
          by (pose proof (Z.mod_pos_bound n radix); lia).
        rewrite (Z.div_mod n radix) at 3 by lia. lia.
      * rewrite Nat2Z.inj_succ, Z.pow_succ_r in Hn by lia.
        split; [apply Z.div_pos; lia|].
        apply Z.div_lt_upper_bound; [lia|]. nia.
Qed.

Lemma toRadix_length (fuel : nat) (radix n : Z) :
  (length (toRadix fuel radix n) <= fuel)%nat.
Proof.
  revert n. induction fuel as [|f IH]; intros n; cbn [toRadix]; [simpl; lia|].
  destruct (n <? radix); [simpl; lia|].
  rewrite length_app. simpl. specialize (IH (n / radix)). lia.
Qed.

Lemma bit_length_bound (n : Z) : 0 <= n -> n < 2 ^ Z.of_nat (S (Z.to_nat (Z.log2 n))).
Proof.
  intros Hn. rewrite Nat2Z.inj_succ, Z2Nat.id by apply Z.log2_nonneg.
  destruct (Z.eq_dec n 0) as [->|Hz]; [reflexivity|].
  apply Z.log2_spec. lia.
Qed.

(** [toString] of a non-negative integer reads back as that integer: the
    fuel is enough, and two such texts are equal only for equal numbers. *)
Lemma fromRadix_Integer_toString (radix n : Z) :
  2 <= radix <= 36 -> 0 <= n -> fromRadix radix (Integer_toString n radix) = n.
Proof.
  intros Hr Hn. unfold Integer_toString. cbv zeta.
  destruct (n <? 0) eqn:E; [apply Z.ltb_lt in E; lia|].
  rewrite Z.abs_eq by lia. apply fromRadix_toRadix; [exact Hr|].
  split; [exact Hn | now apply bit_length_bound].
Qed.

Lemma Integer_toString_inj (radix a b : Z) :
  2 <= radix <= 36 -> 0 <= a -> 0 <= b ->
  Integer_toString a radix = Integer_toString b radix -> a = b.
Proof.
  intros Hr Ha Hb E.
  rewrite <- (fromRadix_Integer_toString radix a), <- (fromRadix_Integer_toString radix b)
    by assumption.
  now rewrite E.
Qed.

Lemma Integer_toString_length (n radix : Z) :
  0 <= n <= 2 ^ 31 -> (length (Integer_toString n radix) <= 32)%nat.
Proof.
  intros Hn. unfold Integer_toString. cbv zeta.
  destruct (n <? 0) eqn:E; [apply Z.ltb_lt in E; lia|].
  rewrite Z.abs_eq by lia.
  etransitivity; [apply toRadix_length|].
  assert (Z.log2 n <= 31).
  { destruct (Z.eq_dec n 0) as [->|Hz]; [simpl; lia|].
    change 31 with (Z.log2 (2 ^ 31)). apply Z.log2_le_mono. lia. }
  pose proof (Z.log2_nonneg n). lia.
Qed.

(** Two keys are equal exactly when the hashes agree up to sign; cutting at
    32 characters removes nothing. *)
Lemma key_of_hash_inj (h1 h2 : Z) :
  - 2 ^ 31 <= h1 < 2 ^ 31 -> - 2 ^ 31 <= h2 < 2 ^ 31 ->
  substring0 32 (Integer_toString (Z.abs h1) 36)
  = substring0 32 (Integer_toString (Z.abs h2) 36) ->
  Z.abs h1 = Z.abs h2.
Proof.
  intros H1 H2 E. unfold substring0 in E.
  rewrite !firstn_all2 in E by (apply Integer_toString_length; lia).
  apply (Integer_toString_inj 36); lia || exact E.
Qed.

Lemma generateCacheKey_inj_hash (ms1 ms2 : list Message) (t1 t2 : option JsNumber) :
  generateCacheKey ms1 t1 = generateCacheKey ms2 t2 ->
  Z.abs (hashString (JSON_stringify (cachePayload ms1 t1)))
  = Z.abs (hashString (JSON_stringify (cachePayload ms2 t2))).
Proof. apply key_of_hash_inj; apply hashString_range. Qed.

End KeyFacts.

(** ** The key as a function of its arguments *)

Section Fingerprint.

Lemma cachePayload_text (ms : list Message) (t : option JsNumber) :
  JSON_stringify (cachePayload ms t)
  = payloadPrefix ms ++ JSON_stringify (temperature_or_null t) ++ js "}".
Proof.
  unfold cachePayload, payloadPrefix. cbn [JSON_stringify].
  rewrite <- !app_assoc. reflexivity.
Qed.

Lemma key_differs_by_parity (ms : list Message) (t1 t2 : option JsNumber) :
  oddSum (JSON_stringify (temperature_or_null t1) ++ js "}")
  <> oddSum (JSON_stringify (temperature_or_null t2) ++ js "}") ->
  generateCacheKey ms t1 <> generateCacheKey ms t2.
Proof.
  intros Hpar E. apply generateCacheKey_inj_hash in E.
  apply Hpar.
  assert (P : Z.odd (Z.abs (hashString (JSON_stringify (cachePayload ms t1))))
              = Z.odd (Z.abs (hashString (JSON_stringify (cachePayload ms t2)))))
    by now rewrite E.
  rewrite !odd_abs, !cachePayload_text, !hashString_app_odd in P.
  destruct (Z.odd (hashString (payloadPrefix ms))),
    (oddSum (JSON_stringify (temperature_or_null t1) ++ js "}")),
    (oddSum (JSON_stringify (temperature_or_null t2) ++ js "}"));
    simpl in P; congruence.
Qed.

Lemma Integer_toString_is (z : Z) (s : jsstring) :
  Integer_toString z 10 = s ->
  (z < 0 /\ exists d, s = 45 :: d) \/ (0 <= z /\ z = fromRadix 10 s).
Proof.
  intros H. destruct (Z.ltb_spec z 0) as [Hneg|Hpos].
  - left. split; [exact Hneg|].
    unfold Integer_toString in H. cbv zeta in H.
    destruct (z <? 0) eqn:E; [|apply Z.ltb_ge in E; lia].
    eexists. symmetry. exact H.
  - right. split; [exact Hpos|].
    rewrite <- H. symmetry. apply fromRadix_Integer_toString; lia.
Qed.

Lemma number_text_not_null (n : JsNumber) :
  wellFormed n = true -> JSON_stringify (JNum n) = js "null" -> isFinite n = false.
Proof.
  intros Hwf H. destruct n as [z|t| |neg]; try reflexivity; cbn in H.
  - exfalso. destruct (Integer_toString_is _ _ H) as [[_ [d Hd]]|[_ Hz]].
    + discriminate Hd.
    + vm_compute in Hz. subst z. vm_compute in H. discriminate H.
  - exfalso. subst t. vm_compute in Hwf. discriminate Hwf.
Qed.

Lemma number_text_not_zero (n : JsNumber) :
  wellFormed n = true -> JSON_stringify (JNum n) = js "0" -> n = Int 0.
Proof.
  intros Hwf H. destruct n as [z|t| |neg]; cbn in H.
  - destruct (Integer_toString_is _ _ H) as [[_ [d Hd]]|[_ Hz]].
    + discriminate Hd.
    + vm_compute in Hz. now subst z.
  - subst t. vm_compute in Hwf. discriminate Hwf.
  - discriminate H.
  - destruct neg; discriminate H.
Qed.

Lemma cachePayload_text_inj (ms : list Message) (t1 t2 : option JsNumber) :
  JSON_stringify (cachePayload ms t1) = JSON_stringify (cachePayload ms t2) ->
  JSON_stringify (temperature_or_null t1) = JSON_stringify (temperature_or_null t2).
Proof.
  rewrite !cachePayload_text. intros E.
  apply app_inv_head in E. now apply app_inv_tail in E.
Qed.

Lemma digitChar_keyChar (d : Z) : 0 <= d < 36 -> keyChar (digitChar d) = true.
Proof.
  intros Hd. unfold keyChar, isDigit, digitChar.
  destruct (Z.ltb_spec d 10).
  - replace (48 <=? 48 + d) with true by (symmetry; apply Z.leb_le; lia).
    replace (48 + d <=? 57) with true by (symmetry; apply Z.leb_le; lia).
    reflexivity.
  - replace (97 <=? 87 + d) with true by (symmetry; apply Z.leb_le; lia).
    replace (87 + d <=? 122) with true by (symmetry; apply Z.leb_le; lia).
    apply orb_true_r.
Qed.

Lemma toRadix_keyChars (fuel : nat) (radix n : Z) :
  2 <= radix <= 36 -> 0 <= n -> forallb keyChar (toRadix fuel radix n) = true.
Proof.
  intros Hr. revert n. induction fuel as [|f IH]; intros n Hn; [reflexivity|].
  cbn [toRadix]. destruct (Z.ltb_spec n radix).
  - cbn [forallb]. rewrite digitChar_keyChar by lia. reflexivity.
  - rewrite forallb_app, IH by (apply Z.div_pos; lia). cbn [forallb].
    rewrite digitChar_keyChar by (pose proof (Z.mod_pos_bound n radix); lia).
    reflexivity.
Qed.

(** A key is made of digits and lower-case letters and reads, in base 36,
    as a number of at most [2^31]. No member that a table inherits from
    Object.prototype has such a name ([constructor], the one in lower
    case, reads as a larger number), so [this.cache[key]] only ever
    finds an entry of the table. *)
Lemma generateCacheKey_own_property (ms : list Message) (t : option JsNumber) :
  forallb keyChar (generateCacheKey ms t) = true
  /\ fromRadix 36 (generateCacheKey ms t) <= 2 ^ 31
  /\ generateCacheKey ms t <> js "constructor".
Proof.
  unfold generateCacheKey. cbv zeta.
  set (h := hashString (JSON_stringify (cachePayload ms t))).
  pose proof (hashString_range (JSON_stringify (cachePayload ms t))) as Hh.
  fold h in Hh. clearbody h.
  assert (E : substring0 32 (Integer_toString (Z.abs h) 36)
              = Integer_toString (Z.abs h) 36).
  { unfold substring0. apply firstn_all2, Integer_toString_length. lia. }
  assert (V : fromRadix 36 (Integer_toString (Z.abs h) 36) = Z.abs h)
    by (apply fromRadix_Integer_toString; lia).
  rewrite E. split; [|split].
  - unfold Integer_toString. cbv zeta.
    destruct (Z.ltb_spec (Z.abs h) 0); [lia|].
    apply toRadix_keyChars; lia.
  - rewrite V. lia.
  - intros C. rewrite C in V.
    assert (2 ^ 31 < fromRadix 36 (js "constructor")) by (vm_compute; reflexivity).
    lia.
Qed.

Example key_of_hello :
  generateCacheKey hello None = js "7bi95s"
  /\ generateCacheKey hello (Some (Int 0)) = js "jh6zyb".
Proof. vm_compute. split; reflexivity. Qed.

End Fingerprint.

(** C4, as the code has it. For every message list the key with the
    temperature absent differs from the key with temperature 0. Any other
    finite temperature puts a different text into the hashed payload than
    both; nothing more is said of its 32-bit key. *)
Theorem absent_zero_keys_differ (ms : list Message) (n : JsNumber) :
  isFinite n = true -> wellFormed n = true -> n <> Int 0 ->
  generateCacheKey ms None <> generateCacheKey ms (Some (Int 0))
  /\ JSON_stringify (cachePayload ms (Some n)) <> JSON_stringify (cachePayload ms None)
  /\ JSON_stringify (cachePayload ms (Some n))
     <> JSON_stringify (cachePayload ms (Some (Int 0))).
Proof.
  intros Hfin Hwf Hn. repeat split.
  - apply key_differs_by_parity. vm_compute. discriminate.
  - intros E. apply cachePayload_text_inj in E.
    apply number_text_not_null in E; [congruence | exact Hwf].
  - intros E. apply cachePayload_text_inj in E.
    apply number_text_not_zero in E; [contradiction | exact Hwf].
Qed.

Lemma absent_zero_keys_differ_witness :
  generateCacheKey hello None <> generateCacheKey hello (Some (Int 0))
  /\ JSON_stringify (cachePayload hello (Some (Frac (js "0.7"))))
     <> JSON_stringify (cachePayload hello None)
  /\ JSON_stringify (cachePayload hello (Some (Frac (js "0.7"))))
     <> JSON_stringify (cachePayload hello (Some (Int 0))).
Proof.
  apply (absent_zero_keys_differ hello (Frac (js "0.7")));
    [reflexivity | reflexivity | discriminate].
Defined.

(** NaN and the infinities are written as [null] by JSON.stringify: such
    a temperature has the key of the absent one, for every message list. *)
Example nan_has_the_key_of_absent (ms : list Message) :
  generateCacheKey ms (Some NaN) = generateCacheKey ms None.
Proof. unfold generateCacheKey. now rewrite !cachePayload_text. Qed.

(** C4 as stated fails: for the one message "pqhrcjd" the key with the
    temperature absent is the key with temperature 1. *)
Lemma absent_and_one_share_a_key :
  Some (Int 1) <> Some (Int 0)
  /\ generateCacheKey colliding None = generateCacheKey colliding (Some (Int 1)).
Proof. split; [discriminate | vm_compute; reflexivity]. Qed.

(** ** Lines and reads *)

Section Lines.

Lemma split_nl_nonempty (s : jsstring) : split_nl s <> [].
Proof.
  destruct s as [|c r]; simpl; [discriminate|].
  destruct (c =? 10); [discriminate|].
  destruct (split_nl r); discriminate.
Qed.

Lemma split_nl_cons (c : Z) (r : jsstring) :
  (c =? 10) = false ->
  split_nl (c :: r)
  = (c :: hd [] (split_nl r)) :: tl (split_nl r).
Proof.
  intros E. simpl. rewrite E.
  pose proof (split_nl_nonempty r) as Hne.
  destruct (split_nl r); [contradiction | reflexivity].
Qed.

(** Splitting a text that arrives in two parts: the lines completed by the
    first part, then the split of the held-back rest with the second. *)
Lemma split_nl_app (a b : jsstring) :
  split_nl (a ++ b)
  = removelast (split_nl a) ++ split_nl (last (split_nl a) [] ++ b).
Proof.
  induction a as [|c a IH].
  - reflexivity.
  - pose proof (split_nl_nonempty a) as Hne.
    destruct (c =? 10) eqn:E.
    + cbn [app split_nl]. rewrite E, IH.
      destruct (split_nl a) as [|l0 ls]; [contradiction | reflexivity].
    + rewrite <- app_comm_cons, !split_nl_cons, IH by exact E.
      destruct (split_nl a) as [|l0 [|l1 ls]]; [contradiction | |].
      * cbn [removelast last hd tl app].
        rewrite split_nl_cons by exact E. reflexivity.
      * reflexivity.
Qed.

Lemma last_app_nonempty {A : Type} (l l' : list A) (d : A) :
  l' <> [] -> last (l ++ l') d = last l' d.
Proof.
  intros Hne. induction l as [|x l IH]; [reflexivity|].
  cbn [app last]. rewrite IH.
  destruct (l ++ l') eqn:E; [|reflexivity].
  apply app_eq_nil in E. destruct E as [_ E]. contradiction.
Qed.

Lemma completeLines_app (a b : jsstring) :
  completeLines (a ++ b) = completeLines a ++ completeLines (pending a ++ b).
Proof.
  unfold completeLines, pending. rewrite split_nl_app.
  apply removelast_app, split_nl_nonempty.
Qed.

Lemma pending_app (a b : jsstring) : pending (a ++ b) = pending (pending a ++ b).
Proof.
  unfold pending. rewrite split_nl_app.
  apply last_app_nonempty, split_nl_nonempty.
Qed.

(** No piece of a split holds a line feed. *)
Lemma split_nl_pieces (s : jsstring) : Forall (fun l => split_nl l = [l]) (split_nl s).
Proof.
  induction s as [|c r IH].
  - repeat constructor.
  - destruct (c =? 10) eqn:E.
    + simpl. rewrite E. constructor; [reflexivity | exact IH].
    + rewrite split_nl_cons by exact E.
      pose proof (split_nl_nonempty r) as Hne.
      destruct (split_nl r) as [|l0 ls]; [contradiction|].
      inversion IH as [|? ? H0 Hls]; subst. cbn [hd tl].
      constructor; [|exact Hls].
      rewrite split_nl_cons, H0 by exact E. reflexivity.
Qed.

Lemma split_nl_pending (s : jsstring) : split_nl (pending s) = [pending s].
Proof.
  unfold pending.
  pose proof (split_nl_pieces s) as H. pose proof (split_nl_nonempty s) as Hne.
  rewrite Forall_forall in H. apply H.
  destruct (split_nl s) as [|l0 ls]; [contradiction|].
  rewrite (app_removelast_last [] (l := l0 :: ls)) at 2 by discriminate.
  apply in_or_app. right. now left.
Qed.

Lemma completeLines_pending (s : jsstring) : completeLines (pending s) = [].
Proof. unfold completeLines. now rewrite split_nl_pending. Qed.

Lemma pending_pending (s : jsstring) : pending (pending s) = pending s.
Proof. unfold pending at 1. now rewrite split_nl_pending. Qed.

End Lines.

(** ** The loop of chatCompletionStream *)

Section Decoder.

Variable JSON_parse : jsstring -> option JsValue.

Lemma chunkEvents_app (onChunk : Callback) (a b : list JsValue) :
  chunkEvents onChunk (a ++ b) = chunkEvents onChunk a ++ chunkEvents onChunk b.
Proof. apply flat_map_app. Qed.

Lemma accumulated_app (a b : list JsValue) :
  accumulated (a ++ b) = accumulated a ++ accumulated b.
Proof. unfold accumulated. now rewrite map_app, concat_app. Qed.

Lemma hasSentinel_app (a b : list jsstring) :
  hasSentinel JSON_parse (a ++ b)
  = hasSentinel JSON_parse a || hasSentinel JSON_parse b.
Proof. apply existsb_app. Qed.

Lemma decodedDeltas_app (a b : list jsstring) :
  decodedDeltas JSON_parse (a ++ b)
  = if hasSentinel JSON_parse a then decodedDeltas JSON_parse a
    else decodedDeltas JSON_parse a ++ decodedDeltas JSON_parse b.
Proof.
  induction a as [|l a IH]; [reflexivity|].
  change (hasSentinel JSON_parse (l :: a))
    with (isSentinel JSON_parse l || hasSentinel JSON_parse a).
  cbn [app decodedDeltas]. unfold isSentinel.
  destruct (decodeLine JSON_parse l); cbn [orb].
  - reflexivity.
  - rewrite IH. now destruct (hasSentinel JSON_parse a).
  - exact IH.
Qed.

(** The [for] loop does, for the lines it is given, what the deltas of
    those lines say. *)
Lemma forLines_spec (onChunk : Callback) (lines : list jsstring) (full : jsstring) :
  forLines JSON_parse onChunk lines full
  = (hasSentinel JSON_parse lines,
     full ++ accumulated (decodedDeltas JSON_parse lines),
     chunkEvents onChunk (decodedDeltas JSON_parse lines)).
Proof.
  revert full. induction lines as [|l lines IH]; intros full.
  - cbn. now rewrite app_nil_r.
  - change (hasSentinel JSON_parse (l :: lines))
      with (isSentinel JSON_parse l || hasSentinel JSON_parse lines).
    cbn [forLines decodedDeltas]. unfold isSentinel.
    destruct (decodeLine JSON_parse l) as [|content|]; cbn [orb].
    + cbn. now rewrite app_nil_r.
    + rewrite IH. unfold accumulated, chunkEvents.
      cbn [map concat flat_map]. rewrite <- !app_assoc. reflexivity.
    + apply IH.
Qed.

(** The [while] loop does, whatever the cuts between the reads, what the
    deltas of the whole text say. *)
Lemma whileRead_spec (onChunk : Callback) (reads : list jsstring) (ending : Ending)
  (buffer full : jsstring) :
  completeLines buffer = [] ->
  let lines := completeLines (buffer ++ concat reads) in
  whileRead JSON_parse onChunk reads ending buffer full
  = (exitOf (hasSentinel JSON_parse lines) ending
       (full ++ accumulated (decodedDeltas JSON_parse lines)),
     chunkEvents onChunk (decodedDeltas JSON_parse lines)).
Proof.
  revert buffer full. induction reads as [|value rest IH]; intros buffer full Hbuf lines.
  - subst lines. cbn [concat whileRead]. rewrite app_nil_r, Hbuf. cbn.
    rewrite app_nil_r. now destruct ending.
  - subst lines. cbn [concat whileRead]. cbv zeta.
    rewrite app_assoc, completeLines_app.
    fold (completeLines (buffer ++ value)). fold (pending (buffer ++ value)).
    rewrite forLines_spec, hasSentinel_app, decodedDeltas_app.
    destruct (hasSentinel JSON_parse (completeLines (buffer ++ value))) eqn:S.
    + reflexivity.
    + rewrite IH by apply completeLines_pending. cbv zeta. cbn [orb].
      rewrite accumulated_app, chunkEvents_app, app_assoc. reflexivity.
Qed.

End Decoder.

(** ** The table *)

Section TableFacts.

Lemma jsstring_eqb_refl (s : jsstring) : jsstring_eqb s s = true.
Proof. induction s as [|c s IH]; [reflexivity|]. simpl. now rewrite Z.eqb_refl. Qed.

Lemma jsstring_eqb_eq (a b : jsstring) : jsstring_eqb a b = true <-> a = b.
Proof.
  split; [|intros ->; apply jsstring_eqb_refl].
  revert b. induction a as [|x a IH]; intros [|y b] H; try discriminate H.
  - reflexivity.
  - simpl in H. apply andb_true_iff in H. destruct H as [Hx Hr].
    apply Z.eqb_eq in Hx. subst. f_equal. now apply IH.
Qed.

Context {A : Type}.

Lemma lookup_replaceProp (k : jsstring) (v : A) (l : list (jsstring * A)) :
  hasProp k l = true -> lookup k (replaceProp k v l) = Some v.
Proof.
  unfold hasProp. induction l as [|[k' x] r IH]; [discriminate|].
  cbn [lookup replaceProp]. destruct (jsstring_eqb k' k) eqn:E.
  - intros _. cbn [lookup]. now rewrite E.
  - intros H. cbn [lookup]. rewrite E. now apply IH.
Qed.

Lemma lookup_insertIndex (i : Z) (k : jsstring) (v : A) (l : list (jsstring * A)) :
  lookup k l = None -> lookup k (insertIndex i k v l) = Some v.
Proof.
  induction l as [|[k' x] r IH]; intros H.
  - cbn. now rewrite jsstring_eqb_refl.
  - cbn [lookup] in H. destruct (jsstring_eqb k' k) eqn:E; [discriminate|].
    cbn [insertIndex].
    destruct (parseIndex k') as [j|]; [destruct (j <? i)|].
    + cbn [lookup]. rewrite E. now apply IH.
    + cbn [lookup]. now rewrite jsstring_eqb_refl.
    + cbn [lookup]. now rewrite jsstring_eqb_refl.
Qed.

Lemma lookup_app_new (k : jsstring) (v : A) (l : list (jsstring * A)) :
  lookup k l = None -> lookup k (l ++ [(k, v)]) = Some v.
Proof.
  induction l as [|[k' x] r IH]; intros H.
  - cbn. now rewrite jsstring_eqb_refl.
  - cbn [lookup app] in *. destruct (jsstring_eqb k' k); [discriminate|]. now apply IH.
Qed.

Lemma lookup_replaceProp_other (k k' : jsstring) (v : A) (l : list (jsstring * A)) :
  jsstring_eqb k k' = false -> lookup k' (replaceProp k v l) = lookup k' l.
Proof.
  intros N. induction l as [|[k0 x] r IH]; [reflexivity|].
  cbn [replaceProp lookup]. destruct (jsstring_eqb k0 k) eqn:E.
  - apply jsstring_eqb_eq in E. subst k0. cbn [lookup]. now rewrite N.
  - cbn [lookup]. now rewrite IH.
Qed.

Lemma lookup_insertIndex_other (i : Z) (k k' : jsstring) (v : A)
  (l : list (jsstring * A)) :
  jsstring_eqb k k' = false -> lookup k' (insertIndex i k v l) = lookup k' l.
Proof.
  intros N. induction l as [|[k0 x] r IH].
  - cbn. now rewrite N.
  - cbn [insertIndex].
    destruct (parseIndex k0) as [j|]; [destruct (j <? i)|].
    + cbn [lookup]. now rewrite IH.
    + cbn [lookup]. now rewrite N.
    + cbn [lookup]. now rewrite N.
Qed.

Lemma lookup_app_other (k k' : jsstring) (v : A) (l : list (jsstring * A)) :
  jsstring_eqb k k' = false -> lookup k' (l ++ [(k, v)]) = lookup k' l.
Proof.
  intros N. induction l as [|[k0 x] r IH].
  - cbn. now rewrite N.
  - cbn [app lookup]. now rewrite IH.
Qed.

(** [obj[k] = v] leaves the other properties as they are. *)
Lemma lookup_setProp_other (k k' : jsstring) (v : A) (l : list (jsstring * A)) :
  k <> k' -> lookup k' (setProp k v l) = lookup k' l.
Proof.
  intros Hne.
  assert (N : jsstring_eqb k k' = false).
  { destruct (jsstring_eqb k k') eqn:E; [|reflexivity].
    now apply jsstring_eqb_eq in E. }
  unfold setProp. destruct (hasProp k l).
  - now apply lookup_replaceProp_other.
  - destruct (parseIndex k);
      [now apply lookup_insertIndex_other | now apply lookup_app_other].
Qed.

(** After [obj[k] = v], [obj[k]] is [v]. *)
Lemma lookup_setProp (k : jsstring) (v : A) (l : list (jsstring * A)) :
  lookup k (setProp k v l) = Some v.
Proof.
  unfold setProp. destruct (hasProp k l) eqn:H.
  - now apply lookup_replaceProp.
  - assert (N : lookup k l = None).
    { unfold hasProp in H. destruct (lookup k l); [discriminate | reflexivity]. }
    destruct (parseIndex k); [now apply lookup_insertIndex | now apply lookup_app_new].
Qed.

End TableFacts.

Section Writes.

Variables (m : Machine) (ms : list Message) (t : option JsNumber)
          (c : JsValue) (now : Z).

Let written := setProp (generateCacheKey ms t) (entryOf c now) (cache (this m)).

Lemma setCachedResponse_this :
  this (fst (setCachedResponse m ms t c now))
  = {| cache := written; cacheKey := cacheKey (this m);
       currentController := currentController (this m) |}.
Proof.
  unfold setCachedResponse, saveCache. cbv zeta.
  destruct (setItem _ _ _); reflexivity.
Qed.

Lemma setCachedResponse_events :
  snd (setCachedResponse m ms t c now)
  = [ESetItem (cacheKey (this m)) (JSON_stringify (PromptCache_value written))].
Proof.
  unfold setCachedResponse, saveCache. cbv zeta.
  destruct (setItem _ _ _); reflexivity.
Qed.

Lemma setCachedResponse_lookup :
  lookup (generateCacheKey ms t) (cache (this (fst (setCachedResponse m ms t c now))))
  = Some (entryOf c now).
Proof. rewrite setCachedResponse_this. apply lookup_setProp. Qed.

End Writes.

(** ** Runs of chatCompletionStream on a readable 2xx response *)

Section StreamRuns.

Variable JSON_parse : jsstring -> option JsValue.
Variables (m : Machine) (ms : list Message) (model : jsstring)
          (t : option JsNumber) (apiKey baseUrl : jsstring) (onChunk : Callback)
          (w : World) (response : Response) (stream : BodyStream).

Hypothesis Hfetch : fetched w = Resolved response.
Hypothesis Hok : ok response = true.
Hypothesis Hbody : body response = Some stream.

Let r := chatCompletionStream JSON_parse m ms model t apiKey baseUrl onChunk w.
Let lines := completeLines (concat (chunks stream)).
Let deltas := streamDeltas JSON_parse stream.
Let call := fetchCall model ms true t apiKey baseUrl.
Let stored :=
  setCachedResponse (with_controller m (Some newAbortController)) ms t
    (JStr (accumulated deltas)) (writeTime w).

Lemma stream_loop :
  whileRead JSON_parse onChunk (chunks stream) (ending stream) [] []
  = (exitOf (hasSentinel JSON_parse lines) (ending stream) (accumulated deltas),
     chunkEvents onChunk deltas).
Proof. now rewrite whileRead_spec. Qed.

Lemma stream_run_sentinel :
  hasSentinel JSON_parse lines = true ->
  r = {| outcome := Resolved (accumulated deltas);
         final := with_controller (fst stored) None;
         trace := call :: chunkEvents onChunk deltas ++ snd stored ++ [EReleaseLock] |}.
Proof.
  intros S. unfold r, chatCompletionStream. cbv zeta.
  rewrite Hfetch, Hok, Hbody. cbn [negb]. rewrite stream_loop, S. cbn [exitOf].
  fold stored. now destruct stored.
Qed.

Lemma stream_run_done :
  hasSentinel JSON_parse lines = false -> ending stream = EndOfStream ->
  r = {| outcome := Resolved (accumulated deltas);
         final := with_controller (fst stored) None;
         trace := call :: chunkEvents onChunk deltas ++ [EReleaseLock] ++ snd stored |}.
Proof.
  intros S E. unfold r, chatCompletionStream. cbv zeta.
  rewrite Hfetch, Hok, Hbody. cbn [negb]. rewrite stream_loop, S, E. cbn [exitOf].
  fold stored. now destruct stored.
Qed.

Lemma stream_run_failed (e : JsError) :
  hasSentinel JSON_parse lines = false -> ending stream = ReadFails e ->
  r = {| outcome := Rejected (rethrow streamPrefix e);
         final := with_controller m None;
         trace := call :: chunkEvents onChunk deltas ++ [EReleaseLock] |}.
Proof.
  intros S E. unfold r, chatCompletionStream. cbv zeta.
  rewrite Hfetch, Hok, Hbody. cbn [negb]. rewrite stream_loop, S, E. reflexivity.
Qed.

End StreamRuns.

(** ** The streamed completion and the cache *)

Section StreamAndCache.

Variable JSON_parse : jsstring -> option JsValue.

Lemma chunkEvents_no_write (onChunk : Callback) (ds : list JsValue) :
  existsb isSetItem (chunkEvents onChunk ds) = false.
Proof.
  induction ds as [|d ds IH]; [reflexivity|].
  unfold chunkEvents in *. cbn [flat_map]. rewrite existsb_app, IH.
  unfold deliver. destruct onChunk as [callback|]; [destruct (callback d)|];
    reflexivity.
Qed.

Lemma chunkEvents_no_fetch (onChunk : Callback) (ds : list JsValue) :
  existsb isFetch (chunkEvents onChunk ds) = false.
Proof.
  induction ds as [|d ds IH]; [reflexivity|].
  unfold chunkEvents in *. cbn [flat_map]. rewrite existsb_app, IH.
  unfold deliver. destruct onChunk as [callback|]; [destruct (callback d)|];
    reflexivity.
Qed.

Lemma chunkEvents_filter (onChunk : Callback) (ds : list JsValue) :
  filter isChunkEvent (chunkEvents onChunk ds) = chunkEvents onChunk ds.
Proof.
  induction ds as [|d ds IH]; [reflexivity|].
  unfold chunkEvents in *. cbn [flat_map]. rewrite filter_app, IH.
  unfold deliver. destruct onChunk as [callback|]; [destruct (callback d)|];
    reflexivity.
Qed.

(** With a callback that returns, each delta is handed to it and then
    yielded; without a callback it is yielded. *)
Lemma chunkEvents_returning (onChunk : Callback) (ds : list JsValue) :
  returnsNormally onChunk ->
  chunkEvents onChunk ds
  = flat_map (fun c => match onChunk with
                       | Some _ => [EOnChunk c; EYield c]
                       | None => [EYield c]
                       end) ds.
Proof.
  intros Hret. unfold chunkEvents.
  induction ds as [|d ds IH]; [reflexivity|].
  cbn [flat_map]. rewrite IH. unfold deliver.
  destruct onChunk as [callback|]; [|reflexivity].
  now rewrite (Hret callback d eq_refl).
Qed.

End StreamAndCache.

(** Names the write of a run and what is known of it. *)
Ltac name_write :=
  match goal with
  | |- context [setCachedResponse ?a ?b ?c ?d ?e] =>
      let Hthis := fresh "Hthis" in
      let Hevs := fresh "Hevs" in
      pose proof (setCachedResponse_this a b c d e) as Hthis;
      pose proof (setCachedResponse_events a b c d e) as Hevs;
      destruct (setCachedResponse a b c d e) as [? ?];
      cbn [fst snd] in Hthis, Hevs
  end.

(** The cases of a streamed run: sentinel met, stream ended, read failed,
    no body, HTTP error with and without its text, fetch rejected. *)
Ltac stream_cases w :=
  unfold chatCompletionStream; cbv zeta;
  let response := fresh "response" in
  let stream := fresh "stream" in
  destruct (fetched w) as [response|];
  [ destruct (ok response); cbn [negb];
    [ destruct (body response) as [stream|];
      [ rewrite whileRead_spec by reflexivity; cbv zeta;
        destruct (hasSentinel _ _);
        [ | destruct (ending stream) ]; cbn [exitOf]
      | ]
    | destruct (text response) ]
  | ].

(** C6. chatCompletionStream looks nothing up: whatever the cache holds,
    its first act is the network call and its outcome is the same; the
    cache is written in a successful run only, after the last chunk. *)
Theorem stream_fetches_first_and_writes_last
  (JSON_parse : jsstring -> option JsValue) (m : Machine) (ms : list Message)
  (model : jsstring) (t : option JsNumber) (apiKey baseUrl : jsstring)
  (onChunk : Callback) (w : World) :
  let r := chatCompletionStream JSON_parse m ms model t apiKey baseUrl onChunk w in
  let call := fetchCall model ms true t apiKey baseUrl in
  hd_error (trace r) = Some call
  /\ (forall c' : PromptCache,
        outcome (chatCompletionStream JSON_parse (with_cache m c') ms model t
                   apiKey baseUrl onChunk w)
        = outcome r)
  /\ match outcome r with
     | Resolved full =>
         cache (this (final r))
         = setProp (generateCacheKey ms t) (entryOf (JStr full) (writeTime w))
             (cache (this m))
         /\ exists evs tail,
              trace r = call :: evs ++ tail
              /\ existsb isSetItem evs = false
              /\ existsb isChunkEvent tail = false
              /\ existsb isSetItem tail = true
     | Rejected _ =>
         cache (this (final r)) = cache (this m)
         /\ localStorage (final r) = localStorage m
         /\ existsb isSetItem (trace r) = false
     end.
Proof.
  intros r call. subst r call. split; [|split].
  - stream_cases w; try reflexivity; now name_write.
  - intros c'. stream_cases w; try reflexivity; now repeat name_write.
  - stream_cases w; try (repeat split; reflexivity).
    + name_write. cbn [outcome final trace]. split.
      * cbn [with_controller this cache]. now rewrite Hthis.
      * eexists (chunkEvents onChunk _), _. split; [reflexivity|].
        rewrite chunkEvents_no_write, Hevs. repeat split.
    + name_write. cbn [outcome final trace]. split.
      * cbn [with_controller this cache]. now rewrite Hthis.
      * eexists (chunkEvents onChunk _), _. split; [reflexivity|].
        rewrite chunkEvents_no_write, Hevs. repeat split.
    + cbn [outcome final trace]. repeat split.
      cbn [existsb isSetItem orb]. rewrite existsb_app, chunkEvents_no_write.
      reflexivity.
Qed.

(** A streamed answer of one second ago is in the cache: the atomic call
    returns it without the network, the streamed call fetches again. *)
Example stream_fetches_despite_fresh_entry :
  let m := final (chatCompletionStream sampleParse newClient hello gpt4 None secret
                    openai noting (worldAt 1000 (streaming streamDone))) in
  let w := worldAt 2000 (streaming streamDone) in
  getCachedResponse (this m) hello None 2000 = Some (JStr (js "Hi there"))
  /\ trace (chatCompletion m hello gpt4 None secret openai w) = []
  /\ hd_error (trace (chatCompletionStream sampleParse m hello gpt4 None secret
                        openai noting w))
     = Some (fetchCall gpt4 hello true None secret openai).
Proof. vm_compute. repeat split. Qed.

Lemma rethrow_abort (prefix : jsstring) (e : JsError) :
  name e = js "AbortError" -> rethrow prefix e = cancelled.
Proof. intros H. unfold rethrow. now rewrite H. Qed.

Lemma rethrow_other (e : JsError) :
  name e <> js "AbortError" -> rethrow streamPrefix e <> cancelled.
Proof.
  intros H E. unfold rethrow in E.
  destruct (jsstring_eqb (name e) (js "AbortError")) eqn:N.
  - now apply jsstring_eqb_eq in N.
  - unfold cancelled, Error, streamPrefix in E. injection E as E.
    vm_compute in E. discriminate E.
Qed.

(** C7. When a read of the stream fails with an AbortError before any
    sentinel line, chatCompletionStream is rejected with 'Request was
    cancelled', which no other failure produces, and neither the table
    nor the storage is touched. *)
Theorem cancelled_stream_leaves_cache
  (JSON_parse : jsstring -> option JsValue) (m : Machine) (ms : list Message)
  (model : jsstring) (t : option JsNumber) (apiKey baseUrl : jsstring)
  (onChunk : Callback) (w : World) (response : Response) (stream : BodyStream)
  (e : JsError) :
  fetched w = Resolved response -> ok response = true ->
  body response = Some stream ->
  ending stream = ReadFails e -> name e = js "AbortError" ->
  hasSentinel JSON_parse (completeLines (concat (chunks stream))) = false ->
  let r := chatCompletionStream JSON_parse m ms model t apiKey baseUrl onChunk w in
  outcome r = Rejected cancelled
  /\ (forall e', name e' <> js "AbortError" -> rethrow streamPrefix e' <> cancelled)
  /\ cache (this (final r)) = cache (this m)
  /\ localStorage (final r) = localStorage m
  /\ lookup (generateCacheKey ms t) (cache (this (final r)))
     = lookup (generateCacheKey ms t) (cache (this m))
  /\ existsb isSetItem (trace r) = false.
Proof.
  intros Hfetch Hok Hbody Hend Hname Hno r. subst r.
  rewrite (stream_run_failed JSON_parse m ms model t apiKey baseUrl onChunk w
             response stream Hfetch Hok Hbody e Hno Hend).
  cbn [outcome final trace]. repeat split.
  - now rewrite rethrow_abort.
  - exact rethrow_other.
  - cbn [existsb isSetItem orb]. rewrite existsb_app, chunkEvents_no_write.
    reflexivity.
Qed.

Lemma cancelled_stream_leaves_cache_witness :
  let r := chatCompletionStream sampleParse newClient hello (js "gpt-4") None
             (js "sk-1") (js "https://api.openai.com/v1") noting
             (worldAt 1000 (streaming streamAborted)) in
  outcome r = Rejected cancelled
  /\ (forall e', name e' <> js "AbortError" -> rethrow streamPrefix e' <> cancelled)
  /\ cache (this (final r)) = cache (this newClient)
  /\ localStorage (final r) = localStorage newClient
  /\ lookup (generateCacheKey hello None) (cache (this (final r)))
     = lookup (generateCacheKey hello None) (cache (this newClient))
  /\ existsb isSetItem (trace r) = false.
Proof.
  apply (cancelled_stream_leaves_cache sampleParse newClient hello (js "gpt-4") None
           (js "sk-1") (js "https://api.openai.com/v1") noting
           (worldAt 1000 (streaming streamAborted)) (streaming streamAborted)
           streamAborted abortError); reflexivity.
Defined.

(** Only a truthy content makes a delta. *)
Lemma deltaContent_truthy (JSON_parse : jsstring -> option JsValue)
  (data : jsstring) (content : JsValue) :
  deltaContent JSON_parse data = Some content -> truthy content = true.
Proof.
  unfold deltaContent. destruct (JSON_parse data) as [parsed|]; [|discriminate].
  destruct (member _ _) as [choices|]; [|discriminate].
  destruct (optMember _ _) as [c|]; [|discriminate].
  destruct (truthy c) eqn:T; [|discriminate]. now intros [= <-].
Qed.

Lemma decodedDeltas_truthy (JSON_parse : jsstring -> option JsValue)
  (lines : list jsstring) :
  Forall (fun c => truthy c = true) (decodedDeltas JSON_parse lines).
Proof.
  induction lines as [|line rest IH]; [constructor|].
  cbn [decodedDeltas]. unfold decodeLine.
  destruct (startsWith _ _); [|exact IH].
  destruct (jsstring_eqb _ _); [constructor|].
  destruct (deltaContent JSON_parse (slice 6 line)) as [content|] eqn:D; [|exact IH].
  constructor; [exact (deltaContent_truthy _ _ _ D)|exact IH].
Qed.

(** C8. On a readable 2xx response and with a callback that returns, the
    chunk events of the run are, for each content delta of the stream in
    order, the call of the callback (when one was passed) and then the
    yield; the loop leaves with the deltas appended in that order, and
    that is the text returned. The deltas are the contents that are
    truthy: a data line with an empty content is passed over. *)
Theorem deltas_called_back_yielded_appended
  (JSON_parse : jsstring -> option JsValue) (m : Machine) (ms : list Message)
  (model : jsstring) (t : option JsNumber) (apiKey baseUrl : jsstring)
  (onChunk : Callback) (w : World) (response : Response) (stream : BodyStream) :
  fetched w = Resolved response -> ok response = true ->
  body response = Some stream ->
  returnsNormally onChunk ->
  let r := chatCompletionStream JSON_parse m ms model t apiKey baseUrl onChunk w in
  let deltas := streamDeltas JSON_parse stream in
  filter isChunkEvent (trace r)
  = flat_map (fun c => match onChunk with
                       | Some _ => [EOnChunk c; EYield c]
                       | None => [EYield c]
                       end) deltas
  /\ fst (whileRead JSON_parse onChunk (chunks stream) (ending stream) [] [])
     = exitOf (hasSentinel JSON_parse (completeLines (concat (chunks stream))))
         (ending stream) (concat (map ToString deltas))
  /\ (forall full, outcome r = Resolved full -> full = concat (map ToString deltas))
  /\ Forall (fun c => truthy c = true) deltas.
Proof.
  intros Hfetch Hok Hbody Hret r deltas. subst r deltas.
  rewrite <- (chunkEvents_returning onChunk _ Hret).
  fold (accumulated (streamDeltas JSON_parse stream)).
  split; [|split; [|split]]; [| | |apply decodedDeltas_truthy].
  - destruct (hasSentinel JSON_parse (completeLines (concat (chunks stream)))) eqn:S;
      [|destruct (ending stream) as [|e] eqn:E].
    + rewrite (stream_run_sentinel JSON_parse m ms model t apiKey baseUrl onChunk w
                 response stream Hfetch Hok Hbody S).
      cbn [trace filter isChunkEvent isFetch]. rewrite filter_app, chunkEvents_filter.
      rewrite setCachedResponse_events. cbn. now rewrite app_nil_r.
    + rewrite (stream_run_done JSON_parse m ms model t apiKey baseUrl onChunk w
                 response stream Hfetch Hok Hbody S E).
      cbn [trace filter isChunkEvent isFetch]. rewrite filter_app, chunkEvents_filter.
      rewrite setCachedResponse_events. cbn. now rewrite app_nil_r.
    + rewrite (stream_run_failed JSON_parse m ms model t apiKey baseUrl onChunk w
                 response stream Hfetch Hok Hbody e S E).
      cbn [trace filter isChunkEvent isFetch]. rewrite filter_app, chunkEvents_filter.
      cbn. now rewrite app_nil_r.
  - now rewrite stream_loop.
  - intros full.
    destruct (hasSentinel JSON_parse (completeLines (concat (chunks stream)))) eqn:S;
      [|destruct (ending stream) as [|e] eqn:E].
    + rewrite (stream_run_sentinel JSON_parse m ms model t apiKey baseUrl onChunk w
                 response stream Hfetch Hok Hbody S).
      cbn [outcome]. congruence.
    + rewrite (stream_run_done JSON_parse m ms model t apiKey baseUrl onChunk w
                 response stream Hfetch Hok Hbody S E).
      cbn [outcome]. congruence.
    + rewrite (stream_run_failed JSON_parse m ms model t apiKey baseUrl onChunk w
                 response stream Hfetch Hok Hbody e S E).
      cbn [outcome]. discriminate.
Qed.

Lemma noting_returns : returnsNormally noting.
Proof. intros callback c [= <-]. reflexivity. Qed.

Lemma deltas_called_back_yielded_appended_witness :
  let r := chatCompletionStream sampleParse newClient hello (js "gpt-4") None
             (js "sk-1") (js "https://api.openai.com/v1") noting
             (worldAt 1000 (streaming streamDone)) in
  let deltas := streamDeltas sampleParse streamDone in
  filter isChunkEvent (trace r)
  = flat_map (fun c => [EOnChunk c; EYield c]) deltas
  /\ fst (whileRead sampleParse noting (chunks streamDone) (ending streamDone) [] [])
     = exitOf (hasSentinel sampleParse (completeLines (concat (chunks streamDone))))
         (ending streamDone) (concat (map ToString deltas))
  /\ (forall full, outcome r = Resolved full -> full = concat (map ToString deltas))
  /\ Forall (fun c => truthy c = true) deltas.
Proof.
  apply (deltas_called_back_yielded_appended sampleParse newClient hello (js "gpt-4")
           None (js "sk-1") (js "https://api.openai.com/v1") noting
           (worldAt 1000 (streaming streamDone)) (streaming streamDone) streamDone);
    try reflexivity.
  exact noting_returns.
Defined.

(** A delta that is decoded and not delivered: the data line carries the
    content '' (the text parses, and the content is there), and the run
    has neither a callback nor a yield for it; the events are those of the
    delta that follows. *)
Lemma empty_delta_is_not_delivered :
  let r := chatCompletionStream parseWithEmpty newClient hello gpt4 None secret openai
             noting (worldAt 1000 (streaming streamEmptyFirst)) in
  hd_error (completeLines emptyThenHi) = Some (js "data: " ++ jsonEmpty)
  /\ parseWithEmpty jsonEmpty = Some emptyDelta
  /\ optMember (optMember (optMember (Get emptyDelta (js "choices")) (js "0"))
                 (js "delta")) (js "content") = Some (JStr [])
  /\ filter isChunkEvent (trace r)
     = [EOnChunk (JStr (js "Hi")); EYield (JStr (js "Hi"))]
  /\ outcome r = Resolved (js "Hi").
Proof. vm_compute. repeat split. Qed.

(** What a callback that throws does to the run: the [catch] meant for
    lines that are not JSON takes the error, the delta is not yielded, and
    the text is accumulated and cached all the same. *)
Example throwing_callback_is_swallowed :
  let r := chatCompletionStream sampleParse newClient hello gpt4 None secret openai
             throwing (worldAt 1000 (streaming streamDone)) in
  filter isChunkEvent (trace r)
  = [EOnChunk (JStr (js "Hi")); EOnChunk (JStr (js " there"))]
  /\ outcome r = Resolved (js "Hi there").
Proof. vm_compute. split; reflexivity. Qed.

(** The example of the specification: two reads that cut a line give the
    chunks "Hi" and " there" and the text "Hi there". *)
Example decoder_example :
  let r := chatCompletionStream sampleParse newClient hello (js "gpt-4") None
             (js "sk-1") (js "https://api.openai.com/v1") noting
             (worldAt 1000 (streaming streamDone)) in
  filter isChunkEvent (trace r)
  = [EOnChunk (JStr (js "Hi")); EYield (JStr (js "Hi"));
     EOnChunk (JStr (js " there")); EYield (JStr (js " there"))]
  /\ outcome r = Resolved (js "Hi there").
Proof. split; reflexivity. Qed.

(** C10. When the reader reports the end of the stream and no sentinel
    line was met, chatCompletionStream returns the accumulated text and
    writes it under the key of the request, and a stream with the same
    deltas that ends by the sentinel gives the same outcome and state. *)
Theorem stream_end_without_sentinel
  (JSON_parse : jsstring -> option JsValue) (m : Machine) (ms : list Message)
  (model : jsstring) (t : option JsNumber) (apiKey baseUrl : jsstring)
  (onChunk : Callback) (w : World) (response : Response) (stream : BodyStream) :
  fetched w = Resolved response -> ok response = true ->
  body response = Some stream ->
  ending stream = EndOfStream ->
  hasSentinel JSON_parse (completeLines (concat (chunks stream))) = false ->
  let r := chatCompletionStream JSON_parse m ms model t apiKey baseUrl onChunk w in
  let full := concat (map ToString (streamDeltas JSON_parse stream)) in
  outcome r = Resolved full
  /\ cache (this (final r))
     = setProp (generateCacheKey ms t) (entryOf (JStr full) (writeTime w))
         (cache (this m))
  /\ lookup (generateCacheKey ms t) (cache (this (final r)))
     = Some (entryOf (JStr full) (writeTime w))
  /\ existsb isSetItem (trace r) = true
  /\ forall (w2 : World) (response2 : Response) (stream2 : BodyStream),
       fetched w2 = Resolved response2 -> ok response2 = true ->
       body response2 = Some stream2 -> writeTime w2 = writeTime w ->
       hasSentinel JSON_parse (completeLines (concat (chunks stream2))) = true ->
       streamDeltas JSON_parse stream2 = streamDeltas JSON_parse stream ->
       let r2 := chatCompletionStream JSON_parse m ms model t apiKey baseUrl
                   onChunk w2 in
       outcome r2 = outcome r /\ final r2 = final r.
Proof.
  intros Hfetch Hok Hbody Hend Hno r full. subst r full.
  fold (accumulated (streamDeltas JSON_parse stream)).
  rewrite (stream_run_done JSON_parse m ms model t apiKey baseUrl onChunk w
             response stream Hfetch Hok Hbody Hno Hend).
  cbn [outcome final trace]. split; [reflexivity|].
  split; [|split; [|split]].
  - cbn [with_controller this cache]. now rewrite setCachedResponse_this.
  - cbn [with_controller this cache]. apply setCachedResponse_lookup.
  - cbn [existsb isSetItem orb]. rewrite existsb_app, chunkEvents_no_write.
    rewrite setCachedResponse_events. reflexivity.
  - intros w2 response2 stream2 Hfetch2 Hok2 Hbody2 Htime Hdone Hsame.
    rewrite (stream_run_sentinel JSON_parse m ms model t apiKey baseUrl onChunk w2
               response2 stream2 Hfetch2 Hok2 Hbody2 Hdone).
    cbn [outcome final]. now rewrite Hsame, Htime.
Qed.

Lemma stream_end_without_sentinel_witness :
  let r := chatCompletionStream sampleParse newClient hello (js "gpt-4") None
             (js "sk-1") (js "https://api.openai.com/v1") noting
             (worldAt 1000 (streaming streamEnded)) in
  let full := concat (map ToString (streamDeltas sampleParse streamEnded)) in
  outcome r = Resolved full
  /\ cache (this (final r))
     = setProp (generateCacheKey hello None) (entryOf (JStr full) 1000)
         (cache (this newClient))
  /\ lookup (generateCacheKey hello None) (cache (this (final r)))
     = Some (entryOf (JStr full) 1000)
  /\ existsb isSetItem (trace r) = true
  /\ forall (w2 : World) (response2 : Response) (stream2 : BodyStream),
       fetched w2 = Resolved response2 -> ok response2 = true ->
       body response2 = Some stream2 -> writeTime w2 = 1000 ->
       hasSentinel sampleParse (completeLines (concat (chunks stream2))) = true ->
       streamDeltas sampleParse stream2 = streamDeltas sampleParse streamEnded ->
       let r2 := chatCompletionStream sampleParse newClient hello (js "gpt-4") None
                   (js "sk-1") (js "https://api.openai.com/v1") noting w2 in
       outcome r2 = outcome r /\ final r2 = final r.
Proof.
  apply (stream_end_without_sentinel sampleParse newClient hello (js "gpt-4") None
           (js "sk-1") (js "https://api.openai.com/v1") noting
           (worldAt 1000 (streaming streamEnded)) (streaming streamEnded) streamEnded);
    reflexivity.
Defined.

(** The sample stream with the sentinel meets the last premises of C10. *)
Example sentinel_stream_same_deltas :
  hasSentinel sampleParse (completeLines (concat (chunks streamDone))) = true
  /\ streamDeltas sampleParse streamDone = streamDeltas sampleParse streamEnded
  /\ outcome (chatCompletionStream sampleParse newClient hello (js "gpt-4") None
                (js "sk-1") (js "https://api.openai.com/v1") noting
                (worldAt 1000 (streaming streamEnded)))
     = Resolved (js "Hi there").
Proof. repeat split. Qed.

(** ** The atomic completion *)

Section Atomic.

Variables (m : Machine) (ms : list Message) (model : jsstring)
          (t : option JsNumber) (apiKey baseUrl : jsstring) (w : World).

Let r := chatCompletion m ms model t apiKey baseUrl w.
Let key := generateCacheKey ms t.

(** A newClient entry with truthy content is returned; nothing else happens. *)
Lemma chatCompletion_hit (entry : CacheEntry.t) :
  lookup key (cache (this m)) = Some entry ->
  lookupTime w - CacheEntry.timestamp entry < DAY ->
  truthy (CacheEntry.content entry) = true ->
  r = {| outcome := Resolved (CacheEntry.content entry); final := m; trace := [] |}.
Proof.
  intros Hl Hf Ht. unfold r, chatCompletion, getCachedResponse. cbv zeta.
  fold key. rewrite Hl.
  destruct (Z.ltb_spec (lookupTime w - CacheEntry.timestamp entry) DAY); [|lia].
  now rewrite Ht.
Qed.

(** Without an entry, or with one of 24 hours or more, the network is
    called, and a successful answer replaces the entry. *)
Lemma chatCompletion_miss (response : Response) (data content : JsValue) :
  (lookup key (cache (this m)) = None
   \/ exists entry, lookup key (cache (this m)) = Some entry
                    /\ DAY <= lookupTime w - CacheEntry.timestamp entry) ->
  fetched w = Resolved response -> ok response = true ->
  json response = Resolved data -> firstChoiceContent data = Normal content ->
  outcome r = Resolved content
  /\ hd_error (trace r) = Some (fetchCall model ms false t apiKey baseUrl)
  /\ cache (this (final r))
     = setProp key (entryOf content (writeTime w)) (cache (this m))
  /\ lookup key (cache (this (final r))) = Some (entryOf content (writeTime w)).
Proof.
  intros Hmiss Hfetch Hok Hjson Hc.
  assert (G : getCachedResponse (this m) ms t (lookupTime w) = None).
  { unfold getCachedResponse. cbv zeta. fold key.
    destruct Hmiss as [->|[entry [-> Hold]]]; [reflexivity|].
    destruct (Z.ltb_spec (lookupTime w - CacheEntry.timestamp entry) DAY); [lia|].
    reflexivity. }
  unfold r, chatCompletion. cbv zeta. rewrite G, Hfetch, Hok, Hjson, Hc. cbn [negb].
  name_write. cbn [outcome final trace hd_error with_controller this cache].
  rewrite Hthis. cbn [cache with_controller this]. repeat split.
  apply lookup_setProp.
Qed.

End Atomic.

(** The extraction [data.choices[0]?.message?.content || '']. *)

Lemma member_Get (v : JsValue) (k : jsstring) (x : JsValue) :
  Get v k = Some x -> member (Some v) k = Normal (Some x).
Proof. destruct v; try discriminate; cbn [member]; now intros ->. Qed.

Lemma optMember_Get (v : JsValue) (k : jsstring) (x : JsValue) :
  Get v k = Some x -> optMember (Some v) k = Some x.
Proof. destruct v; try discriminate; cbn [optMember]; now intros ->. Qed.

Lemma firstChoiceContent_zero_choices (data : JsValue) :
  Get data (js "choices") = Some (JArr []) ->
  firstChoiceContent data = Normal (JStr []).
Proof.
  intros H. unfold firstChoiceContent. now rewrite (member_Get _ _ _ H).
Qed.

Lemma firstChoiceContent_content (data first msg c : JsValue) (rest : list JsValue) :
  Get data (js "choices") = Some (JArr (first :: rest)) ->
  Get first (js "message") = Some msg -> Get msg (js "content") = Some c ->
  firstChoiceContent data = Normal (if truthy c then c else JStr []).
Proof.
  intros H Hm Hc. unfold firstChoiceContent. rewrite (member_Get _ _ _ H).
  change (member (Some (JArr (first :: rest))) (js "0")) with (Normal (Some first)).
  cbv beta iota.
  now rewrite (optMember_Get _ _ _ Hm), (optMember_Get _ _ _ Hc).
Qed.

Lemma firstChoiceContent_without_choices (data : JsValue) :
  Get data (js "choices") = None ->
  exists e, firstChoiceContent data = Throw e /\ name e = js "TypeError".
Proof.
  intros H. unfold firstChoiceContent, member.
  destruct data; try rewrite H; eexists; split; reflexivity.
Qed.

(** C1, where the code departs from it. An entry of less than 24 hours
    whose content is the empty string, left by a completion that got no
    choices, is not returned: the next call for the same request goes to
    the network and writes the cache again. *)
Theorem fresh_empty_entry_is_refetched :
  let w := worldAt 2000 (answering (answerOf "Hello")) in
  let r := chatCompletion emptyCached hello gpt4 None secret openai w in
  getCachedResponse (this emptyCached) hello None 2000 = Some (JStr [])
  /\ lookup (generateCacheKey hello None) (cache (this emptyCached))
     = Some (entryOf (JStr []) 1000)
  /\ outcome r = Resolved (JStr (js "Hello"))
  /\ existsb isFetch (trace r) = true
  /\ existsb isSetItem (trace r) = true
  /\ lookup (generateCacheKey hello None) (cache (this (final r)))
     = Some (entryOf (JStr (js "Hello")) 2000).
Proof. vm_compute. repeat split. Qed.

(** C2, where the code departs from it. A 2xx body without [choices] does
    not give the empty string: reading [choices[0]] throws, and the call
    is rejected as a failed request; nothing is cached. *)
Theorem body_without_choices_is_rejected :
  let r := chatCompletion newClient hello gpt4 None secret openai
             (worldAt 1000 (answering errorBody)) in
  outcome r
  = Rejected (Error (js "API request failed: TypeError: Cannot read properties of undefined (reading '0')"))
  /\ cache (this (final r)) = [].
Proof. vm_compute. split; reflexivity. Qed.

(** What C2 says of a body with no choices, and of one with an answer,
    holds. *)
Example zero_choices_give_empty_string :
  outcome (chatCompletion newClient hello gpt4 None secret openai
             (worldAt 1000 (answering noChoices)))
  = Resolved (JStr [])
  /\ outcome (chatCompletion newClient hello gpt4 None secret openai
                (worldAt 1000 (answering (answerOf "Hello"))))
     = Resolved (JStr (js "Hello")).
Proof. split; reflexivity. Qed.

(** ** What the key of a request depends on *)



Lemma stream_result_cached (JSON_parse : jsstring -> option JsValue) (m : Machine)
  (ms : list Message) (model : jsstring) (t : option JsNumber)
  (apiKey baseUrl : jsstring) (onChunk : Callback) (w : World) (full : jsstring) :
  outcome (chatCompletionStream JSON_parse m ms model t apiKey baseUrl onChunk w)
  = Resolved full ->
  lookup (generateCacheKey ms t)
    (cache (this (final (chatCompletionStream JSON_parse m ms model t apiKey baseUrl
                           onChunk w))))
  = Some (entryOf (JStr full) (writeTime w)).
Proof.
  stream_cases w; try discriminate.
  - name_write. cbn [outcome final]. intros [= <-].
    cbn [with_controller this cache]. rewrite Hthis. apply lookup_setProp.
  - name_write. cbn [outcome final]. intros [= <-].
    cbn [with_controller this cache]. rewrite Hthis. apply lookup_setProp.
Qed.



(** A streamed answer is served to a later atomic call for another model
    at another provider. *)
Example streamed_answer_reused_across_providers :
  let s := perform sampleParse newClient viaGpt4 noting (worldAt 1000 (streaming streamDone)) in
  let a := perform sampleParse (final s) viaOther None
             (worldAt 5000 (answering (answerOf "Hello"))) in
  outcome s = Resolved (JStr (js "Hi there"))
  /\ outcome a = Resolved (JStr (js "Hi there"))
  /\ trace a = [].
Proof. vm_compute. repeat split. Qed.

(** ** Loading the persisted cache *)

Lemma getCacheSize_table (t : PromptCache) :
  getCacheSize (PromptCache_value t) = Normal (Z.of_nat (length t)).
Proof. unfold getCacheSize, PromptCache_value. cbn. now rewrite !length_map. Qed.

(** C9, as the code has it. When reading the storage throws, or the
    stored text is not JSON, the constructor leaves the empty table:
    getCacheSize gives 0 and the cache is the one of a client over empty
    storage. *)
Theorem failed_load_gives_empty_cache
  (JSON_parse : jsstring -> option JsValue) (ls : LocalStorage) (cacheKey : jsstring) :
  (readFails ls = true
   \/ exists stored, lookup cacheKey (items ls) = Some stored
                     /\ JSON_parse stored = None) ->
  loadCache JSON_parse ls cacheKey = Table []
  /\ getCacheSize (LoadedCache_value (loadCache JSON_parse ls cacheKey)) = Normal 0
  /\ loadCache JSON_parse ls cacheKey = loadCache JSON_parse emptyStorage cacheKey.
Proof.
  intros H.
  assert (E : loadCache JSON_parse ls cacheKey = Table []).
  { unfold loadCache, getItem. destruct H as [-> | [stored [Hs Hp]]]; [reflexivity|].
    destruct (readFails ls); [reflexivity|]. rewrite Hs.
    destruct stored; [reflexivity|]. now rewrite Hp. }
  rewrite E. repeat split.
Qed.

Lemma failed_load_gives_empty_cache_witness :
  loadCache sampleParse brokenStorage (js "ai-author-cache") = Table []
  /\ getCacheSize (LoadedCache_value
                     (loadCache sampleParse brokenStorage (js "ai-author-cache")))
     = Normal 0
  /\ loadCache sampleParse brokenStorage (js "ai-author-cache")
     = loadCache sampleParse emptyStorage (js "ai-author-cache").
Proof.
  apply (failed_load_gives_empty_cache sampleParse brokenStorage (js "ai-author-cache")).
  left. reflexivity.
Defined.

(** C9 as stated fails: the stored text [{"a":1}] is JSON of another
    shape; it becomes the cache as it is, and getCacheSize gives 1. *)
Lemma foreign_blob_is_kept :
  lookup (js "ai-author-cache") (items foreignStorage) = Some (jsq "{'a':1}")
  /\ loadCache sampleParse foreignStorage (js "ai-author-cache")
     = NotATable (JObj [(js "a", JNum (Int 1))])
  /\ getCacheSize (LoadedCache_value
                     (loadCache sampleParse foreignStorage (js "ai-author-cache")))
     = Normal 1.
Proof. repeat split. Qed.

(** The stored text [null] makes getCacheSize throw. *)
Example null_blob_breaks_getCacheSize :
  exists e,
    getCacheSize (LoadedCache_value
                    (loadCache sampleParse nullStorage (js "ai-author-cache")))
    = Throw e
    /\ name e = js "TypeError".
Proof. eexists. split; reflexivity. Qed.

(** A table written by the class loads as that table. *)
Lemma asPromptCache_table (t : PromptCache) :
  asPromptCache (PromptCache_value t) = Table t.
Proof.
  unfold asPromptCache, PromptCache_value.
  assert (E : asEntries (map (fun kv => (fst kv, CacheEntry_value (snd kv))) t) = Some t).
  { induction t as [|[k [c ts]] t IH]; [reflexivity|].
    cbn [map asEntries fst snd]. rewrite IH. reflexivity. }
  now rewrite E.
Qed.

(** ** The key of messages that are equal by value *)

Section EqualValues.

Lemma JsNumber_eqb_eq (x y : JsNumber) : JsNumber_eqb x y = true -> x = y.
Proof.
  destruct x as [a|s| |n], y as [b|s'| |n']; cbn [JsNumber_eqb]; try discriminate.
  - intros H. apply Z.eqb_eq in H. now subst.
  - intros H. apply jsstring_eqb_eq in H. now subst.
  - reflexivity.
  - intros H. apply Bool.eqb_prop in H. now subst.
Qed.

Lemma temperatureEqual_eq (t1 t2 : option JsNumber) :
  temperatureEqual t1 t2 = true -> t1 = t2.
Proof.
  destruct t1 as [x|], t2 as [y|]; cbn [temperatureEqual]; try discriminate.
  - intros H. now rewrite (JsNumber_eqb_eq x y H).
  - reflexivity.
Qed.

Lemma distinct_head (k k2 : jsstring) (r : list jsstring) :
  distinct (k :: r) = true -> In k2 r -> jsstring_eqb k k2 = false.
Proof.
  cbn [distinct]. intros H I. apply andb_true_iff in H. destruct H as [H _].
  apply negb_true_iff in H.
  destruct (jsstring_eqb k k2) eqn:E; [|reflexivity].
  rewrite <- H. symmetry. apply existsb_exists. now exists k2.
Qed.

(** The elements of two arrays, position by position. *)
Lemma elements_eq (l : list JsValue) :
  Forall (fun a => distinctKeys a = true ->
                   forall b, deepEqual a b = true -> sameOrder a b = true -> a = b) l ->
  forallb distinctKeys l = true ->
  forall l', deepEqual (JArr l) (JArr l') = true ->
             sameOrder (JArr l) (JArr l') = true -> l = l'.
Proof.
  induction 1 as [|x r Hx _ IH]; intros D [|y r'] E S; try discriminate E.
  - reflexivity.
  - cbn [forallb] in D. apply andb_true_iff in D. destruct D as [Dx Dr].
    cbn [deepEqual] in E. apply andb_true_iff in E. destruct E as [Ex Er].
    cbn [sameOrder] in S. apply andb_true_iff in S. destruct S as [Sx Sr].
    f_equal; [exact (Hx Dx y Ex Sx)|exact (IH Dr r' Er Sr)].
Qed.

(** The properties of two objects: looked up by name on one side, read
    in order on the other. *)
Lemma properties_eq (p : list (jsstring * JsValue)) :
  Forall (fun kx => distinctKeys (snd kx) = true ->
                    forall b, deepEqual (snd kx) b = true ->
                              sameOrder (snd kx) b = true -> snd kx = b) p ->
  distinct (map fst p) = true ->
  forallb (fun '(_, x) => distinctKeys x) p = true ->
  forall q, length p = length q ->
            forallb (fun '(k, x) => match lookup k q with
                                    | Some y => deepEqual x y
                                    | None => false
                                    end) p = true ->
            sameOrder (JObj p) (JObj q) = true -> p = q.
Proof.
  induction 1 as [|[k x] r Hx _ IH]; intros N D [|[k' y] r'] L E S;
    try discriminate L; [reflexivity|].
  cbn [sameOrder] in S. apply andb_true_iff in S. destruct S as [S Sr].
  apply andb_true_iff in S. destruct S as [K Sx].
  apply jsstring_eqb_eq in K. subst k'.
  cbn [forallb] in D. apply andb_true_iff in D. destruct D as [Dx Dr].
  cbn [forallb lookup] in E. rewrite jsstring_eqb_refl in E.
  apply andb_true_iff in E. destruct E as [Ex Er].
  cbn [snd] in Hx. rewrite (Hx Dx y Ex Sx). f_equal.
  cbn [map fst] in N.
  apply IH.
  - cbn [distinct] in N. apply andb_true_iff in N. now destruct N.
  - exact Dr.
  - cbn [length] in L. congruence.
  - rewrite forallb_forall in Er |- *. intros [k2 v] I.
    specialize (Er (k2, v) I). cbn beta iota in Er.
    assert (F : jsstring_eqb k k2 = false).
    { apply (distinct_head k k2 (map fst r) N).
      change k2 with (fst (k2, v)). now apply in_map. }
    cbn [lookup] in Er. now rewrite F in Er.
  - exact Sr.
Qed.

(** Values that are equal by value and list their properties in the same
    order are the same value, property for property. *)
Lemma deepEqual_sameOrder_eq (a : JsValue) :
  distinctKeys a = true ->
  forall b, deepEqual a b = true -> sameOrder a b = true -> a = b.
Proof.
  induction a as [|x|x|s|l IH|p IH] using JsValue_induction;
    intros D b E S; destruct b as [|y|y|s'|l'|q]; try discriminate E.
  - reflexivity.
  - cbn [deepEqual] in E. apply Bool.eqb_prop in E. now subst.
  - cbn [deepEqual] in E. now rewrite (JsNumber_eqb_eq x y E).
  - cbn [deepEqual] in E. apply jsstring_eqb_eq in E. now subst.
  - f_equal. exact (elements_eq l IH D l' E S).
  - f_equal. cbn [distinctKeys] in D. apply andb_true_iff in D. destruct D as [N D].
    cbn [deepEqual] in E. apply andb_true_iff in E. destruct E as [L E].
    apply Nat.eqb_eq in L.
    exact (properties_eq p IH N D q L E S).
Qed.

(** [generateCacheKey] is the key of the messages as the objects the
    callers build. *)
Lemma generateCacheKey_runtime (ms : list Message) (t : option JsNumber) :
  generateCacheKey ms t = Runtime.generateCacheKey (messages_value ms) t.
Proof. reflexivity. Qed.

End EqualValues.

(** C3. Two (messages, temperature) pairs that are equal by value and
    whose objects list their properties in the same order get the same key
    from generateCacheKey, on every call. *)
Theorem equal_values_in_one_order_same_key
  (messages1 messages2 : JsValue) (t1 t2 : option JsNumber) :
  distinctKeys messages1 = true ->
  deepEqual messages1 messages2 = true ->
  sameOrder messages1 messages2 = true ->
  temperatureEqual t1 t2 = true ->
  Runtime.generateCacheKey messages1 t1 = Runtime.generateCacheKey messages2 t2.
Proof.
  intros D E S T.
  rewrite (deepEqual_sameOrder_eq messages1 D messages2 E S).
  now rewrite (temperatureEqual_eq t1 t2 T).
Qed.

Lemma equal_values_in_one_order_same_key_witness :
  Runtime.generateCacheKey (messages_value hello) (Some (Int 0))
  = Runtime.generateCacheKey roleFirst (Some (Int (1 - 1))).
Proof.
  apply (equal_values_in_one_order_same_key (messages_value hello) roleFirst
           (Some (Int 0)) (Some (Int (1 - 1)))); reflexivity.
Defined.

(** Equal by value, two keys: the message { role: 'user', content: 'Hi' }
    and the message { content: 'Hi', role: 'user' }, with the same
    temperature. The first is the key of [hello]. *)
Lemma deep_equal_messages_get_two_keys :
  deepEqual roleFirst contentFirst = true
  /\ deepEqual contentFirst roleFirst = true
  /\ Runtime.generateCacheKey roleFirst None = js "7bi95s"
  /\ Runtime.generateCacheKey contentFirst None = js "sl51hq"
  /\ Runtime.generateCacheKey roleFirst None
     <> Runtime.generateCacheKey contentFirst None
  /\ generateCacheKey hello None = js "7bi95s".
Proof. vm_compute. repeat split. discriminate. Qed.

(** * The rest of the class and its callers: facts *)

(** ** The shapes of a run *)

Section AtomicShapes.

Variables (m : Machine) (ms : list Message) (model : jsstring)
          (t : option JsNumber) (apiKey baseUrl : jsstring) (w : World).

Let r := chatCompletion m ms model t apiKey baseUrl w.

(** What an atomic call does once its lookup did not serve. *)
Lemma chatCompletion_after_miss :
  notServed m ms t w ->
  (exists e, r = atomicFailure m ms model t apiKey baseUrl e)
  \/ (exists response data content,
        fetched w = Resolved response /\ ok response = true
        /\ json response = Resolved data
        /\ firstChoiceContent data = Normal content
        /\ r = atomicSuccess m ms model t apiKey baseUrl w content).
Proof.
  intros N.
  unfold r, chatCompletion, atomicFailure, atomicSuccess. cbv zeta.
  assert (S : forall X : Run JsValue,
             match getCachedResponse (this m) ms t (lookupTime w) with
             | Some cached =>
                 if truthy cached
                 then {| outcome := Resolved cached; final := m; trace := [] |}
                 else X
             | None => X
             end = X).
  { intros X. destruct N as [->|[c [-> ->]]]; reflexivity. }
  rewrite S. clear S.
  destruct (fetched w) as [response|e] eqn:F; [|left; eexists; reflexivity].
  destruct (ok response) eqn:O; cbn [negb].
  - destruct (json response) as [data|e] eqn:J; [|left; eexists; reflexivity].
    destruct (firstChoiceContent data) as [content|e] eqn:C;
      [|left; eexists; reflexivity].
    right. exists response, data, content.
    repeat split; try assumption; try reflexivity.
    now destruct (setCachedResponse _ _ _ _ _).
  - destruct (text response); left; eexists; reflexivity.
Qed.

(** A call is served from the cache, or its lookup does not serve. *)
Lemma chatCompletion_served_or_not :
  (exists cached,
     getCachedResponse (this m) ms t (lookupTime w) = Some cached
     /\ truthy cached = true
     /\ r = {| outcome := Resolved cached; final := m; trace := [] |})
  \/ notServed m ms t w.
Proof.
  unfold r, chatCompletion, notServed. cbv zeta.
  destruct (getCachedResponse (this m) ms t (lookupTime w)) as [cached|] eqn:G;
    [destruct (truthy cached) eqn:T|].
  - left. exists cached. split; [reflexivity|]. split; [exact T|]. reflexivity.
  - right. right. exists cached. split; [reflexivity | exact T].
  - right. left. reflexivity.
Qed.

End AtomicShapes.

Section StreamShapes.

Variable JSON_parse : jsstring -> option JsValue.
Variables (m : Machine) (ms : list Message) (model : jsstring)
          (t : option JsNumber) (apiKey baseUrl : jsstring) (onChunk : Callback)
          (w : World).

Let r := chatCompletionStream JSON_parse m ms model t apiKey baseUrl onChunk w.

(** A streamed call fails before it reads, or has a body to read. *)
Lemma chatCompletionStream_early_or_body :
  (exists e, r = streamFailure m ms model t apiKey baseUrl e [])
  \/ (exists response stream,
        fetched w = Resolved response /\ ok response = true
        /\ body response = Some stream).
Proof.
  unfold r, chatCompletionStream, streamFailure. cbv zeta.
  destruct (fetched w) as [response|e] eqn:F; [|left; eexists; reflexivity].
  destruct (ok response) eqn:O; cbn [negb].
  - destruct (body response) as [stream|] eqn:B.
    + right. exists response, stream. repeat split; assumption.
    + left. eexists. reflexivity.
  - destruct (text response); left; eexists; reflexivity.
Qed.

(** With a body, the run is decided by the sentinel and the ending. *)
Lemma chatCompletionStream_with_body (response : Response) (stream : BodyStream) :
  fetched w = Resolved response -> ok response = true ->
  body response = Some stream ->
  let deltas := streamDeltas JSON_parse stream in
  let stored := setCachedResponse (with_controller m (Some newAbortController))
                  ms t (JStr (accumulated deltas)) (writeTime w) in
  (outcome r = Resolved (accumulated deltas)
   /\ final r = with_controller (fst stored) None
   /\ exists tail, trace r = fetchCall model ms true t apiKey baseUrl
                             :: chunkEvents onChunk deltas ++ tail
                   /\ filter isSetItem tail = snd stored
                   /\ filter isFetch tail = []
                   /\ filter isChunkEvent tail = [])
  \/ (exists e, ending stream = ReadFails e
                /\ hasSentinel JSON_parse (completeLines (concat (chunks stream))) = false
                /\ r = streamFailure m ms model t apiKey baseUrl e
                         (chunkEvents onChunk deltas ++ [EReleaseLock])).
Proof.
  intros F O B deltas stored.
  destruct (hasSentinel JSON_parse (completeLines (concat (chunks stream)))) eqn:S;
    [|destruct (ending stream) as [|e] eqn:E].
  - left. unfold r.
    rewrite (stream_run_sentinel JSON_parse m ms model t apiKey baseUrl onChunk w
               response stream F O B S).
    cbn [outcome final trace]. split; [reflexivity|]. split; [reflexivity|].
    exists (snd stored ++ [EReleaseLock]). split; [reflexivity|].
    unfold stored. rewrite !filter_app, setCachedResponse_events.
    split; [reflexivity|]. split; reflexivity.
  - left. unfold r.
    rewrite (stream_run_done JSON_parse m ms model t apiKey baseUrl onChunk w
               response stream F O B S E).
    cbn [outcome final trace]. split; [reflexivity|]. split; [reflexivity|].
    exists ([EReleaseLock] ++ snd stored). split; [reflexivity|].
    unfold stored. rewrite !filter_app, setCachedResponse_events.
    split; [reflexivity|]. split; reflexivity.
  - right. exists e. split; [reflexivity|]. split; [reflexivity|].
    unfold r.
    now rewrite (stream_run_failed JSON_parse m ms model t apiKey baseUrl onChunk w
                   response stream F O B e S E).
Qed.

End StreamShapes.

(** ** clearCache *)

Lemma lookup_removeProp {A : Type} (k : jsstring) (l : list (jsstring * A)) :
  lookup k (removeProp k l) = None.
Proof.
  induction l as [|[k' x] r IH]; [reflexivity|].
  cbn [removeProp]. destruct (jsstring_eqb k' k) eqn:E; [exact IH|].
  cbn [lookup]. now rewrite E.
Qed.

Lemma getCachedResponse_empty (svc : APIService) (ms : list Message)
  (t : option JsNumber) (now : Z) :
  cache svc = [] -> getCachedResponse svc ms t now = None.
Proof. intros E. unfold getCachedResponse. now rewrite E. Qed.

Lemma chatCompletion_fetches_when_not_served (m : Machine) (ms : list Message)
  (model : jsstring) (t : option JsNumber) (apiKey baseUrl : jsstring) (w : World) :
  notServed m ms t w ->
  hd_error (trace (chatCompletion m ms model t apiKey baseUrl w))
  = Some (fetchCall model ms false t apiKey baseUrl).
Proof.
  intros N.
  destruct (chatCompletion_after_miss m ms model t apiKey baseUrl w N)
    as [[e ->]|[response [data [content [_ [_ [_ [_ ->]]]]]]]]; reflexivity.
Qed.

(** clearCache leaves no entry, in the client and under the storage key:
    every lookup misses, so the next completion goes to the network, and a
    client constructed afterwards starts empty. Where the storage is out
    of reach the error reaches the caller, the table being empty already. *)
Theorem clearCache_forgets_everything (m : Machine) :
  let m' := fst (clearCache m) in
  cache (this m') = []
  /\ getCacheSize (PromptCache_value (cache (this m'))) = Normal 0
  /\ (forall ms t now, getCachedResponse (this m') ms t now = None)
  /\ (forall ms model t apiKey baseUrl w,
        hd_error (trace (chatCompletion m' ms model t apiKey baseUrl w))
        = Some (fetchCall model ms false t apiKey baseUrl))
  /\ (readFails (localStorage m) = false ->
      snd (clearCache m) = Normal tt
      /\ lookup (cacheKey (this m)) (items (localStorage m')) = None
      /\ forall JSON_parse,
           loadCache JSON_parse (localStorage m') (cacheKey (this m)) = Table [])
  /\ (readFails (localStorage m) = true ->
      (exists e, snd (clearCache m) = Throw e)
      /\ localStorage m' = localStorage m).
Proof.
  intros m'. subst m'.
  assert (C : cache (this (fst (clearCache m))) = []).
  { unfold clearCache, removeItem. cbv zeta. now destruct (readFails (localStorage m)). }
  split; [exact C|]. split; [now rewrite C|].
  split; [intros; now apply getCachedResponse_empty|].
  split.
  { intros. apply chatCompletion_fetches_when_not_served. left.
    now apply getCachedResponse_empty. }
  unfold clearCache, removeItem. cbv zeta. split; intros R; rewrite R.
  - cbn [fst snd localStorage items]. split; [reflexivity|].
    split; [apply lookup_removeProp|].
    intros JSON_parse. unfold loadCache, getItem. cbn [readFails items].
    now rewrite lookup_removeProp.
  - cbn [fst snd]. split; [eexists; reflexivity | reflexivity].
Qed.

(** ** The controller *)

(** Every call gives its controller back: after a streamed call none is
    held, after an atomic call none is held unless the call was served from
    the cache and touched nothing. A cancel after the call aborts nothing. *)
Theorem controller_released_on_every_path
  (JSON_parse : jsstring -> option JsValue) (m : Machine) (ms : list Message)
  (model : jsstring) (t : option JsNumber) (apiKey baseUrl : jsstring)
  (onChunk : Callback) (w : World) :
  let s := chatCompletionStream JSON_parse m ms model t apiKey baseUrl onChunk w in
  let a := chatCompletion m ms model t apiKey baseUrl w in
  isRequestInProgress (this (final s)) = false
  /\ cancelCurrentRequest (final s) = (final s, [])
  /\ ((final a = m /\ trace a = [])
      \/ (isRequestInProgress (this (final a)) = false
          /\ cancelCurrentRequest (final a) = (final a, []))).
Proof.
  intros s a. subst s a. split; [|split].
  - stream_cases w; try reflexivity; now name_write.
  - unfold cancelCurrentRequest. stream_cases w; try reflexivity; now name_write.
  - destruct (chatCompletion_served_or_not m ms model t apiKey baseUrl w)
      as [[cached [_ [_ ->]]]|N]; [left; split; reflexivity|].
    right.
    destruct (chatCompletion_after_miss m ms model t apiKey baseUrl w N)
      as [[e ->]|[response [data [content [_ [_ [_ [_ ->]]]]]]]];
      split; reflexivity.
Qed.

(** ** fetchAvailableModels *)

Lemma member_nonnull (v : JsValue) (k : jsstring) :
  v <> JNull -> member (Some v) k = Normal (Get v k).
Proof. intros H. destruct v; try reflexivity. contradiction. Qed.

Lemma idsOf_nonnull (l : list JsValue) :
  Forall (fun x => x <> JNull) l ->
  idsOf l = Normal (map (fun x => Get x (js "id")) l).
Proof.
  induction 1 as [|x l Hx _ IH]; [reflexivity|].
  cbn [idsOf map]. now rewrite (member_nonnull x _ Hx), IH.
Qed.

(** On a 2xx answer whose [data] is an array of objects, the models are
    the [id] of each element, one per element and in the order of the
    answer (undefined where an element has none); an answer without [data]
    gives the empty list, not an error. *)
Theorem models_are_the_ids_in_order (apiKey baseUrl : jsstring)
  (response : Response) (data : JsValue) :
  ok response = true -> json response = Resolved data -> data <> JNull ->
  let run := fetchAvailableModels apiKey baseUrl (Resolved response) in
  (forall l, Get data (js "data") = Some (JArr l) ->
             Forall (fun x => x <> JNull) l ->
             models run = Resolved (map (fun x => Get x (js "id")) l))
  /\ (Get data (js "data") = None \/ Get data (js "data") = Some JNull ->
      models run = Resolved []).
Proof.
  intros O J N run. subst run.
  unfold fetchAvailableModels. cbv zeta.
  assert (E : modelsFrom (Resolved response) = modelIds data).
  { unfold modelsFrom. now rewrite O, J. }
  assert (B : (if includes (js "openrouter.ai") baseUrl
               then modelsFrom (Resolved response)
               else modelsFrom (Resolved response)) = modelIds data)
    by (now destruct (includes _ _)).
  cbn [models]. rewrite B. unfold modelIds. rewrite (member_nonnull data _ N).
  split.
  - intros l G F. now rewrite G, (idsOf_nonnull l F).
  - intros [G|G]; now rewrite G.
Qed.

Lemma models_are_the_ids_in_order_witness :
  let run := fetchAvailableModels secret openai (Resolved (answering modelList)) in
  (forall l, Get modelList (js "data") = Some (JArr l) ->
             Forall (fun x => x <> JNull) l ->
             models run = Resolved (map (fun x => Get x (js "id")) l))
  /\ (Get modelList (js "data") = None \/ Get modelList (js "data") = Some JNull ->
      models run = Resolved []).
Proof.
  apply (models_are_the_ids_in_order secret openai (answering modelList) modelList);
    [reflexivity | reflexivity | discriminate].
Defined.

(** The answer of the specification's example. *)
Example models_of_the_example :
  models (fetchAvailableModels secret openai (Resolved (answering modelList)))
  = Resolved [Some (JStr (js "gpt-4")); Some (JStr (js "gpt-3.5-turbo"))].
Proof. reflexivity. Qed.

Lemma rethrow_prefix_not_cancelled (prefix cause : jsstring) (c : Z) (rest : jsstring) :
  prefix = c :: rest -> c <> 82 -> Error (prefix ++ cause) <> cancelled.
Proof.
  intros -> Hc E. apply (f_equal (fun e => hd 0 (message e))) in E.
  cbn [Error message app hd] in E. apply Hc. exact E.
Qed.

(** fetchAvailableModels makes one GET to [baseUrl/models] and nothing
    else. Whatever goes wrong, an abort included, is rejected as 'Failed to
    fetch available models: ...' and never as a cancellation; a non-2xx
    answer is reported with its status and its body. *)
Theorem models_failures_are_wrapped (apiKey baseUrl : jsstring)
  (answer : Settled Response) :
  let run := fetchAvailableModels apiKey baseUrl answer in
  requests run = [EGet (baseUrl ++ js "/models") (js "Bearer " ++ apiKey)]
  /\ (forall e, models run = Rejected e ->
        (exists cause, e = Error (modelsPrefix ++ cause)) /\ e <> cancelled)
  /\ (forall cause, answer = Rejected cause ->
        models run = Rejected (Error (modelsPrefix ++ Error_toString cause)))
  /\ (forall response errorText,
        answer = Resolved response -> ok response = false ->
        text response = Resolved errorText ->
        models run
        = Rejected (Error (modelsPrefix ++ js "Error: HTTP error! status: "
                           ++ Integer_toString (status response) 10
                           ++ js ", body: " ++ errorText))).
Proof.
  intros run. subst run. unfold fetchAvailableModels. cbv zeta.
  cbn [requests models]. split; [reflexivity|].
  assert (B : (if includes (js "openrouter.ai") baseUrl
               then modelsFrom answer else modelsFrom answer) = modelsFrom answer)
    by (now destruct (includes _ _)).
  rewrite B. split; [|split].
  - intros e. destruct (modelsFrom answer) as [ids|cause]; [discriminate|].
    intros [= <-]. split; [eexists; reflexivity|].
    now apply (rethrow_prefix_not_cancelled modelsPrefix _ 70
                 (js "ailed to fetch available models: ")).
  - intros cause ->. reflexivity.
  - intros response errorText -> O T. unfold modelsFrom. rewrite O, T. cbn [negb].
    reflexivity.
Qed.

(** ** Writing and reading the table *)

Section Keys.

Context {A : Type}.

Lemma lookup_None_not_In (k : jsstring) (l : list (jsstring * A)) :
  lookup k l = None -> ~ In k (map fst l).
Proof.
  induction l as [|[k' x] r IH]; intros H; [intros []|].
  cbn [lookup] in H. destruct (jsstring_eqb k' k) eqn:E; [discriminate|].
  cbn [map fst In]. intros [->|I]; [|now apply IH].
  now rewrite jsstring_eqb_refl in E.
Qed.

Lemma keys_replaceProp (k : jsstring) (v : A) (l : list (jsstring * A)) :
  map fst (replaceProp k v l) = map fst l.
Proof.
  induction l as [|[k' x] r IH]; [reflexivity|].
  cbn [replaceProp]. destruct (jsstring_eqb k' k); cbn [map fst]; [reflexivity|].
  now rewrite IH.
Qed.

Lemma In_keys_insertIndex (i : Z) (k k' : jsstring) (v : A) (l : list (jsstring * A)) :
  In k' (map fst (insertIndex i k v l)) <-> k' = k \/ In k' (map fst l).
Proof.
  induction l as [|[k0 x] r IH]; cbn [insertIndex].
  - cbn. intuition.
  - destruct (parseIndex k0) as [j|]; [destruct (j <? i)|];
      cbn [map fst In] in *; rewrite ?IH; intuition.
Qed.

Lemma NoDup_insertIndex (i : Z) (k : jsstring) (v : A) (l : list (jsstring * A)) :
  ~ In k (map fst l) -> NoDup (map fst l) -> NoDup (map fst (insertIndex i k v l)).
Proof.
  induction l as [|[k0 x] r IH]; intros Hk Hn; cbn [insertIndex].
  - cbn. constructor; [intros []|constructor].
  - cbn [map fst] in Hk, Hn. inversion Hn as [|? ? H0 Hr]; subst.
    assert (Hfresh : NoDup (k :: k0 :: map fst r)) by (constructor; assumption).
    destruct (parseIndex k0) as [j|]; [destruct (j <? i)|]; cbn [map fst];
      try exact Hfresh.
    constructor.
    + rewrite In_keys_insertIndex. intros [->|I]; [|contradiction].
      apply Hk. now left.
    + apply IH; [|exact Hr]. intros I. apply Hk. now right.
Qed.

Lemma length_insertIndex (i : Z) (k : jsstring) (v : A) (l : list (jsstring * A)) :
  length (insertIndex i k v l) = S (length l).
Proof.
  induction l as [|[k0 x] r IH]; [reflexivity|]. cbn [insertIndex].
  destruct (parseIndex k0) as [j|]; [destruct (j <? i)|]; cbn [length];
    now rewrite ?IH.
Qed.

(** Assigning a property keeps the keys distinct. *)
Lemma NoDup_setProp (k : jsstring) (v : A) (l : list (jsstring * A)) :
  NoDup (map fst l) -> NoDup (map fst (setProp k v l)).
Proof.
  intros Hn. unfold setProp, hasProp.
  destruct (lookup k l) as [x|] eqn:L.
  - now rewrite keys_replaceProp.
  - apply lookup_None_not_In in L.
    destruct (parseIndex k); [now apply NoDup_insertIndex|].
    rewrite map_app. cbn [map fst].
    apply NoDup_app; [exact Hn | constructor; [intros []|constructor] |].
    intros a Ha [<-|[]]. contradiction.
Qed.

(** Assigning a property adds one key, or none when the key is there. *)
Lemma length_setProp (k : jsstring) (v : A) (l : list (jsstring * A)) :
  length (setProp k v l) = if hasProp k l then length l else S (length l).
Proof.
  unfold setProp. destruct (hasProp k l).
  - rewrite <- (length_map fst), keys_replaceProp. apply length_map.
  - destruct (parseIndex k); [apply length_insertIndex|].
    rewrite length_app. cbn. lia.
Qed.

End Keys.

Section Saving.

Variables (m : Machine) (ms : list Message) (t : option JsNumber)
          (c : JsValue) (now : Z).

Let m' := fst (setCachedResponse m ms t c now).

Lemma setCachedResponse_storage_full :
  writeFails (localStorage m) = true -> localStorage m' = localStorage m.
Proof.
  intros W. unfold m', setCachedResponse, saveCache, setItem. cbv zeta.
  cbn [with_cache localStorage]. now rewrite W.
Qed.

Lemma setCachedResponse_storage_written :
  writeFails (localStorage m) = false ->
  lookup (cacheKey (this m)) (items (localStorage m'))
  = Some (JSON_stringify (PromptCache_value (cache (this m'))))
  /\ readFails (localStorage m') = readFails (localStorage m).
Proof.
  intros W. unfold m'. rewrite setCachedResponse_this. cbn [cache].
  unfold setCachedResponse, saveCache, setItem. cbv zeta.
  cbn [with_cache localStorage this cache cacheKey]. rewrite W.
  cbn [fst localStorage items readFails]. split; [|reflexivity].
  destruct (hasProp (cacheKey (this m)) (items (localStorage m))) eqn:H.
  - now apply lookup_replaceProp.
  - apply lookup_app_new. unfold hasProp in H.
    now destruct (lookup (cacheKey (this m)) (items (localStorage m))).
Qed.

Lemma setCachedResponse_cacheKey : cacheKey (this m') = cacheKey (this m).
Proof. unfold m'. now rewrite setCachedResponse_this. Qed.

Lemma getCachedResponse_after_write (now' : Z) :
  getCachedResponse (this m') ms t now' = if now' - now <? DAY then Some c else None.
Proof.
  unfold getCachedResponse. cbv zeta. unfold m'.
  now rewrite setCachedResponse_lookup.
Qed.

End Saving.

Lemma JSON_stringify_table_nonempty (table : PromptCache) :
  exists rest, JSON_stringify (PromptCache_value table) = 123 :: rest.
Proof. unfold PromptCache_value. cbn [JSON_stringify]. eexists. reflexivity. Qed.

(** An entry that was written is served to the same request for 24 hours
    from its timestamp, and to no later lookup; a second write for the
    request replaces it. *)
Theorem written_entry_is_served_for_a_day (m : Machine) (ms : list Message)
  (t : option JsNumber) (c c2 : JsValue) (now now2 later : Z) :
  let m1 := fst (setCachedResponse m ms t c now) in
  let m2 := fst (setCachedResponse m1 ms t c2 now2) in
  getCachedResponse (this m1) ms t later
  = (if later - now <? DAY then Some c else None)
  /\ getCachedResponse (this m1) ms t (now + DAY - 1) = Some c
  /\ getCachedResponse (this m1) ms t (now + DAY) = None
  /\ getCachedResponse (this m2) ms t later
     = (if later - now2 <? DAY then Some c2 else None)
  /\ length (cache (this m2)) = length (cache (this m1)).
Proof.
  intros m1 m2. subst m1 m2. rewrite !getCachedResponse_after_write.
  replace (now + DAY - 1 - now <? DAY) with true
    by (symmetry; apply Z.ltb_lt; lia).
  replace (now + DAY - now <? DAY) with false
    by (symmetry; apply Z.ltb_ge; lia).
  repeat split.
  rewrite (setCachedResponse_this (fst (setCachedResponse m ms t c now))).
  cbn [cache]. rewrite length_setProp. unfold hasProp.
  now rewrite setCachedResponse_lookup.
Qed.

(** A write touches the entry of its key and no other: lookups of requests
    with another key answer as before, the number of entries grows by one
    for a new key and stays for a known one, and the keys stay distinct. *)
Theorem write_touches_one_entry (m : Machine) (ms : list Message)
  (t : option JsNumber) (c : JsValue) (now : Z) :
  let m' := fst (setCachedResponse m ms t c now) in
  let key := generateCacheKey ms t in
  (forall ms' t' later,
      generateCacheKey ms' t' <> key ->
      getCachedResponse (this m') ms' t' later
      = getCachedResponse (this m) ms' t' later)
  /\ getCacheSize (PromptCache_value (cache (this m')))
     = Normal (Z.of_nat (length (cache (this m)))
               + if hasProp key (cache (this m)) then 0 else 1)
  /\ (NoDup (map fst (cache (this m))) -> NoDup (map fst (cache (this m')))).
Proof.
  intros m' key. subst m' key. rewrite setCachedResponse_this. cbn [cache].
  split; [|split].
  - intros ms' t' later Hne. unfold getCachedResponse. cbv zeta. cbn [cache].
    rewrite lookup_setProp_other; [reflexivity|]. congruence.
  - rewrite getCacheSize_table, length_setProp.
    destruct (hasProp (generateCacheKey ms t) (cache (this m))); f_equal; lia.
  - apply NoDup_setProp.
Qed.

(** What was saved is what a client constructed afterwards loads: with a
    storage that can be read and written, and JSON.parse giving back the
    value of the saved text, the constructor finds the table of the
    client that wrote it. *)
Theorem saved_cache_loads_again (JSON_parse : jsstring -> option JsValue)
  (m : Machine) (ms : list Message) (t : option JsNumber) (c : JsValue) (now : Z) :
  let m' := fst (setCachedResponse m ms t c now) in
  readFails (localStorage m) = false -> writeFails (localStorage m) = false ->
  JSON_parse (JSON_stringify (PromptCache_value (cache (this m'))))
  = Some (PromptCache_value (cache (this m'))) ->
  loadCache JSON_parse (localStorage m') (cacheKey (this m'))
  = Table (cache (this m'))
  /\ forall later,
       getCachedResponse (instance (cache (this m')) (cacheKey (this m'))) ms t later
       = if later - now <? DAY then Some c else None.
Proof.
  intros m' R W P. subst m'.
  destruct (setCachedResponse_storage_written m ms t c now W) as [L R'].
  split.
  - unfold loadCache, getItem. rewrite R', R, setCachedResponse_cacheKey, L.
    destruct (JSON_stringify_table_nonempty
                (cache (this (fst (setCachedResponse m ms t c now))))) as [rest E].
    rewrite E in *. rewrite P. apply asPromptCache_table.
  - intros later. unfold getCachedResponse. cbv zeta. cbn [instance cache].
    now rewrite setCachedResponse_lookup.
Qed.

Lemma saved_cache_loads_again_witness :
  let m' := fst (setCachedResponse newClient hello None (JStr (js "Hello")) 1000) in
  loadCache savedParse (localStorage m') (cacheKey (this m'))
  = Table (cache (this m'))
  /\ forall later,
       getCachedResponse (instance (cache (this m')) (cacheKey (this m'))) hello None
         later
       = if later - 1000 <? DAY then Some (JStr (js "Hello")) else None.
Proof.
  apply (saved_cache_loads_again savedParse newClient hello None (JStr (js "Hello"))
           1000); vm_compute; reflexivity.
Defined.

(** ** Atomic completions in sequence *)

Section AtomicRuns.

Variables (m : Machine) (ms : list Message) (model : jsstring)
          (t : option JsNumber) (apiKey baseUrl : jsstring) (w : World).

Let r := chatCompletion m ms model t apiKey baseUrl w.

Lemma notServed_skips (X : Run JsValue) :
  notServed m ms t w ->
  match getCachedResponse (this m) ms t (lookupTime w) with
  | Some cached =>
      if truthy cached
      then {| outcome := Resolved cached; final := m; trace := [] |}
      else X
  | None => X
  end = X.
Proof. intros [->|[c [-> ->]]]; reflexivity. Qed.

Lemma chatCompletion_success (response : Response) (data content : JsValue) :
  notServed m ms t w ->
  fetched w = Resolved response -> ok response = true ->
  json response = Resolved data -> firstChoiceContent data = Normal content ->
  r = atomicSuccess m ms model t apiKey baseUrl w content.
Proof.
  intros N F O J C. unfold r, chatCompletion, atomicSuccess. cbv zeta.
  rewrite (notServed_skips _ N), F, O, J, C. cbn [negb].
  now destruct (setCachedResponse _ _ _ _ _).
Qed.

Lemma chatCompletion_http_error (response : Response) (errorText : jsstring) :
  notServed m ms t w ->
  fetched w = Resolved response -> ok response = false ->
  text response = Resolved errorText ->
  r = atomicFailure m ms model t apiKey baseUrl (httpError response errorText).
Proof.
  intros N F O T. unfold r, chatCompletion, atomicFailure. cbv zeta.
  now rewrite (notServed_skips _ N), F, O, T.
Qed.

Lemma chatCompletion_served (cached : JsValue) :
  getCachedResponse (this m) ms t (lookupTime w) = Some cached ->
  truthy cached = true ->
  r = {| outcome := Resolved cached; final := m; trace := [] |}.
Proof. intros G T. unfold r, chatCompletion. cbv zeta. now rewrite G, T. Qed.

End AtomicRuns.

Lemma atomicSuccess_lookup (m : Machine) (ms : list Message) (model : jsstring)
  (t : option JsNumber) (apiKey baseUrl : jsstring) (w : World) (content : JsValue)
  (later : Z) :
  getCachedResponse
    (this (final (atomicSuccess m ms model t apiKey baseUrl w content))) ms t later
  = if later - writeTime w <? DAY then Some content else None.
Proof.
  unfold atomicSuccess. cbv zeta. cbn [final with_controller this].
  unfold getCachedResponse. cbv zeta. cbn [cache].
  now rewrite setCachedResponse_lookup.
Qed.

(** A storage that refuses the write does not fail the completion: the
    answer is returned, the storage stays as it was, and the entry lives
    in the client, where a lookup of the day finds it; a content that is
    truthy is served from there to the next call of the day. *)
Theorem failed_save_keeps_entry_in_memory (m : Machine) (ms : list Message)
  (model : jsstring) (t : option JsNumber) (apiKey baseUrl : jsstring)
  (w w' : World) (response : Response) (data content : JsValue) :
  writeFails (localStorage m) = true -> notServed m ms t w ->
  fetched w = Resolved response -> ok response = true ->
  json response = Resolved data -> firstChoiceContent data = Normal content ->
  lookupTime w' - writeTime w < DAY ->
  let r := chatCompletion m ms model t apiKey baseUrl w in
  outcome r = Resolved content
  /\ localStorage (final r) = localStorage m
  /\ getCachedResponse (this (final r)) ms t (lookupTime w') = Some content
  /\ (truthy content = true ->
      chatCompletion (final r) ms model t apiKey baseUrl w'
      = {| outcome := Resolved content; final := final r; trace := [] |}).
Proof.
  intros W N F O J C D r. subst r.
  rewrite (chatCompletion_success m ms model t apiKey baseUrl w response data content
             N F O J C).
  assert (G : getCachedResponse
                (this (final (atomicSuccess m ms model t apiKey baseUrl w content)))
                ms t (lookupTime w') = Some content).
  { rewrite atomicSuccess_lookup.
    destruct (Z.ltb_spec (lookupTime w' - writeTime w) DAY); [reflexivity | lia]. }
  split; [reflexivity|]. split; [|split].
  - unfold atomicSuccess. cbv zeta. cbn [final with_controller localStorage].
    exact (setCachedResponse_storage_full
             (with_controller m (Some newAbortController)) ms t content
             (writeTime w) W).
  - exact G.
  - intros T. now apply chatCompletion_served.
Qed.

Lemma failed_save_keeps_entry_in_memory_witness :
  let r := chatCompletion quotaClient hello gpt4 None secret openai
             (worldAt 1000 (answering (answerOf "Hello"))) in
  outcome r = Resolved (JStr (js "Hello"))
  /\ localStorage (final r) = localStorage quotaClient
  /\ getCachedResponse (this (final r)) hello None (lookupTime offline)
     = Some (JStr (js "Hello"))
  /\ (truthy (JStr (js "Hello")) = true ->
      chatCompletion (final r) hello gpt4 None secret openai offline
      = {| outcome := Resolved (JStr (js "Hello")); final := final r; trace := [] |}).
Proof.
  apply (failed_save_keeps_entry_in_memory quotaClient hello gpt4 None secret openai
           (worldAt 1000 (answering (answerOf "Hello"))) offline
           (answering (answerOf "Hello")) (answerOf "Hello") (JStr (js "Hello")));
    try reflexivity; try (left; reflexivity); vm_compute; reflexivity.
Defined.

(** The sample: on the same storage an answer without choices leaves the
    entry '' in the client, and the next call of the day goes to the
    network again. *)
Example falsy_entry_in_memory_is_refetched :
  let r := chatCompletion quotaClient hello gpt4 None secret openai
             (worldAt 1000 (answering noChoices)) in
  outcome r = Resolved (JStr [])
  /\ getCachedResponse (this (final r)) hello None 2000 = Some (JStr [])
  /\ hd_error (trace (chatCompletion (final r) hello gpt4 None secret openai
                        (worldAt 2000 (answering (answerOf "Hello")))))
     = Some (fetchCall gpt4 hello false None secret openai).
Proof. vm_compute. repeat split. Qed.

(** The cache cannot tell two requests with the same key apart: the
    answer one of them got is returned, without a network call, to the
    other, whatever its messages and temperature. *)
Theorem equal_keys_share_the_entry (m : Machine) (ms ms' : list Message)
  (model model' : jsstring) (t t' : option JsNumber)
  (apiKey apiKey' baseUrl baseUrl' : jsstring)
  (w w' : World) (response : Response) (data content : JsValue) :
  generateCacheKey ms' t' = generateCacheKey ms t ->
  notServed m ms t w ->
  fetched w = Resolved response -> ok response = true ->
  json response = Resolved data -> firstChoiceContent data = Normal content ->
  truthy content = true -> lookupTime w' - writeTime w < DAY ->
  let r := chatCompletion m ms model t apiKey baseUrl w in
  chatCompletion (final r) ms' model' t' apiKey' baseUrl' w'
  = {| outcome := Resolved content; final := final r; trace := [] |}.
Proof.
  intros K N F O J C T D r. subst r.
  rewrite (chatCompletion_success m ms model t apiKey baseUrl w response data content
             N F O J C).
  apply chatCompletion_served; [|exact T].
  unfold getCachedResponse. cbv zeta. rewrite K.
  fold (getCachedResponse
          (this (final (atomicSuccess m ms model t apiKey baseUrl w content)))
          ms t (lookupTime w')).
  rewrite atomicSuccess_lookup.
  destruct (Z.ltb_spec (lookupTime w' - writeTime w) DAY); [reflexivity | lia].
Qed.

Lemma equal_keys_share_the_entry_witness :
  let r := chatCompletion newClient colliding gpt4 None secret openai
             (worldAt 1000 (answering (answerOf "Hello"))) in
  chatCompletion (final r) colliding gpt4 (Some (Int 1)) secret openai offline
  = {| outcome := Resolved (JStr (js "Hello")); final := final r; trace := [] |}.
Proof.
  apply (equal_keys_share_the_entry newClient colliding colliding gpt4 gpt4
           None (Some (Int 1)) secret secret openai openai
           (worldAt 1000 (answering (answerOf "Hello"))) offline
           (answering (answerOf "Hello")) (answerOf "Hello") (JStr (js "Hello")));
    try reflexivity; try (left; reflexivity); vm_compute; reflexivity.
Defined.



(** ** Errors of the provider *)

Lemma rethrow_httpError (prefix : jsstring) (response : Response)
  (errorText : jsstring) :
  rethrow prefix (httpError response errorText)
  = Error (prefix ++ js "Error: HTTP error! status: "
           ++ Integer_toString (status response) 10 ++ js ", body: " ++ errorText).
Proof. reflexivity. Qed.

(** A non-2xx answer rejects both operations with the status in decimal
    and the body of the answer as it came, after the prefix of the
    operation; it is never taken for a cancellation. *)
Theorem http_error_carries_status_and_body
  (JSON_parse : jsstring -> option JsValue) (m : Machine) (ms : list Message)
  (model : jsstring) (t : option JsNumber) (apiKey baseUrl : jsstring)
  (onChunk : Callback) (w : World) (response : Response) (errorText : jsstring) :
  fetched w = Resolved response -> ok response = false ->
  text response = Resolved errorText ->
  let report := js "Error: HTTP error! status: "
                ++ Integer_toString (status response) 10
                ++ js ", body: " ++ errorText in
  outcome (chatCompletionStream JSON_parse m ms model t apiKey baseUrl onChunk w)
  = Rejected (Error (js "Streaming API request failed: " ++ report))
  /\ (notServed m ms t w ->
      outcome (chatCompletion m ms model t apiKey baseUrl w)
      = Rejected (Error (js "API request failed: " ++ report)))
  /\ Error (js "Streaming API request failed: " ++ report) <> cancelled
  /\ Error (js "API request failed: " ++ report) <> cancelled.
Proof.
  intros F O T report. subst report. split; [|split; [|split]].
  - unfold chatCompletionStream. cbv zeta. rewrite F, O, T. cbn [negb outcome].
    now rewrite rethrow_httpError.
  - intros N.
    rewrite (chatCompletion_http_error m ms model t apiKey baseUrl w response
               errorText N F O T).
    cbn [atomicFailure outcome]. now rewrite rethrow_httpError.
  - now apply (rethrow_prefix_not_cancelled (js "Streaming API request failed: ") _
                 83 (js "treaming API request failed: ")).
  - now apply (rethrow_prefix_not_cancelled (js "API request failed: ") _
                 65 (js "PI request failed: ")).
Qed.

Lemma http_error_carries_status_and_body_witness :
  let report := js "Error: HTTP error! status: " ++ Integer_toString 503 10
                ++ js ", body: " ++ js "overloaded" in
  outcome (chatCompletionStream sampleParse newClient hello gpt4 None secret openai
             noting (worldAt 1000 serverError))
  = Rejected (Error (js "Streaming API request failed: " ++ report))
  /\ (notServed newClient hello None (worldAt 1000 serverError) ->
      outcome (chatCompletion newClient hello gpt4 None secret openai
                 (worldAt 1000 serverError))
      = Rejected (Error (js "API request failed: " ++ report)))
  /\ Error (js "Streaming API request failed: " ++ report) <> cancelled
  /\ Error (js "API request failed: " ++ report) <> cancelled.
Proof.
  apply (http_error_carries_status_and_body sampleParse newClient hello gpt4 None
           secret openai noting (worldAt 1000 serverError) serverError
           (js "overloaded")); reflexivity.
Defined.

(** The message of the sample: status 503 with the body "overloaded". *)
Example http_error_of_the_sample :
  outcome (chatCompletion newClient hello gpt4 None secret openai
             (worldAt 1000 serverError))
  = Rejected (Error (js "API request failed: Error: HTTP error! status: 503, body: overloaded")).
Proof. vm_compute. reflexivity. Qed.

(** ** Network calls and writes of a call *)

Lemma fetches_chunkEvents (onChunk : Callback) (ds : list JsValue) :
  fetches (chunkEvents onChunk ds) = [].
Proof.
  unfold fetches. induction ds as [|d ds IH]; [reflexivity|].
  unfold chunkEvents in *. cbn [flat_map]. rewrite filter_app, IH.
  unfold deliver. destruct onChunk as [callback|]; [destruct (callback d)|];
    reflexivity.
Qed.

Lemma writes_chunkEvents (onChunk : Callback) (ds : list JsValue) :
  writes (chunkEvents onChunk ds) = [].
Proof.
  unfold writes. induction ds as [|d ds IH]; [reflexivity|].
  unfold chunkEvents in *. cbn [flat_map]. rewrite filter_app, IH.
  unfold deliver. destruct onChunk as [callback|]; [destruct (callback d)|];
    reflexivity.
Qed.

(** A call never goes to the network twice and never writes the storage
    twice. A streamed call makes exactly one network call; an atomic call
    makes none when it is served from the cache and one otherwise. Either
    writes once when and only when an answer of the network is returned. *)
Theorem one_fetch_and_one_write_at_most
  (JSON_parse : jsstring -> option JsValue) (m : Machine) (ms : list Message)
  (model : jsstring) (t : option JsNumber) (apiKey baseUrl : jsstring)
  (onChunk : Callback) (w : World) :
  let s := chatCompletionStream JSON_parse m ms model t apiKey baseUrl onChunk w in
  let a := chatCompletion m ms model t apiKey baseUrl w in
  fetches (trace s) = [fetchCall model ms true t apiKey baseUrl]
  /\ length (writes (trace s)) = (if fulfilled (outcome s) then 1 else 0)%nat
  /\ ((trace a = [] /\ fulfilled (outcome a) = true)
      \/ (fetches (trace a) = [fetchCall model ms false t apiKey baseUrl]
          /\ length (writes (trace a))
             = (if fulfilled (outcome a) then 1 else 0)%nat)).
Proof.
  intros s a. subst s a. split; [|split].
  - destruct (chatCompletionStream_early_or_body JSON_parse m ms model t apiKey
                baseUrl onChunk w) as [[e ->]|[response [stream [F [O B]]]]];
      [reflexivity|].
    destruct (chatCompletionStream_with_body JSON_parse m ms model t apiKey baseUrl
                onChunk w response stream F O B)
      as [[_ [_ [tail [-> [_ [Hf _]]]]]]|[e [_ [_ ->]]]].
    + unfold fetches in *. cbn [filter isFetch].
      now rewrite filter_app, Hf, (fetches_chunkEvents onChunk), app_nil_r.
    + unfold streamFailure, fetches. cbn [trace filter isFetch].
      rewrite filter_app. fold (fetches (chunkEvents onChunk
                                           (streamDeltas JSON_parse stream))).
      now rewrite fetches_chunkEvents.
  - destruct (chatCompletionStream_early_or_body JSON_parse m ms model t apiKey
                baseUrl onChunk w) as [[e ->]|[response [stream [F [O B]]]]];
      [reflexivity|].
    destruct (chatCompletionStream_with_body JSON_parse m ms model t apiKey baseUrl
                onChunk w response stream F O B)
      as [[-> [_ [tail [-> [Hw _]]]]]|[e [_ [_ ->]]]].
    + unfold writes. cbn [filter isSetItem fulfilled].
      rewrite filter_app. fold (writes (chunkEvents onChunk
                                          (streamDeltas JSON_parse stream))).
      now rewrite writes_chunkEvents, Hw, setCachedResponse_events.
    + unfold streamFailure, writes. cbn [trace outcome fulfilled filter isSetItem].
      rewrite filter_app. fold (writes (chunkEvents onChunk
                                          (streamDeltas JSON_parse stream))).
      now rewrite writes_chunkEvents.
  - destruct (chatCompletion_served_or_not m ms model t apiKey baseUrl w)
      as [[cached [_ [_ ->]]]|N]; [left; split; reflexivity|].
    right.
    destruct (chatCompletion_after_miss m ms model t apiKey baseUrl w N)
      as [[e ->]|[response [data [content [_ [_ [_ [_ ->]]]]]]]].
    + split; reflexivity.
    + unfold atomicSuccess, fetches, writes. cbv zeta.
      cbn [trace outcome fulfilled filter isFetch isSetItem].
      rewrite setCachedResponse_events. split; reflexivity.
Qed.

(** ** The stream by its lines *)

Section LinesOfText.

Lemma split_nl_noLineFeed (x : jsstring) :
  noLineFeed x = true -> split_nl x = [x].
Proof.
  induction x as [|c x IH]; [reflexivity|].
  cbn [noLineFeed forallb]. intros H. apply andb_true_iff in H. destruct H as [Hc Hx].
  apply negb_true_iff in Hc. rewrite split_nl_cons by exact Hc.
  unfold noLineFeed in IH. now rewrite (IH Hx).
Qed.

Lemma split_nl_line (x y : jsstring) :
  noLineFeed x = true -> split_nl (x ++ 10 :: y) = x :: split_nl y.
Proof.
  induction x as [|c x IH]; [reflexivity|].
  cbn [noLineFeed forallb]. intros H. apply andb_true_iff in H. destruct H as [Hc Hx].
  apply negb_true_iff in Hc. rewrite <- app_comm_cons, split_nl_cons by exact Hc.
  unfold noLineFeed in IH. now rewrite (IH Hx).
Qed.

(** The complete lines of a text written line by line are those lines;
    what follows the last line feed is held back. *)
Lemma completeLines_streamText (lines : list jsstring) (rest : jsstring) :
  forallb noLineFeed lines = true -> noLineFeed rest = true ->
  completeLines (streamText lines rest) = lines
  /\ pending (streamText lines rest) = rest.
Proof.
  intros Hl Hr. unfold completeLines, pending, streamText.
  induction lines as [|l ls IH].
  - cbn [map concat app]. now rewrite (split_nl_noLineFeed rest Hr).
  - cbn [forallb] in Hl. apply andb_true_iff in Hl. destruct Hl as [H1 H2].
    cbn [map concat]. rewrite <- !app_assoc. cbn [app].
    rewrite (split_nl_line l _ H1).
    pose proof (split_nl_nonempty (concat (map (fun line => line ++ [10]) ls) ++ rest))
      as Hne.
    destruct (IH H2) as [IH1 IH2].
    destruct (split_nl (concat (map (fun line => line ++ [10]) ls) ++ rest))
      as [|p q] eqn:E; [contradiction|].
    cbn [removelast last] in *. now rewrite IH1, IH2.
Qed.

End LinesOfText.

Section DecodedLines.

Variable JSON_parse : jsstring -> option JsValue.

Lemma malformed_ignorable (line : jsstring) :
  malformed JSON_parse line -> decodeLine JSON_parse line = Ignorable.
Proof.
  unfold malformed, decodeLine, deltaContent.
  intros [->|[-> ->]]; [reflexivity|]. now destruct (startsWith _ _).
Qed.

Lemma doneLine_sentinel : decodeLine JSON_parse doneLine = Sentinel.
Proof. reflexivity. Qed.

Lemma decodedDeltas_skip (a b : list jsstring) (line : jsstring) :
  decodeLine JSON_parse line = Ignorable ->
  decodedDeltas JSON_parse (a ++ line :: b) = decodedDeltas JSON_parse (a ++ b)
  /\ hasSentinel JSON_parse (a ++ line :: b) = hasSentinel JSON_parse (a ++ b).
Proof.
  intros I. rewrite !decodedDeltas_app, !hasSentinel_app.
  cbn [decodedDeltas]. rewrite I.
  change (hasSentinel JSON_parse (line :: b))
    with (isSentinel JSON_parse line || hasSentinel JSON_parse b).
  unfold isSentinel. now rewrite I.
Qed.

Lemma decodedDeltas_until_done (a b : list jsstring) :
  decodedDeltas JSON_parse (a ++ doneLine :: b) = decodedDeltas JSON_parse a
  /\ hasSentinel JSON_parse (a ++ doneLine :: b) = true.
Proof.
  rewrite decodedDeltas_app, hasSentinel_app.
  cbn [decodedDeltas]. rewrite doneLine_sentinel.
  change (hasSentinel JSON_parse (doneLine :: b))
    with (isSentinel JSON_parse doneLine || hasSentinel JSON_parse b).
  unfold isSentinel. rewrite doneLine_sentinel. cbn [orb].
  rewrite orb_true_r, app_nil_r. split; [|reflexivity].
  now destruct (hasSentinel JSON_parse a).
Qed.

End DecodedLines.

(** A streamed run is a function of the text of the body, not of the reads
    that deliver it: two bodies with the same text and the same ending give
    the same outcome, the same events and the same final state. *)
Theorem reads_may_cut_the_text_anywhere
  (JSON_parse : jsstring -> option JsValue) (m : Machine) (ms : list Message)
  (model : jsstring) (t : option JsNumber) (apiKey baseUrl : jsstring)
  (onChunk : Callback) (w1 w2 : World) (response1 response2 : Response)
  (stream1 stream2 : BodyStream) :
  fetched w1 = Resolved response1 -> ok response1 = true ->
  body response1 = Some stream1 ->
  fetched w2 = Resolved response2 -> ok response2 = true ->
  body response2 = Some stream2 ->
  writeTime w1 = writeTime w2 ->
  concat (chunks stream1) = concat (chunks stream2) ->
  ending stream1 = ending stream2 ->
  chatCompletionStream JSON_parse m ms model t apiKey baseUrl onChunk w1
  = chatCompletionStream JSON_parse m ms model t apiKey baseUrl onChunk w2.
Proof.
  intros F1 O1 B1 F2 O2 B2 Tw Tx En.
  assert (D : streamDeltas JSON_parse stream1 = streamDeltas JSON_parse stream2)
    by (unfold streamDeltas; now rewrite Tx).
  destruct (hasSentinel JSON_parse (completeLines (concat (chunks stream1)))) eqn:S1;
    [|destruct (ending stream1) as [|e] eqn:E1].
  - rewrite (stream_run_sentinel JSON_parse m ms model t apiKey baseUrl onChunk w1
               response1 stream1 F1 O1 B1 S1).
    rewrite Tx in S1.
    rewrite (stream_run_sentinel JSON_parse m ms model t apiKey baseUrl onChunk w2
               response2 stream2 F2 O2 B2 S1).
    now rewrite D, Tw.
  - rewrite (stream_run_done JSON_parse m ms model t apiKey baseUrl onChunk w1
               response1 stream1 F1 O1 B1 S1 E1).
    rewrite Tx in S1. symmetry in En.
    rewrite (stream_run_done JSON_parse m ms model t apiKey baseUrl onChunk w2
               response2 stream2 F2 O2 B2 S1 En).
    now rewrite D, Tw.
  - rewrite (stream_run_failed JSON_parse m ms model t apiKey baseUrl onChunk w1
               response1 stream1 F1 O1 B1 e S1 E1).
    rewrite Tx in S1. symmetry in En.
    rewrite (stream_run_failed JSON_parse m ms model t apiKey baseUrl onChunk w2
               response2 stream2 F2 O2 B2 e S1 En).
    now rewrite D.
Qed.

Lemma reads_may_cut_the_text_anywhere_witness :
  chatCompletionStream sampleParse newClient hello gpt4 None secret openai noting
    (worldAt 1000 (streaming streamDone))
  = chatCompletionStream sampleParse newClient hello gpt4 None secret openai noting
      (worldAt 1000 (streaming streamInOneRead)).
Proof.
  apply (reads_may_cut_the_text_anywhere sampleParse newClient hello gpt4 None secret
           openai noting (worldAt 1000 (streaming streamDone))
           (worldAt 1000 (streaming streamInOneRead))
           (streaming streamDone) (streaming streamInOneRead)
           streamDone streamInOneRead); reflexivity.
Defined.

(** Two streamed runs with the same deltas, the same answer to "was the
    sentinel seen", the same ending and the same clock are the same run. *)
Lemma stream_run_ext
  (JSON_parse : jsstring -> option JsValue) (m : Machine) (ms : list Message)
  (model : jsstring) (t : option JsNumber) (apiKey baseUrl : jsstring)
  (onChunk : Callback) (w1 w2 : World) (response1 response2 : Response)
  (stream1 stream2 : BodyStream) :
  fetched w1 = Resolved response1 -> ok response1 = true ->
  body response1 = Some stream1 ->
  fetched w2 = Resolved response2 -> ok response2 = true ->
  body response2 = Some stream2 ->
  writeTime w1 = writeTime w2 ->
  streamDeltas JSON_parse stream1 = streamDeltas JSON_parse stream2 ->
  hasSentinel JSON_parse (completeLines (concat (chunks stream1)))
  = hasSentinel JSON_parse (completeLines (concat (chunks stream2))) ->
  ending stream1 = ending stream2 ->
  chatCompletionStream JSON_parse m ms model t apiKey baseUrl onChunk w1
  = chatCompletionStream JSON_parse m ms model t apiKey baseUrl onChunk w2.
Proof.
  intros F1 O1 B1 F2 O2 B2 Tw D Sn En.
  destruct (hasSentinel JSON_parse (completeLines (concat (chunks stream1)))) eqn:S1;
    [|destruct (ending stream1) as [|e] eqn:E1]; symmetry in Sn, En.
  - rewrite (stream_run_sentinel JSON_parse m ms model t apiKey baseUrl onChunk w1
               response1 stream1 F1 O1 B1 S1).
    rewrite (stream_run_sentinel JSON_parse m ms model t apiKey baseUrl onChunk w2
               response2 stream2 F2 O2 B2 Sn).
    now rewrite D, Tw.
  - rewrite (stream_run_done JSON_parse m ms model t apiKey baseUrl onChunk w1
               response1 stream1 F1 O1 B1 S1 E1).
    rewrite (stream_run_done JSON_parse m ms model t apiKey baseUrl onChunk w2
               response2 stream2 F2 O2 B2 Sn En).
    now rewrite D, Tw.
  - rewrite (stream_run_failed JSON_parse m ms model t apiKey baseUrl onChunk w1
               response1 stream1 F1 O1 B1 e S1 E1).
    rewrite (stream_run_failed JSON_parse m ms model t apiKey baseUrl onChunk w2
               response2 stream2 F2 O2 B2 e Sn En).
    now rewrite D.
Qed.

(** The deltas and the sentinel of a stream whose text is written line by
    line. *)
Lemma streamDeltas_by_lines (JSON_parse : jsstring -> option JsValue)
  (stream : BodyStream) (lines : list jsstring) (rest : jsstring) :
  concat (chunks stream) = streamText lines rest ->
  forallb noLineFeed lines = true -> noLineFeed rest = true ->
  streamDeltas JSON_parse stream = decodedDeltas JSON_parse lines
  /\ hasSentinel JSON_parse (completeLines (concat (chunks stream)))
     = hasSentinel JSON_parse lines.
Proof.
  intros T Hl Hr. unfold streamDeltas. rewrite T.
  destruct (completeLines_streamText lines rest Hl Hr) as [-> _]. now split.
Qed.

Lemma forallb_skip {A : Type} (f : A -> bool) (a b : list A) (x : A) :
  forallb f (a ++ x :: b) = true -> forallb f (a ++ b) = true.
Proof.
  rewrite !forallb_app. cbn [forallb]. intros H.
  apply andb_true_iff in H. destruct H as [-> H].
  apply andb_true_iff in H. now destruct H as [_ ->].
Qed.

(** What follows the last line feed of the body is never decoded, not even
    when the stream ends there: the text returned and cached is that of the
    lines ended by a line feed. *)
Theorem unfinished_last_line_is_dropped
  (JSON_parse : jsstring -> option JsValue) (m : Machine) (ms : list Message)
  (model : jsstring) (t : option JsNumber) (apiKey baseUrl : jsstring)
  (onChunk : Callback) (w : World) (response : Response) (stream : BodyStream)
  (lines : list jsstring) (rest : jsstring) :
  fetched w = Resolved response -> ok response = true ->
  body response = Some stream ->
  concat (chunks stream) = streamText lines rest ->
  forallb noLineFeed lines = true -> noLineFeed rest = true ->
  ending stream = EndOfStream ->
  let r := chatCompletionStream JSON_parse m ms model t apiKey baseUrl onChunk w in
  let full := accumulated (decodedDeltas JSON_parse lines) in
  outcome r = Resolved full
  /\ lookup (generateCacheKey ms t) (cache (this (final r)))
     = Some (entryOf (JStr full) (writeTime w)).
Proof.
  intros F O B T Hl Hr E r full.
  destruct (streamDeltas_by_lines JSON_parse stream lines rest T Hl Hr) as [D _].
  assert (R : outcome r = Resolved full).
  { unfold r, full. rewrite <- D.
    destruct (hasSentinel JSON_parse (completeLines (concat (chunks stream)))) eqn:S.
    - now rewrite (stream_run_sentinel JSON_parse m ms model t apiKey baseUrl onChunk w
                     response stream F O B S).
    - now rewrite (stream_run_done JSON_parse m ms model t apiKey baseUrl onChunk w
                     response stream F O B S E). }
  split; [exact R|]. now apply stream_result_cached.
Qed.

Lemma unfinished_last_line_is_dropped_witness :
  let r := chatCompletionStream sampleParse newClient hello gpt4 None secret openai
             noting
             (worldAt 1000 (streaming (streamOfLines [hiLine] thereLine EndOfStream))) in
  outcome r = Resolved (js "Hi")
  /\ lookup (generateCacheKey hello None) (cache (this (final r)))
     = Some (entryOf (JStr (js "Hi")) 1000).
Proof.
  apply (unfinished_last_line_is_dropped sampleParse newClient hello gpt4 None secret
           openai noting
           (worldAt 1000 (streaming (streamOfLines [hiLine] thereLine EndOfStream)))
           (streaming (streamOfLines [hiLine] thereLine EndOfStream))
           (streamOfLines [hiLine] thereLine EndOfStream) [hiLine] thereLine);
    try reflexivity; vm_compute; reflexivity.
Defined.

(** A line that lacks the prefix, or whose payload JSON.parse rejects,
    leaves no mark: the run is the one of the body without that line. *)
Theorem malformed_line_is_skipped
  (JSON_parse : jsstring -> option JsValue) (m : Machine) (ms : list Message)
  (model : jsstring) (t : option JsNumber) (apiKey baseUrl : jsstring)
  (onChunk : Callback) (w1 w2 : World) (response1 response2 : Response)
  (stream1 stream2 : BodyStream) (before after : list jsstring)
  (line rest : jsstring) :
  fetched w1 = Resolved response1 -> ok response1 = true ->
  body response1 = Some stream1 ->
  fetched w2 = Resolved response2 -> ok response2 = true ->
  body response2 = Some stream2 ->
  writeTime w1 = writeTime w2 -> ending stream1 = ending stream2 ->
  concat (chunks stream1) = streamText (before ++ line :: after) rest ->
  concat (chunks stream2) = streamText (before ++ after) rest ->
  forallb noLineFeed (before ++ line :: after) = true -> noLineFeed rest = true ->
  malformed JSON_parse line ->
  chatCompletionStream JSON_parse m ms model t apiKey baseUrl onChunk w1
  = chatCompletionStream JSON_parse m ms model t apiKey baseUrl onChunk w2.
Proof.
  intros F1 O1 B1 F2 O2 B2 Tw En T1 T2 Hl Hr M.
  destruct (streamDeltas_by_lines JSON_parse stream1 _ rest T1 Hl Hr) as [D1 S1].
  destruct (streamDeltas_by_lines JSON_parse stream2 _ rest T2
              (forallb_skip _ _ _ _ Hl) Hr) as [D2 S2].
  destruct (decodedDeltas_skip JSON_parse before after line
              (malformed_ignorable JSON_parse line M)) as [D S].
  apply (stream_run_ext JSON_parse m ms model t apiKey baseUrl onChunk w1 w2
           response1 response2 stream1 stream2); try assumption.
  - now rewrite D1, D2.
  - now rewrite S1, S2.
Qed.

Lemma malformed_line_is_skipped_witness :
  chatCompletionStream sampleParse newClient hello gpt4 None secret openai noting
    (worldAt 1000 (streaming (streamOfLines [hiLine; brokenLine; thereLine] []
                                EndOfStream)))
  = chatCompletionStream sampleParse newClient hello gpt4 None secret openai noting
      (worldAt 1000 (streaming (streamOfLines [hiLine; thereLine] [] EndOfStream))).
Proof.
  apply (malformed_line_is_skipped sampleParse newClient hello gpt4 None secret openai
           noting
           (worldAt 1000 (streaming (streamOfLines [hiLine; brokenLine; thereLine] []
                                       EndOfStream)))
           (worldAt 1000 (streaming (streamOfLines [hiLine; thereLine] [] EndOfStream)))
           (streaming (streamOfLines [hiLine; brokenLine; thereLine] [] EndOfStream))
           (streaming (streamOfLines [hiLine; thereLine] [] EndOfStream))
           (streamOfLines [hiLine; brokenLine; thereLine] [] EndOfStream)
           (streamOfLines [hiLine; thereLine] [] EndOfStream)
           [hiLine] [thereLine] brokenLine []);
    try reflexivity; try (vm_compute; reflexivity).
  right. split; vm_compute; reflexivity.
Defined.

(** Once the sentinel line is complete the call is fulfilled with the text
    of the lines before it; the lines after it, the rest of the body and the
    way the stream ends, a failing or cancelled read included, do not
    count. *)
Theorem nothing_after_the_sentinel_counts
  (JSON_parse : jsstring -> option JsValue) (m : Machine) (ms : list Message)
  (model : jsstring) (t : option JsNumber) (apiKey baseUrl : jsstring)
  (onChunk : Callback) (w : World) (response : Response) (stream : BodyStream)
  (before after : list jsstring) (rest : jsstring) :
  fetched w = Resolved response -> ok response = true ->
  body response = Some stream ->
  concat (chunks stream) = streamText (before ++ doneLine :: after) rest ->
  forallb noLineFeed (before ++ doneLine :: after) = true ->
  noLineFeed rest = true ->
  let r := chatCompletionStream JSON_parse m ms model t apiKey baseUrl onChunk w in
  let full := accumulated (decodedDeltas JSON_parse before) in
  outcome r = Resolved full
  /\ lookup (generateCacheKey ms t) (cache (this (final r)))
     = Some (entryOf (JStr full) (writeTime w)).
Proof.
  intros F O B T Hl Hr r full.
  destruct (streamDeltas_by_lines JSON_parse stream _ rest T Hl Hr) as [D S].
  destruct (decodedDeltas_until_done JSON_parse before after) as [D' S'].
  rewrite D' in D. rewrite S' in S.
  assert (R : outcome r = Resolved full).
  { unfold r, full. rewrite <- D.
    now rewrite (stream_run_sentinel JSON_parse m ms model t apiKey baseUrl onChunk w
                   response stream F O B S). }
  split; [exact R|]. now apply stream_result_cached.
Qed.

Lemma nothing_after_the_sentinel_counts_witness :
  let r := chatCompletionStream sampleParse newClient hello gpt4 None secret openai
             noting
             (worldAt 1000 (streaming (streamOfLines [hiLine; doneLine; thereLine] []
                                         (ReadFails abortError)))) in
  outcome r = Resolved (js "Hi")
  /\ lookup (generateCacheKey hello None) (cache (this (final r)))
     = Some (entryOf (JStr (js "Hi")) 1000).
Proof.
  apply (nothing_after_the_sentinel_counts sampleParse newClient hello gpt4 None secret
           openai noting
           (worldAt 1000 (streaming (streamOfLines [hiLine; doneLine; thereLine] []
                                       (ReadFails abortError))))
           (streaming (streamOfLines [hiLine; doneLine; thereLine] []
                         (ReadFails abortError)))
           (streamOfLines [hiLine; doneLine; thereLine] [] (ReadFails abortError))
           [hiLine] [thereLine] []);
    try reflexivity; vm_compute; reflexivity.
Defined.

(** ** The callback, and the two modes side by side *)

(** Whether the callback returns or throws, and whether there is one, is
    not seen in the result: with any two callbacks that do no more than
    return or throw, the outcome, the final state, the network calls and
    the writes of a streamed call are the same. A callback that calls
    into the client is not one of these. *)
Theorem callback_return_or_throw_is_not_seen
  (JSON_parse : jsstring -> option JsValue) (m : Machine) (ms : list Message)
  (model : jsstring) (t : option JsNumber) (apiKey baseUrl : jsstring)
  (onChunk onChunk' : Callback) (w : World) :
  let r := chatCompletionStream JSON_parse m ms model t apiKey baseUrl onChunk w in
  let r' := chatCompletionStream JSON_parse m ms model t apiKey baseUrl onChunk' w in
  outcome r = outcome r' /\ final r = final r'
  /\ fetches (trace r) = fetches (trace r')
  /\ writes (trace r) = writes (trace r').
Proof.
  cbv zeta.
  destruct (chatCompletionStream_early_or_body JSON_parse m ms model t apiKey baseUrl
              onChunk w) as [[e E]|[response [stream [F [O B]]]]].
  - assert (E' : chatCompletionStream JSON_parse m ms model t apiKey baseUrl onChunk' w
                 = streamFailure m ms model t apiKey baseUrl e []).
    { revert E. unfold chatCompletionStream, streamFailure. cbv zeta.
      destruct (fetched w) as [response|]; [|exact (fun H => H)].
      destruct (ok response); cbn [negb].
      - destruct (body response); [|exact (fun H => H)].
        rewrite !whileRead_spec by reflexivity. cbv zeta.
        destruct (hasSentinel _ _); [|destruct (ending _)]; cbn [exitOf];
          try destruct (setCachedResponse _ _ _ _ _); try discriminate.
        intros [= R T]. exfalso.
        apply (f_equal (@length Event)) in T. rewrite length_app in T.
        cbn [length] in T. lia.
      - destruct (text response); exact (fun H => H). }
    rewrite E, E'. repeat split.
  - destruct (hasSentinel JSON_parse (completeLines (concat (chunks stream)))) eqn:S;
      [|destruct (ending stream) as [|e] eqn:E].
    + rewrite !(stream_run_sentinel JSON_parse m ms model t apiKey baseUrl _ w
                  response stream F O B S).
      cbn [outcome final trace]. unfold fetches, writes. cbn [filter isFetch isSetItem].
      rewrite !filter_app. fold (fetches (chunkEvents onChunk (streamDeltas JSON_parse stream))).
      fold (fetches (chunkEvents onChunk' (streamDeltas JSON_parse stream))).
      fold (writes (chunkEvents onChunk (streamDeltas JSON_parse stream))).
      fold (writes (chunkEvents onChunk' (streamDeltas JSON_parse stream))).
      rewrite !fetches_chunkEvents, !writes_chunkEvents. repeat split.
    + rewrite !(stream_run_done JSON_parse m ms model t apiKey baseUrl _ w
                  response stream F O B S E).
      cbn [outcome final trace]. unfold fetches, writes. cbn [filter isFetch isSetItem].
      rewrite !filter_app. fold (fetches (chunkEvents onChunk (streamDeltas JSON_parse stream))).
      fold (fetches (chunkEvents onChunk' (streamDeltas JSON_parse stream))).
      fold (writes (chunkEvents onChunk (streamDeltas JSON_parse stream))).
      fold (writes (chunkEvents onChunk' (streamDeltas JSON_parse stream))).
      rewrite !fetches_chunkEvents, !writes_chunkEvents. repeat split.
    + rewrite !(stream_run_failed JSON_parse m ms model t apiKey baseUrl _ w
                  response stream F O B e S E).
      cbn [outcome final trace]. unfold fetches, writes. cbn [filter isFetch isSetItem].
      rewrite !filter_app. fold (fetches (chunkEvents onChunk (streamDeltas JSON_parse stream))).
      fold (fetches (chunkEvents onChunk' (streamDeltas JSON_parse stream))).
      fold (writes (chunkEvents onChunk (streamDeltas JSON_parse stream))).
      fold (writes (chunkEvents onChunk' (streamDeltas JSON_parse stream))).
      rewrite !fetches_chunkEvents, !writes_chunkEvents. repeat split.
Qed.

(** A text that a streamed call returned, if not empty, is served to an
    atomic call for the same messages and temperature for the next 24
    hours, whatever its model, key and URL, with no network call. *)
Theorem streamed_text_is_served_to_atomic_calls
  (JSON_parse : jsstring -> option JsValue) (m : Machine) (ms : list Message)
  (model model' : jsstring) (t : option JsNumber)
  (apiKey apiKey' baseUrl baseUrl' : jsstring) (onChunk : Callback) (w w' : World)
  (full : jsstring) :
  let s := chatCompletionStream JSON_parse m ms model t apiKey baseUrl onChunk w in
  outcome s = Resolved full -> full <> [] ->
  lookupTime w' - writeTime w < DAY ->
  chatCompletion (final s) ms model' t apiKey' baseUrl' w'
  = {| outcome := Resolved (JStr full); final := final s; trace := [] |}.
Proof.
  intros s R N D.
  pose proof (stream_result_cached JSON_parse m ms model t apiKey baseUrl onChunk w
                full R) as L.
  fold s in L.
  apply (chatCompletion_hit (final s) ms model' t apiKey' baseUrl' w'
           (entryOf (JStr full) (writeTime w)) L).
  - exact D.
  - cbn. now destruct full.
Qed.

Lemma streamed_text_is_served_to_atomic_calls_witness :
  chatCompletion
    (final (chatCompletionStream sampleParse newClient hello gpt4 None secret openai
              noting (worldAt 1000 (streaming streamDone))))
    hello (js "other-model") None (js "other-key") (js "https://openrouter.ai/api/v1")
    offline
  = {| outcome := Resolved (JStr (js "Hi there"));
       final := final (chatCompletionStream sampleParse newClient hello gpt4 None
                         secret openai noting (worldAt 1000 (streaming streamDone)));
       trace := [] |}.
Proof.
  apply (streamed_text_is_served_to_atomic_calls sampleParse newClient hello gpt4
           (js "other-model") None secret (js "other-key") openai
           (js "https://openrouter.ai/api/v1") noting
           (worldAt 1000 (streaming streamDone)) offline (js "Hi there")).
  - vm_compute. reflexivity.
  - discriminate.
  - vm_compute. reflexivity.
Defined.

(** The two modes leave the same state: when the content of the atomic
    answer is the concatenation of the deltas of a stream that ends well,
    both calls return that text and end in the same client and storage. *)
Theorem both_modes_leave_the_same_state
  (JSON_parse : jsstring -> option JsValue) (m : Machine) (ms : list Message)
  (model : jsstring) (t : option JsNumber) (apiKey baseUrl : jsstring)
  (onChunk : Callback) (ws wa : World) (streamed atomic : Response)
  (stream : BodyStream) (data : JsValue) :
  fetched ws = Resolved streamed -> ok streamed = true ->
  body streamed = Some stream ->
  (hasSentinel JSON_parse (completeLines (concat (chunks stream))) = true
   \/ ending stream = EndOfStream) ->
  notServed m ms t wa ->
  fetched wa = Resolved atomic -> ok atomic = true ->
  json atomic = Resolved data ->
  firstChoiceContent data
  = Normal (JStr (accumulated (streamDeltas JSON_parse stream))) ->
  writeTime ws = writeTime wa ->
  let s := chatCompletionStream JSON_parse m ms model t apiKey baseUrl onChunk ws in
  let a := chatCompletion m ms model t apiKey baseUrl wa in
  outcome s = Resolved (accumulated (streamDeltas JSON_parse stream))
  /\ outcome a = Resolved (JStr (accumulated (streamDeltas JSON_parse stream)))
  /\ final s = final a.
Proof.
  intros Fs Os Bs End N Fa Oa J C Tw s a.
  unfold a.
  rewrite (chatCompletion_success m ms model t apiKey baseUrl wa atomic data _
             N Fa Oa J C).
  unfold atomicSuccess. cbv zeta. cbn [outcome final]. rewrite <- Tw.
  unfold s.
  destruct (hasSentinel JSON_parse (completeLines (concat (chunks stream)))) eqn:S.
  - rewrite (stream_run_sentinel JSON_parse m ms model t apiKey baseUrl onChunk ws
               streamed stream Fs Os Bs S).
    repeat split.
  - destruct End as [?|E]; [discriminate|].
    rewrite (stream_run_done JSON_parse m ms model t apiKey baseUrl onChunk ws
               streamed stream Fs Os Bs S E).
    repeat split.
Qed.

Lemma both_modes_leave_the_same_state_witness :
  let s := chatCompletionStream sampleParse newClient hello gpt4 None secret openai
             noting (worldAt 1000 (streaming streamDone)) in
  let a := chatCompletion newClient hello gpt4 None secret openai
             (worldAt 1000 (answering (answerOf "Hi there"))) in
  outcome s = Resolved (js "Hi there")
  /\ outcome a = Resolved (JStr (js "Hi there"))
  /\ final s = final a.
Proof.
  apply (both_modes_leave_the_same_state sampleParse newClient hello gpt4 None secret
           openai noting (worldAt 1000 (streaming streamDone))
           (worldAt 1000 (answering (answerOf "Hi there")))
           (streaming streamDone) (answering (answerOf "Hi there")) streamDone
           (answerOf "Hi there")); try reflexivity.
  - left. vm_compute. reflexivity.
  - left. vm_compute. reflexivity.
Defined.

(** ** The streaming branch of the callers *)

Lemma noted_app (a b : list Event) : noted (a ++ b) = noted a ++ noted b.
Proof.
  induction a as [|e a IH]; [reflexivity|].
  destruct e; cbn [app noted]; rewrite IH; try reflexivity. apply app_assoc.
Qed.

Lemma noted_no_chunk (evs : list Event) :
  filter isChunkEvent evs = [] -> noted evs = [].
Proof.
  induction evs as [|e evs IH]; [reflexivity|].
  destruct e; cbn [filter isChunkEvent noted]; try discriminate; exact IH.
Qed.

Lemma noted_chunkEvents (ds : list JsValue) :
  noted (chunkEvents noting ds) = accumulated ds.
Proof.
  unfold chunkEvents, accumulated.
  induction ds as [|d ds IH]; [reflexivity|].
  cbn [flat_map map concat]. rewrite noted_app, IH.
  cbn [deliver noting noted]. now rewrite app_nil_r.
Qed.

Lemma chatCompletion_controller (m : Machine) (c : option AbortController)
  (ms : list Message) (model : jsstring) (t : option JsNumber)
  (apiKey baseUrl : jsstring) (w : World) :
  notServed m ms t w ->
  chatCompletion (with_controller m c) ms model t apiKey baseUrl w
  = chatCompletion m ms model t apiKey baseUrl w.
Proof.
  intros N.
  assert (N' : notServed (with_controller m c) ms t w) by exact N.
  unfold chatCompletion. cbv zeta.
  rewrite (notServed_skips _ _ _ _ _ N), (notServed_skips _ _ _ _ _ N').
  destruct m as [[table key controller] storage]. reflexivity.
Qed.

(** When the generator ends well, the text the callback has gathered is the
    text the generator returns, and the caller asks nothing more. *)
Theorem gathered_chunks_are_the_returned_text
  (JSON_parse : jsstring -> option JsValue) (m : Machine) (ms : list Message)
  (model : jsstring) (t : option JsNumber) (apiKey baseUrl : jsstring)
  (ws wa : World) (full : jsstring) :
  let s := chatCompletionStream JSON_parse m ms model t apiKey baseUrl noting ws in
  outcome s = Resolved full ->
  streamWithFallback JSON_parse m ms model t apiKey baseUrl ws wa
  = {| outcome := Resolved (JStr full); final := final s; trace := trace s |}.
Proof.
  intros s R. unfold streamWithFallback. cbv zeta. fold s. rewrite R.
  f_equal. f_equal. f_equal. revert R. unfold s.
  destruct (chatCompletionStream_early_or_body JSON_parse m ms model t apiKey baseUrl
              noting ws) as [[e ->]|[response [stream [F [O B]]]]]; [discriminate|].
  destruct (chatCompletionStream_with_body JSON_parse m ms model t apiKey baseUrl
              noting ws response stream F O B)
    as [[-> [_ [tail [-> [_ [_ Hc]]]]]]|[e [_ [_ ->]]]]; [|discriminate].
  intros [= <-]. cbn [noted]. rewrite noted_app, noted_chunkEvents.
  now rewrite (noted_no_chunk tail Hc), app_nil_r.
Qed.

Lemma gathered_chunks_are_the_returned_text_witness :
  streamWithFallback sampleParse newClient hello gpt4 None secret openai
    (worldAt 1000 (streaming streamDone)) offline
  = {| outcome := Resolved (JStr (js "Hi there"));
       final := final (chatCompletionStream sampleParse newClient hello gpt4 None
                         secret openai noting (worldAt 1000 (streaming streamDone)));
       trace := trace (chatCompletionStream sampleParse newClient hello gpt4 None
                         secret openai noting (worldAt 1000 (streaming streamDone))) |}.
Proof.
  apply (gathered_chunks_are_the_returned_text sampleParse newClient hello gpt4 None
           secret openai (worldAt 1000 (streaming streamDone)) offline (js "Hi there")).
  vm_compute. reflexivity.
Defined.

(** When the generator throws, a cancellation by the user included, the
    caller asks again: unless the cache serves the prompt, a second network
    call goes out, not streamed, and the call ends as that atomic call
    ends; the chunks gathered so far are dropped. *)
Theorem failed_stream_is_asked_again
  (JSON_parse : jsstring -> option JsValue) (m : Machine) (ms : list Message)
  (model : jsstring) (t : option JsNumber) (apiKey baseUrl : jsstring)
  (ws wa : World) (e : JsError) :
  outcome (chatCompletionStream JSON_parse m ms model t apiKey baseUrl noting ws)
  = Rejected e ->
  notServed m ms t wa ->
  let r := streamWithFallback JSON_parse m ms model t apiKey baseUrl ws wa in
  let a := chatCompletion m ms model t apiKey baseUrl wa in
  outcome r = outcome a /\ final r = final a
  /\ fetches (trace r) = [fetchCall model ms true t apiKey baseUrl;
                          fetchCall model ms false t apiKey baseUrl].
Proof.
  intros R N r a. unfold r, streamWithFallback. cbv zeta. rewrite R.
  cbn [outcome final trace].
  assert (Fs : fetches (trace (chatCompletionStream JSON_parse m ms model t apiKey
                                  baseUrl noting ws))
               = [fetchCall model ms true t apiKey baseUrl]).
  { destruct (chatCompletionStream_early_or_body JSON_parse m ms model t apiKey
                baseUrl noting ws) as [[e' ->]|[response [stream [F [O B]]]]];
      [reflexivity|].
    destruct (chatCompletionStream_with_body JSON_parse m ms model t apiKey baseUrl
                noting ws response stream F O B)
      as [[_ [_ [tail [-> [_ [Hf _]]]]]]|[e' [_ [_ ->]]]].
    - unfold fetches in *. cbn [filter isFetch].
      now rewrite filter_app, Hf, (fetches_chunkEvents noting), app_nil_r.
    - unfold streamFailure, fetches. cbn [trace filter isFetch].
      rewrite filter_app. fold (fetches (chunkEvents noting
                                           (streamDeltas JSON_parse stream))).
      now rewrite fetches_chunkEvents. }
  assert (M : final (chatCompletionStream JSON_parse m ms model t apiKey baseUrl
                       noting ws) = with_controller m None).
  { revert R.
    destruct (chatCompletionStream_early_or_body JSON_parse m ms model t apiKey
                baseUrl noting ws) as [[e' ->]|[response [stream [F [O B]]]]];
      [reflexivity|].
    destruct (chatCompletionStream_with_body JSON_parse m ms model t apiKey baseUrl
                noting ws response stream F O B)
      as [[-> _]|[e' [_ [_ ->]]]]; [discriminate|reflexivity]. }
  rewrite M, (chatCompletion_controller m None ms model t apiKey baseUrl wa N).
  fold a. split; [reflexivity|]. split; [reflexivity|].
  unfold fetches in *. rewrite filter_app, Fs. cbn [app]. f_equal.
  unfold a.
  destruct (chatCompletion_after_miss m ms model t apiKey baseUrl wa N)
    as [[e' ->]|[response [data [content [_ [_ [_ [_ ->]]]]]]]]; [reflexivity|].
  unfold atomicSuccess. cbv zeta. cbn [trace filter isFetch].
  now rewrite setCachedResponse_events.
Qed.

Lemma failed_stream_is_asked_again_witness :
  let r := streamWithFallback sampleParse newClient hello gpt4 None secret openai
             (worldAt 1000 (streaming streamAborted))
             (worldAt 2000 (answering (answerOf "Hello"))) in
  let a := chatCompletion newClient hello gpt4 None secret openai
             (worldAt 2000 (answering (answerOf "Hello"))) in
  outcome r = outcome a /\ final r = final a
  /\ fetches (trace r) = [fetchCall gpt4 hello true None secret openai;
                          fetchCall gpt4 hello false None secret openai].
Proof.
  apply (failed_stream_is_asked_again sampleParse newClient hello gpt4 None secret
           openai (worldAt 1000 (streaming streamAborted))
           (worldAt 2000 (answering (answerOf "Hello"))) cancelled).
  - vm_compute. reflexivity.
  - left. reflexivity.
Defined.

(** The sample: the user cancels during the stream, and the step still
    ends with the answer of the second request. *)
Example cancelled_stream_of_the_sample :
  outcome (streamWithFallback sampleParse newClient hello gpt4 None secret openai
             (worldAt 1000 (streaming streamAborted))
             (worldAt 2000 (answering (answerOf "Hello"))))
  = Resolved (JStr (js "Hello")).
Proof. vm_compute. reflexivity. Qed.

(** ** Counting words *)

Section Words.

Let count (s : jsstring) : nat := length (filter nonEmpty (split_spaces s)).

Lemma split_spaces_cons (c : Z) (r : jsstring) :
  split_spaces (c :: r)
  = if isWhiteSpace c
    then if startsBlank r then split_spaces r else [] :: split_spaces r
    else match split_spaces r with
         | field :: fields => (c :: field) :: fields
         | [] => [[c]]
         end.
Proof. reflexivity. Qed.

Lemma split_spaces_head (r : jsstring) :
  exists field fields,
    split_spaces r = field :: fields /\ nonEmpty field = negb (headEmpty r).
Proof.
  induction r as [|c r (field & fields & E & N)].
  - exists [], []. now split.
  - rewrite split_spaces_cons. cbn [headEmpty].
    destruct (isWhiteSpace c) eqn:W; cbn [negb].
    + destruct (startsBlank r) eqn:S.
      * exists field, fields. split; [exact E|]. rewrite N.
        destruct r; [discriminate|]. cbn [startsBlank headEmpty] in *. now rewrite S.
      * exists [], (split_spaces r). now split.
    + rewrite E. exists (c :: field), fields. now split.
Qed.

Lemma count_blank_head (c : Z) (r : jsstring) :
  isWhiteSpace c = true -> count (c :: r) = count r.
Proof.
  intros W. unfold count. rewrite split_spaces_cons, W.
  now destruct (startsBlank r).
Qed.

Lemma count_nonblank_head (c : Z) (r : jsstring) :
  isWhiteSpace c = false ->
  count (c :: r) = (count r + if headEmpty r then 1 else 0)%nat.
Proof.
  intros W. unfold count. rewrite split_spaces_cons, W.
  destruct (split_spaces_head r) as (field & fields & -> & N).
  cbn [filter]. rewrite N. change (nonEmpty (c :: field)) with true.
  destruct (headEmpty r); cbn [negb length]; lia.
Qed.

Lemma length_split_spaces (s : jsstring) :
  length (split_spaces s)
  = (count s + (if headEmpty s then 1 else 0) + (if endsBlank s then 1 else 0))%nat.
Proof.
  induction s as [|c r IH]; [reflexivity|].
  destruct (isWhiteSpace c) eqn:W.
  - rewrite (count_blank_head c r W), split_spaces_cons, W.
    cbn [headEmpty]. rewrite W.
    destruct r as [|c' r'].
    + cbn [startsBlank endsBlank]. rewrite W. reflexivity.
    + change (endsBlank (c :: c' :: r')) with (endsBlank (c' :: r')).
      cbn [startsBlank]. cbn [headEmpty] in IH.
      destruct (isWhiteSpace c'); [exact IH|].
      cbn [length]. rewrite IH. lia.
  - rewrite (count_nonblank_head c r W), split_spaces_cons, W.
    cbn [headEmpty]. rewrite W.
    destruct (split_spaces_head r) as (field & fields & E & _).
    rewrite E. rewrite E in IH. cbn [length] in *. rewrite IH.
    destruct r as [|c' r']; [cbn [endsBlank]; rewrite W; cbn [endsBlank]; lia|].
    change (endsBlank (c :: c' :: r')) with (endsBlank (c' :: r')). lia.
Qed.

Lemma headEmpty_snoc (x : jsstring) (c : Z) :
  isWhiteSpace c = true -> headEmpty (x ++ [c]) = headEmpty x.
Proof. intros W. destruct x; [exact W|reflexivity]. Qed.

Lemma count_snoc_blank (x : jsstring) (c : Z) :
  isWhiteSpace c = true -> count (x ++ [c]) = count x.
Proof.
  intros W. induction x as [|a x IH].
  - exact (count_blank_head c [] W).
  - cbn [app]. destruct (isWhiteSpace a) eqn:A.
    + now rewrite !(count_blank_head a _ A).
    + now rewrite !(count_nonblank_head a _ A), IH, (headEmpty_snoc x c W).
Qed.

Lemma count_app_blank (b x : jsstring) :
  blank b = true -> count (x ++ b) = count x.
Proof.
  revert x. induction b as [|c b IH]; intros x B.
  - now rewrite app_nil_r.
  - cbn [blank forallb] in B. apply andb_true_iff in B. destruct B as [W B].
    change (x ++ c :: b) with (x ++ [c] ++ b). rewrite app_assoc.
    now rewrite (IH (x ++ [c]) B), (count_snoc_blank x c W).
Qed.

Lemma count_gap (a b : jsstring) (c : Z) :
  isWhiteSpace c = true -> count (a ++ c :: b) = (count a + count b)%nat.
Proof.
  intros W. induction a as [|x a IH].
  - exact (count_blank_head c b W).
  - cbn [app]. destruct (isWhiteSpace x) eqn:X.
    + now rewrite !(count_blank_head x _ X).
    + rewrite !(count_nonblank_head x _ X), IH.
      assert (H : headEmpty (a ++ c :: b) = headEmpty a)
        by (destruct a; [exact W|reflexivity]).
      rewrite H. lia.
Qed.

Lemma trimStart_blanks (s : jsstring) :
  exists b, blank b = true /\ s = b ++ trimStart s.
Proof.
  induction s as [|c s (b & B & E)]; [now exists []|].
  cbn [trimStart]. destruct (isWhiteSpace c) eqn:W.
  - exists (c :: b). cbn [blank forallb]. rewrite W. split; [exact B|].
    cbn [app]. now rewrite <- E.
  - now exists [].
Qed.

Lemma trimStart_head (s : jsstring) :
  trimStart s = [] \/ exists c r, trimStart s = c :: r /\ isWhiteSpace c = false.
Proof.
  induction s as [|c s IH]; [now left|].
  cbn [trimStart]. destruct (isWhiteSpace c) eqn:W; [exact IH|].
  right. now exists c, s.
Qed.

Lemma count_trimStart (s : jsstring) : count (trimStart s) = count s.
Proof.
  induction s as [|c s IH]; [reflexivity|].
  cbn [trimStart]. destruct (isWhiteSpace c) eqn:W; [|reflexivity].
  now rewrite (count_blank_head c s W).
Qed.

Lemma blank_rev (b : jsstring) : blank b = true -> blank (rev b) = true.
Proof.
  unfold blank. rewrite !forallb_forall. intros H x I.
  apply H. now apply in_rev.
Qed.

Lemma trimEnd_blanks (s : jsstring) :
  exists b, blank b = true /\ s = trimEnd s ++ b.
Proof.
  destruct (trimStart_blanks (rev s)) as (b & B & E).
  exists (rev b). split; [now apply blank_rev|].
  unfold trimEnd. rewrite <- rev_app_distr, <- E. now rewrite rev_involutive.
Qed.

Lemma count_trimEnd (s : jsstring) : count (trimEnd s) = count s.
Proof.
  destruct (trimEnd_blanks s) as (b & B & E).
  rewrite E at 2. now rewrite (count_app_blank b _ B).
Qed.

Lemma endsBlank_snoc (x : jsstring) (c : Z) :
  endsBlank (x ++ [c]) = isWhiteSpace c.
Proof.
  induction x as [|a x IH]; [reflexivity|].
  cbn [app]. destruct x as [|a' x']; [reflexivity|]. exact IH.
Qed.

Lemma endsBlank_trimEnd (s : jsstring) : endsBlank (trimEnd s) = false.
Proof.
  unfold trimEnd.
  destruct (trimStart_head (rev s)) as [->|(c & r & -> & W)]; [reflexivity|].
  cbn [rev]. now rewrite endsBlank_snoc.
Qed.

Lemma blank_trimStart (s : jsstring) :
  blank s = true -> trimStart s = [].
Proof.
  induction s as [|c s IH]; [reflexivity|].
  cbn [blank forallb trimStart]. intros B. apply andb_true_iff in B.
  destruct B as [-> B]. exact (IH B).
Qed.

Lemma nonblank_trimStart (s : jsstring) :
  blank s = false -> exists c r, trimStart s = c :: r /\ isWhiteSpace c = false.
Proof.
  induction s as [|c s IH]; [discriminate|].
  cbn [blank forallb trimStart]. destruct (isWhiteSpace c) eqn:W.
  - exact IH.
  - intros _. now exists c, s.
Qed.

Lemma headEmpty_trimEnd (c : Z) (r : jsstring) :
  isWhiteSpace c = false -> headEmpty (trimEnd (c :: r)) = false.
Proof.
  intros W. destruct (trimEnd_blanks (c :: r)) as (b & B & E).
  destruct (trimEnd (c :: r)) as [|c0 y].
  - cbn [app] in E. subst b. cbn [blank forallb] in B. now rewrite W in B.
  - cbn [app] in E. injection E as <- _. exact W.
Qed.

(** The two counts of the repository, side by side: countWords counts one
    word in a text that is not empty and all white space, where the count
    of processChapter is 0; on every other text they agree. *)
Theorem countWords_against_wordCount (text : jsstring) :
  countWords text
  = match text with
    | [] => 0
    | _ :: _ => if blank text then 1 else wordCount text
    end.
Proof.
  destruct text as [|c0 r0] eqn:T; [reflexivity|]. rewrite <- T.
  assert (C : countWords text = Z.of_nat (length (split_spaces (trim text))))
    by now rewrite T.
  rewrite C, length_split_spaces. unfold trim.
  rewrite endsBlank_trimEnd, count_trimEnd, count_trimStart.
  destruct (blank text) eqn:B.
  - rewrite (blank_trimStart text B) at 1.
    assert (Z0 : count text = 0%nat).
    { exact (count_app_blank text [] B). }
    rewrite Z0. reflexivity.
  - destruct (nonblank_trimStart text B) as (c & r & -> & W).
    rewrite (headEmpty_trimEnd c r W). unfold wordCount, count. f_equal. lia.
Qed.

(** The count of processChapter is the number of maximal runs outside white
    space: white space at the start and at the end adds nothing, and the
    counts on both sides of a white-space character add up. *)
Theorem wordCount_adds_over_a_gap (a b pad : jsstring) (c : Z) :
  isWhiteSpace c = true -> blank pad = true ->
  wordCount (a ++ c :: b) = wordCount a + wordCount b
  /\ wordCount (pad ++ a ++ pad) = wordCount a.
Proof.
  intros W P. unfold wordCount. fold (count (a ++ c :: b)) (count a) (count b).
  fold (count (pad ++ a ++ pad)). split.
  - rewrite (count_gap a b c W). lia.
  - f_equal. rewrite app_assoc, (count_app_blank pad _ P).
    clear -P. induction pad as [|x pad IH]; [reflexivity|].
    cbn [blank forallb] in P. apply andb_true_iff in P. destruct P as [X P].
    cbn [app]. rewrite (count_blank_head x _ X). exact (IH P).
Qed.

End Words.

Lemma wordCount_adds_over_a_gap_witness :
  wordCount (js "Once upon" ++ 32 :: js "a time")
  = wordCount (js "Once upon") + wordCount (js "a time")
  /\ wordCount (js "  " ++ js "Once upon" ++ js "  ") = wordCount (js "Once upon").
Proof.
  apply (wordCount_adds_over_a_gap (js "Once upon") (js "a time") (js "  ") 32);
    reflexivity.
Defined.

(** The sample: four words, however they are spaced. *)
Example wordCount_of_the_sample :
  wordCount (js "  Once upon   a time ") = 4
  /\ countWords (js "  Once upon   a time ") = 4
  /\ wordCount (js "   ") = 0 /\ countWords (js "   ") = 1.
Proof. vm_compute. repeat split. Qed.

(** ** The environment *)

Section EnvironmentFacts.

Variable parseInt10 : jsstring -> JsNumber.

Lemma envValue_nonempty (env : Env) (key value : jsstring) :
  envValue env key = Some value -> value <> [].
Proof.
  unfold envValue. destruct env as [vars|]; [|discriminate].
  destruct (lookup key vars) as [[|c v]|]; try discriminate.
  now intros [= <-].
Qed.

Lemma getEnvVar_nonempty (env : Env) (key fallback : jsstring) :
  fallback <> [] -> getEnvVar env key fallback <> [].
Proof.
  intros F. unfold getEnvVar. destruct (envValue env key) eqn:E; [|exact F].
  exact (envValue_nonempty env key _ E).
Qed.

Lemma jsstring_eqb_nil (s : jsstring) : s <> [] -> jsstring_eqb [] s = false.
Proof. destruct s; [congruence|reflexivity]. Qed.

End EnvironmentFacts.

(** A variable set to the empty text counts as not set, so the URL of a
    provider and the default URL are never empty, whatever the environment;
    and for the empty URL no key is found. *)
Theorem configured_urls_are_never_empty (parseInt10 : jsstring -> JsNumber)
  (env : Env) :
  let config := loadEnvConfig parseInt10 env in
  Provider.baseUrl (EnvConfig.openai config) <> []
  /\ Provider.baseUrl (EnvConfig.deepseek config) <> []
  /\ Provider.baseUrl (EnvConfig.openrouter config) <> []
  /\ Defaults.baseUrl (EnvConfig.defaults config) <> []
  /\ getApiKeyFromEnv parseInt10 env [] = [].
Proof.
  cbv zeta. unfold getApiKeyFromEnv, loadEnvConfig. cbv zeta.
  cbn [EnvConfig.openai EnvConfig.deepseek EnvConfig.openrouter EnvConfig.defaults
       Provider.baseUrl Provider.apiKey Defaults.baseUrl].
  assert (A : getEnvVar env (js "VITE_OPENAI_BASE_URL") (js "https://api.openai.com/v1")
              <> []) by (apply getEnvVar_nonempty; discriminate).
  assert (B : getEnvVar env (js "VITE_DEEPSEEK_BASE_URL") (js "https://api.deepseek.com")
              <> []) by (apply getEnvVar_nonempty; discriminate).
  assert (C : getEnvVar env (js "VITE_OPENROUTER_BASE_URL")
                (js "https://openrouter.ai/api/v1") <> [])
    by (apply getEnvVar_nonempty; discriminate).
  assert (D : getEnvVar env (js "VITE_DEFAULT_BASE_URL")
                (js "https://openrouter.ai/api/v1") <> [])
    by (apply getEnvVar_nonempty; discriminate).
  repeat (split; [assumption|]).
  now rewrite !jsstring_eqb_nil.
Qed.

(** Without a key in the environment no URL has one, and the default
    configuration starts without a key. *)
Theorem no_key_in_the_environment_for_any_url (parseInt10 : jsstring -> JsNumber)
  (env : Env) (baseUrl : jsstring) :
  hasEnvApiKeys parseInt10 env = false ->
  getApiKeyFromEnv parseInt10 env baseUrl = []
  /\ StoryConfig.apiKey (getDefaultConfigFromEnv parseInt10 env) = [].
Proof.
  unfold hasEnvApiKeys. cbv zeta. intros H.
  apply orb_false_iff in H. destruct H as [H C].
  apply orb_false_iff in H. destruct H as [A B].
  assert (K : forall url, getApiKeyFromEnv parseInt10 env url = []).
  { intros url. unfold getApiKeyFromEnv. cbv zeta.
    destruct (Provider.apiKey (EnvConfig.openai (loadEnvConfig parseInt10 env)));
      [|discriminate].
    destruct (Provider.apiKey (EnvConfig.deepseek (loadEnvConfig parseInt10 env)));
      [|discriminate].
    destruct (Provider.apiKey (EnvConfig.openrouter (loadEnvConfig parseInt10 env)));
      [|discriminate].
    now repeat destruct (jsstring_eqb _ _). }
  split; [apply K|]. unfold getDefaultConfigFromEnv. cbv zeta.
  cbn [StoryConfig.apiKey]. apply K.
Qed.

Lemma no_key_in_the_environment_for_any_url_witness :
  getApiKeyFromEnv sampleParseInt (Some []) (js "https://api.openai.com/v1") = []
  /\ StoryConfig.apiKey (getDefaultConfigFromEnv sampleParseInt (Some [])) = [].
Proof.
  apply (no_key_in_the_environment_for_any_url sampleParseInt (Some [])
           (js "https://api.openai.com/v1")).
  reflexivity.
Defined.

(** Where the environment names no URL, the three providers keep their
    own URLs, each URL finds the key of its provider, and the default
    configuration is the one of OpenRouter with the OpenRouter key. *)
Theorem default_urls_find_their_own_keys (parseInt10 : jsstring -> JsNumber)
  (env : Env) :
  (forall key, In key urlVariables -> envValue env key = None) ->
  let config := loadEnvConfig parseInt10 env in
  getApiKeyFromEnv parseInt10 env (js "https://api.openai.com/v1")
  = Provider.apiKey (EnvConfig.openai config)
  /\ getApiKeyFromEnv parseInt10 env (js "https://api.deepseek.com")
     = Provider.apiKey (EnvConfig.deepseek config)
  /\ getApiKeyFromEnv parseInt10 env (js "https://openrouter.ai/api/v1")
     = Provider.apiKey (EnvConfig.openrouter config)
  /\ StoryConfig.baseUrl (getDefaultConfigFromEnv parseInt10 env)
     = js "https://openrouter.ai/api/v1"
  /\ StoryConfig.apiKey (getDefaultConfigFromEnv parseInt10 env)
     = getEnvVar env (js "VITE_OPENROUTER_API_KEY") [].
Proof.
  intros U. cbv zeta.
  unfold getDefaultConfigFromEnv, getApiKeyFromEnv, loadEnvConfig. cbv zeta.
  cbn [EnvConfig.openai EnvConfig.deepseek EnvConfig.openrouter EnvConfig.defaults
       Provider.baseUrl Provider.apiKey Defaults.baseUrl StoryConfig.baseUrl
       StoryConfig.apiKey].
  unfold getEnvVar.
  rewrite (U (js "VITE_OPENAI_BASE_URL")) by (cbn; tauto).
  rewrite (U (js "VITE_DEEPSEEK_BASE_URL")) by (cbn; tauto).
  rewrite (U (js "VITE_OPENROUTER_BASE_URL")) by (cbn; tauto).
  rewrite (U (js "VITE_DEFAULT_BASE_URL")) by (cbn; tauto).
  repeat split.
Qed.

Lemma default_urls_find_their_own_keys_witness :
  getApiKeyFromEnv sampleParseInt keysOnly (js "https://api.openai.com/v1")
  = js "sk-openai"
  /\ getApiKeyFromEnv sampleParseInt keysOnly (js "https://api.deepseek.com") = []
  /\ getApiKeyFromEnv sampleParseInt keysOnly (js "https://openrouter.ai/api/v1")
     = js "sk-or"
  /\ StoryConfig.baseUrl (getDefaultConfigFromEnv sampleParseInt keysOnly)
     = js "https://openrouter.ai/api/v1"
  /\ StoryConfig.apiKey (getDefaultConfigFromEnv sampleParseInt keysOnly) = js "sk-or".
Proof.
  apply (default_urls_find_their_own_keys sampleParseInt keysOnly).
  intros key I. cbn [In urlVariables] in I.
  repeat (destruct I as [<-|I]; [vm_compute; reflexivity|]). contradiction.
Defined.

(** The sample: DeepSeek configured at the URL of OpenAI has a key in the
    environment that no URL finds. *)
Example shadowed_key_is_never_found :
  hasEnvApiKeys sampleParseInt shadowed = true
  /\ getApiKeyFromEnv sampleParseInt shadowed (js "https://api.openai.com/v1") = []
  /\ getApiKeyFromEnv sampleParseInt shadowed (js "https://api.deepseek.com") = [].
Proof. vm_compute. repeat split. Qed.
